(** * HighResNet (eisen/models/segmentation/highres3Dnet.py)

    A shallow embedding of the architecture wiring of the HighRes3DNet
    segmentation network: the constructors of [ConvolutionalBlock],
    [ResidualBlock], [DilationBlock] and [HighResNet], their [forward]
    methods, and the two derived numbers [num_parameters] and
    [receptive_field].

    The numerical operators of the tensor framework (convolution,
    normalisation, padding, activations) are not part of the file that is
    verified here, nor are the constructors of its layers, which may refuse
    their arguments; they are kept abstract, as the fields of the class
    [Framework], and instantiated only in closed examples. *)

From Stdlib Require Import ZArith List String Bool Lia.
Import ListNotations.

Local Open Scope string_scope.
Local Open Scope list_scope.
Local Open Scope Z_scope.

(** ** Python exceptions and fallible computations *)

Inductive exn : Type :=
| AssertionError      (* a failed [assert] *)
| UnboundLocalError   (* a local name read before any assignment *)
| AttributeError      (* [self.name] where [name] was never set *)
| KeyError            (* a missing dictionary key *)
| FrameworkError.     (* any error raised inside the tensor framework *)

Inductive result (A : Type) : Type :=
| Ok (a : A)
| Raise (e : exn).

Arguments Ok {A} a.
Arguments Raise {A} e.

Definition bind {A B : Type} (r : result A) (k : A -> result B) : result B :=
  match r with
  | Ok a => k a
  | Raise e => Raise e
  end.

Notation "x <- r ;; k" := (bind r (fun x => k))
  (at level 61, r at next level, right associativity).
Notation "r ;;; k" := (bind r (fun _ => k))
  (at level 61, right associativity).

(** [assert c] *)
Definition assert (c : bool) : result unit :=
  if c then Ok tt else Raise AssertionError.

Definition is_ok {A : Type} (r : result A) : bool :=
  match r with Ok _ => true | Raise _ => false end.

(** ** Python helpers *)

(** [range(n)]: empty when [n <= 0]. *)
Definition range (n : Z) : list Z := map Z.of_nat (seq 0 (Z.to_nat n)).

(** A dictionary with string keys, as an association list in source order. *)
Definition dict := list (string * string).

Fixpoint dict_get (d : dict) (k : string) : option string :=
  match d with
  | [] => None
  | (k', v) :: d' => if String.eqb k k' then Some v else dict_get d' k
  end.

(** [k in d.keys()] *)
Definition dict_mem (d : dict) (k : string) : bool :=
  match dict_get d k with Some _ => true | None => false end.

(** [d[k]] *)
Definition dict_index (d : dict) (k : string) : result string :=
  match dict_get d k with Some v => Ok v | None => Raise KeyError end.

(** [d == n] for the argument [dimensions], an integer or [None]. *)
Definition py_eq (d : option Z) (n : Z) : bool :=
  match d with Some z => z =? n | None => false end.

(** ** Module constants *)

Definition PADDING_MODES : dict :=
  [ ("reflect", "Reflection");
    ("replicate", "Replication");
    ("constant", "Zero") ].

Definition BATCH_DIM : nat := 0.
Definition CHANNELS_DIM : nat := 1.

(** ** Framework layers

    The layer objects the blocks assemble, described by the arguments their
    constructors receive. *)

Inductive ND : Type := D2 | D3.      (* the 2d or 3d variant of a class *)

Inductive NormKind : Type := BatchNorm | InstanceNorm.

Inductive Layer : Type :=
| Norm (kind : NormKind) (nd : ND) (num_features : Z)
| ReLU
| Pad2d (class_name : string) (padding : Z)   (* getattr(nn, class_name)(padding) *)
| Pad3d (pad : list Z) (mode : string)        (* the class Pad3d of this file *)
| Conv (nd : ND) (in_channels out_channels kernel_size dilation : Z) (bias : bool)
| Dropout3d.

(** The sizes of the parameter tensors a layer allocates are not negative:
    the kernel of a convolution has the shape
    [(out_channels, in_channels, kernel_size, ...)], the weight of a batch
    normalisation the shape [(num_features)]; an instance normalisation has
    no parameters by default. *)
Definition allocatable (l : Layer) : Prop :=
  match l with
  | Norm BatchNorm _ num_features => 0 <= num_features
  | Conv _ in_channels out_channels kernel_size _ _ =>
      0 <= in_channels /\ 0 <= out_channels /\ 0 <= kernel_size
  | _ => True
  end.

(** [Pad3d.__init__] *)
Definition Pad3d_init (pad : Z) (mode : string) : result Layer :=
  assert (dict_mem PADDING_MODES mode) ;;;
  Ok (Pad3d (repeat pad 6) mode).

(** [X2d if dimensions == 2 else X3d] *)
Definition class_nd (dimensions : option Z) : ND :=
  if py_eq dimensions 2 then D2 else D3.

(** Reading a local name that is bound on some paths only. *)
Definition read_local {A : Type} (v : option A) : result A :=
  match v with Some a => Ok a | None => Raise UnboundLocalError end.

(** A Python number that is either an [int] or a [float] with a fractional
    part; [2 ** p] is the latter when [p < 0]. *)
Inductive pynum : Type := PyInt (z : Z) | PyFloat.

Definition py_pow2 (p : Z) : pynum :=
  if p <? 0 then PyFloat else PyInt (2 ^ p).

Inductive Activation : Type := Sigmoid | Softmax | Identity.

(** The keyword arguments of [HighResNet.__init__]. *)
Record HighResNet_kwargs : Type := {
  kw_input_channels : Z;
  kw_output_channels : Z;
  kw_initial_out_channels_power : Z;
  kw_outputs_activation : string;
  kw_dimensions : option Z;
  kw_layers_per_residual_block : Z;
  kw_residual_blocks_per_dilation : Z;
  kw_dilations : Z;
  kw_batch_norm : bool;
  kw_instance_norm : bool;
  kw_residual : bool;
  kw_padding_mode : string;
  kw_add_dropout_layer : bool
}.

(** The defaults of the signature; [input_channels] and [output_channels]
    have none. *)
Definition default_kwargs (input_channels output_channels : Z) : HighResNet_kwargs :=
  {| kw_input_channels := input_channels;
     kw_output_channels := output_channels;
     kw_initial_out_channels_power := 4;
     kw_outputs_activation := "sigmoid";
     kw_dimensions := None;
     kw_layers_per_residual_block := 2;
     kw_residual_blocks_per_dilation := 3;
     kw_dilations := 3;
     kw_batch_norm := true;
     kw_instance_norm := false;
     kw_residual := true;
     kw_padding_mode := "constant";
     kw_add_dropout_layer := false |}.

(** ** The tensor framework

    A batch tensor of shape [(batch, channels, *spatial)], with the channel
    dimension kept as a list so that concatenation along [CHANNELS_DIM] is
    list concatenation.  The content of one channel (all batch entries and
    all spatial positions) is a value of the type [Chan]. *)
Record TensorOf (Chan : Type) : Type := {
  batch_size : Z;
  spatial_dims : list Z;
  channels : list Chan
}.

Arguments batch_size {Chan} _.
Arguments spatial_dims {Chan} _.
Arguments channels {Chan} _.

(** What the blocks of this file take from the framework. *)
Class Framework : Type := {
  (** the state a layer owns besides its constructor arguments (weights,
      running statistics, generator state), and its initial value *)
  Buf : Type;
  init_buf : Layer -> Buf;
  (** whether the constructor of a layer that allocates parameters
      ([nn.Conv2d], [nn.Conv3d] and the normalisation classes) accepts its
      arguments; it raises otherwise, as for a negative number of channels *)
  constructs : Layer -> bool;
  (** it never accepts a parameter tensor with a negative size *)
  constructs_allocatable : forall l, constructs l = true -> allocatable l;
  (** the content of one channel, a channel of zeros for a batch size and
      spatial dimensions, the element-wise sum of two channels *)
  Chan : Type;
  zero_channel : Z -> list Z -> Chan;
  chan_add : Chan -> Chan -> Chan;
  (** calling a layer: a new state for the layer and a tensor or an error *)
  layer_forward : Layer -> Buf -> TensorOf Chan -> Buf * result (TensorOf Chan);
  (** calling [nn.Sigmoid()] and [nn.Softmax()] *)
  sigmoid : TensorOf Chan -> result (TensorOf Chan);
  softmax : TensorOf Chan -> result (TensorOf Chan)
}.

Section Model.

Context {F : Framework}.

Definition Tensor : Type := TensorOf Chan.

(** ** Constructors *)

Record LayerInst : Type := { layer : Layer; buf : Buf }.

Definition new (l : Layer) : LayerInst := {| layer := l; buf := init_buf l |}.

(** Calling the constructor of a convolution or of a normalisation layer. *)
Definition construct (l : Layer) : result LayerInst :=
  if constructs l then Ok (new l) else Raise FrameworkError.

Record ConvolutionalBlock : Type := { convolutional_block : list LayerInst }.

(** [ConvolutionalBlock.__init__]; the defaults of the signature are
    [batch_norm=True], [instance_norm=False], [padding_mode='constant'],
    [preactivation=True], [kernel_size=3], [activation=True]. *)
Definition ConvolutionalBlock_init
    (in_channels out_channels dilation : Z) (dimensions : option Z)
    (batch_norm instance_norm : bool) (padding_mode : string)
    (preactivation : bool) (kernel_size : Z) (activation : bool)
  : result ConvolutionalBlock :=
  assert (dict_mem PADDING_MODES padding_mode) ;;;
  assert (negb (batch_norm && instance_norm)) ;;;
  padding_instance <-
    (if py_eq dimensions 2 then
       prefix <- dict_index PADDING_MODES padding_mode ;;
       Ok (Some (Pad2d (String.append prefix "Pad2d") dilation))
     else if py_eq dimensions 3 then
       p <- Pad3d_init dilation padding_mode ;;
       Ok (Some p)
     else Ok None) ;;
  let conv_class := class_nd dimensions in
  let norm_class :=
    if instance_norm then Some (Norm InstanceNorm (class_nd dimensions))
    else if batch_norm then Some (Norm BatchNorm (class_nd dimensions))
    else None in
  layers1 <-
    (if preactivation then
       n <- (if batch_norm || instance_norm then
               c <- read_local norm_class ;;
               norm <- construct (c in_channels) ;;
               Ok [norm]
             else Ok []) ;;
       Ok (n ++ (if activation then [new ReLU] else []))
     else Ok []) ;;
  layers2 <-
    (if kernel_size >? 1 then
       p <- read_local padding_instance ;; Ok (layers1 ++ [new p])
     else Ok layers1) ;;
  let use_bias := negb (instance_norm || batch_norm) in
  conv_layer <-
    construct (Conv conv_class in_channels out_channels kernel_size dilation use_bias) ;;
  let layers3 := layers2 ++ [conv_layer] in
  layers4 <-
    (if negb preactivation then
       n <- (if batch_norm || instance_norm then
               c <- read_local norm_class ;;
               norm <- construct (c out_channels) ;;
               Ok [norm]
             else Ok []) ;;
       Ok (layers3 ++ n ++ (if activation then [new ReLU] else []))
     else Ok layers3) ;;
  Ok {| convolutional_block := layers4 |}.

Record ResidualBlock : Type := {
  residual : bool;
  change_dimension : bool;
  residual_type : string;
  dimensions : option Z;
  change_dim_layer : option LayerInst;   (* [None]: the attribute is not set *)
  residual_block : list ConvolutionalBlock
}.

(** The loop [for _ in range(num_layers)] of [ResidualBlock.__init__]. *)
Fixpoint conv_blocks_loop (n : nat) (in_channels out_channels dilation : Z)
    (dimensions : option Z) (batch_norm instance_norm : bool)
    (padding_mode : string) : result (list ConvolutionalBlock) :=
  match n with
  | O => Ok []
  | S n' =>
      conv_block <- ConvolutionalBlock_init in_channels out_channels dilation
                      dimensions batch_norm instance_norm padding_mode
                      true 3 true ;;
      rest <- conv_blocks_loop n' out_channels out_channels dilation
                dimensions batch_norm instance_norm padding_mode ;;
      Ok (conv_block :: rest)
  end.

(** [ResidualBlock.__init__]; defaults [batch_norm=True],
    [instance_norm=False], [residual=True], [residual_type='pad'],
    [padding_mode='constant']. *)
Definition ResidualBlock_init
    (in_channels out_channels num_layers dilation : Z) (dimensions : option Z)
    (batch_norm instance_norm residual : bool)
    (residual_type padding_mode : string) : result ResidualBlock :=
  assert (String.eqb residual_type "pad" || String.eqb residual_type "project") ;;;
  let change_dimension := negb (in_channels =? out_channels) in
  change_dim_layer <-
    (if change_dimension && String.eqb residual_type "project" then
       conv <- construct (Conv (class_nd dimensions) in_channels out_channels
                            1 dilation false) ;;
       Ok (Some conv)
     else Ok None) ;;
  conv_blocks <- conv_blocks_loop (Z.to_nat num_layers) in_channels out_channels
                   dilation dimensions batch_norm instance_norm padding_mode ;;
  Ok {| residual := residual;
        change_dimension := change_dimension;
        residual_type := residual_type;
        dimensions := dimensions;
        change_dim_layer := change_dim_layer;
        residual_block := conv_blocks |}.

Record DilationBlock : Type := {
  db_in_channels : Z;
  db_out_channels : Z;
  dilation_block : list ResidualBlock
}.

(** The loop [for _ in range(num_residual_blocks)] of
    [DilationBlock.__init__]. *)
Fixpoint residual_blocks_loop (n : nat) (in_channels out_channels dilation : Z)
    (dimensions : option Z) (layers_per_block : Z)
    (batch_norm instance_norm residual : bool) (padding_mode : string)
  : result (list ResidualBlock) :=
  match n with
  | O => Ok []
  | S n' =>
      rb <- ResidualBlock_init in_channels out_channels layers_per_block dilation
              dimensions batch_norm instance_norm residual "pad" padding_mode ;;
      rest <- residual_blocks_loop n' out_channels out_channels dilation
                dimensions layers_per_block batch_norm instance_norm residual
                padding_mode ;;
      Ok (rb :: rest)
  end.

(** [DilationBlock.__init__]; defaults [layers_per_block=2],
    [num_residual_blocks=3], [batch_norm=True], [instance_norm=False],
    [residual=True], [padding_mode='constant']. *)
Definition DilationBlock_init
    (in_channels out_channels dilation : Z) (dimensions : option Z)
    (layers_per_block num_residual_blocks : Z)
    (batch_norm instance_norm residual : bool) (padding_mode : string)
  : result DilationBlock :=
  residual_blocks <- residual_blocks_loop (Z.to_nat num_residual_blocks)
                       in_channels out_channels dilation dimensions
                       layers_per_block batch_norm instance_norm residual
                       padding_mode ;;
  Ok {| db_in_channels := in_channels;
        db_out_channels := out_channels;
        dilation_block := residual_blocks |}.

(** The members of [HighResNet.block]. *)
Inductive Block : Type :=
| BConvolutional (b : ConvolutionalBlock)
| BDilation (b : DilationBlock)
| BDropout (l : LayerInst).

Record HighResNet : Type := {
  in_channels : Z;
  out_channels : Z;
  layers_per_residual_block : Z;
  residual_blocks_per_dilation : Z;
  dilations : Z;
  outputs_activation : option Activation;   (* [None]: the attribute is not set *)
  block : list Block
}.

(** The loop [for dilation_idx in range(dilations)] of
    [HighResNet.__init__]: the dilation blocks it appends and the final
    value of the local [out_channels]. *)
Fixpoint dilation_loop (idxs : list Z) (in_channels out_channels : Z)
    (dilation_block : option DilationBlock) (kw : HighResNet_kwargs)
  : result (list DilationBlock * Z) :=
  match idxs with
  | [] => Ok ([], out_channels)
  | dilation_idx :: rest =>
      in_channels <-
        (if dilation_idx >=? 1 then
           match dilation_block with
           | Some b => Ok (db_out_channels b)
           | None => Raise AttributeError
           end
         else Ok in_channels) ;;
      let dilation := 2 ^ dilation_idx in
      b <- DilationBlock_init in_channels out_channels dilation
             (kw_dimensions kw) (kw_layers_per_residual_block kw)
             (kw_residual_blocks_per_dilation kw) (kw_batch_norm kw)
             (kw_instance_norm kw) (kw_residual kw) (kw_padding_mode kw) ;;
      r <- dilation_loop rest in_channels (out_channels * 2) (Some b) kw ;;
      Ok (b :: fst r, snd r)
  end.

(** The chain [if ... elif ... elif ...] that sets [self.outputs_activation];
    it has no [else]. *)
Definition select_activation (name : string) : option Activation :=
  if String.eqb name "sigmoid" then Some Sigmoid
  else if String.eqb name "softmax" then Some Softmax
  else if String.eqb name "none" then Some Identity
  else None.

(** [HighResNet.__init__].  When [2 ** initial_out_channels_power] is not
    an integer the first block runs up to the construction of its
    convolution, which the framework refuses whatever it accepts for
    integers. *)
Definition HighResNet_init (kw : HighResNet_kwargs) : result HighResNet :=
  let dims := kw_dimensions kw in
  assert (py_eq dims 2 || py_eq dims 3) ;;;
  first_conv_block <-
    match py_pow2 (kw_initial_out_channels_power kw) with
    | PyInt c =>
        ConvolutionalBlock_init (kw_input_channels kw) c 1 dims
          (kw_batch_norm kw) (kw_instance_norm kw) (kw_padding_mode kw)
          false 3 true
    | PyFloat =>
        ConvolutionalBlock_init (kw_input_channels kw) 0 1 dims
          (kw_batch_norm kw) (kw_instance_norm kw) (kw_padding_mode kw)
          false 3 true ;;;
        Raise FrameworkError
    end ;;
  let initial_out_channels := 2 ^ kw_initial_out_channels_power kw in
  r <- dilation_loop (range (kw_dilations kw)) initial_out_channels
         initial_out_channels None kw ;;
  let out_channels1 := snd r / 2 in
  d <- (if kw_add_dropout_layer kw then
          dropout_conv_block <-
            ConvolutionalBlock_init out_channels1 80 1 dims
              (kw_batch_norm kw) (kw_instance_norm kw) "constant"
              false 1 true ;;
          Ok ([BConvolutional dropout_conv_block; BDropout (new Dropout3d)], 80)
        else Ok ([], out_channels1)) ;;
  classifier <-
    ConvolutionalBlock_init (snd d) (kw_output_channels kw) 1 dims
      (kw_batch_norm kw) (kw_instance_norm kw) (kw_padding_mode kw)
      false 1 false ;;
  Ok {| in_channels := kw_input_channels kw;
        out_channels := kw_output_channels kw;
        layers_per_residual_block := kw_layers_per_residual_block kw;
        residual_blocks_per_dilation := kw_residual_blocks_per_dilation kw;
        dilations := kw_dilations kw;
        outputs_activation := select_activation (kw_outputs_activation kw);
        block := [BConvolutional first_conv_block]
                 ++ map BDilation (fst r)
                 ++ fst d
                 ++ [BConvolutional classifier] |}.

(** [HighRes2DNet.__init__] and [HighRes3DNet.__init__] pass their
    arguments on and fix [dimensions]. *)
Definition with_dimensions (kw : HighResNet_kwargs) (n : Z) : HighResNet_kwargs :=
  {| kw_input_channels := kw_input_channels kw;
     kw_output_channels := kw_output_channels kw;
     kw_initial_out_channels_power := kw_initial_out_channels_power kw;
     kw_outputs_activation := kw_outputs_activation kw;
     kw_dimensions := Some n;
     kw_layers_per_residual_block := kw_layers_per_residual_block kw;
     kw_residual_blocks_per_dilation := kw_residual_blocks_per_dilation kw;
     kw_dilations := kw_dilations kw;
     kw_batch_norm := kw_batch_norm kw;
     kw_instance_norm := kw_instance_norm kw;
     kw_residual := kw_residual kw;
     kw_padding_mode := kw_padding_mode kw;
     kw_add_dropout_layer := kw_add_dropout_layer kw |}.

Definition HighRes2DNet_init (kw : HighResNet_kwargs) : result HighResNet :=
  HighResNet_init (with_dimensions kw 2).

Definition HighRes3DNet_init (kw : HighResNet_kwargs) : result HighResNet :=
  HighResNet_init (with_dimensions kw 3).

(** ** Tensor operations *)

(** [x.shape] *)
Definition shape (x : Tensor) : list Z :=
  batch_size x :: Z.of_nat (List.length (channels x)) :: spatial_dims x.

(** [x.new_zeros(batch_size, n, *spatial_dims)]: a negative size is
    refused. *)
Definition new_zeros (batch : Z) (n : Z) (spatial : list Z) : result Tensor :=
  if n <? 0 then Raise FrameworkError
  else Ok {| batch_size := batch;
             spatial_dims := spatial;
             channels := repeat (zero_channel batch spatial) (Z.to_nat n) |}.

Definition same_dims (s t : list Z) : bool :=
  if list_eq_dec Z.eq_dec s t then true else false.

(** [torch.cat((a, b, c), dim=CHANNELS_DIM)]: the other dimensions must
    agree. *)
Definition cat3 (a b c : Tensor) : result Tensor :=
  if (batch_size a =? batch_size b) && (batch_size b =? batch_size c)
     && same_dims (spatial_dims a) (spatial_dims b)
     && same_dims (spatial_dims b) (spatial_dims c)
  then Ok {| batch_size := batch_size b;
             spatial_dims := spatial_dims b;
             channels := channels a ++ channels b ++ channels c |}
  else Raise FrameworkError.

(** Broadcasting of one dimension: equal sizes, or one of them is 1. *)
Definition broadcast_dim (a b : Z) : option Z :=
  if a =? b then Some a
  else if a =? 1 then Some b
  else if b =? 1 then Some a
  else None.

Fixpoint broadcast_dims (s t : list Z) : option (list Z) :=
  match s, t with
  | [], [] => Some []
  | a :: s', b :: t' =>
      match broadcast_dim a b, broadcast_dims s' t' with
      | Some c, Some r => Some (c :: r)
      | _, _ => None
      end
  | _, _ => None
  end.

Fixpoint zip_add (xs ys : list Chan) : list Chan :=
  match xs, ys with
  | x :: xs', y :: ys' => chan_add x y :: zip_add xs' ys'
  | _, _ => []
  end.

Definition broadcast_channels (xs ys : list Chan) : option (list Chan) :=
  if Nat.eqb (List.length xs) (List.length ys) then Some (zip_add xs ys)
  else match xs, ys with
       | [x], _ => Some (map (chan_add x) ys)
       | _, [y] => Some (map (fun x => chan_add x y) xs)
       | _, _ => None
       end.

(** [x + out] for two tensors of the same rank, with the framework's
    broadcasting in every dimension; every layer of this file keeps the
    rank, operands of different rank are reported as an error. *)
Definition tensor_add (x out : Tensor) : result Tensor :=
  match broadcast_dim (batch_size x) (batch_size out),
        broadcast_dims (spatial_dims x) (spatial_dims out),
        broadcast_channels (channels x) (channels out) with
  | Some b, Some s, Some c =>
      Ok {| batch_size := b; spatial_dims := s; channels := c |}
  | _, _, _ => Raise FrameworkError
  end.

(** ** Forward computation *)

Definition LayerInst_forward (l : LayerInst) (x : Tensor)
  : LayerInst * result Tensor :=
  let (b, r) := layer_forward (layer l) (buf l) x in
  ({| layer := layer l; buf := b |}, r).

(** [nn.Sequential.forward]: the members are called in order, each on the
    output of the one before; a member that raises stops the chain. *)
Fixpoint Sequential_forward {M : Type} (fwd : M -> Tensor -> M * result Tensor)
    (ms : list M) (x : Tensor) : list M * result Tensor :=
  match ms with
  | [] => ([], Ok x)
  | m :: rest =>
      let (m', r) := fwd m x in
      match r with
      | Ok y => let (rest', r') := Sequential_forward fwd rest y in (m' :: rest', r')
      | Raise e => (m' :: rest, Raise e)
      end
  end.

(** [ConvolutionalBlock.forward] *)
Definition ConvolutionalBlock_forward (self : ConvolutionalBlock) (x : Tensor)
  : ConvolutionalBlock * result Tensor :=
  let (ls, r) := Sequential_forward LayerInst_forward (convolutional_block self) x in
  ({| convolutional_block := ls |}, r).

(** The branch [residual_type == 'pad'] of [ResidualBlock.forward]. *)
Definition pad_shortcut (x out : Tensor) : result Tensor :=
  let batch_size := batch_size x in
  let x_channels := Z.of_nat (List.length (channels x)) in
  let out_channels := Z.of_nat (List.length (channels out)) in
  let spatial_dims := spatial_dims x in
  let diff_channels := out_channels - x_channels in
  zeros_half <- new_zeros batch_size (diff_channels / 2) spatial_dims ;;
  cat3 zeros_half x zeros_half.

Definition set_residual_block (self : ResidualBlock)
    (bs : list ConvolutionalBlock) (l : option LayerInst) : ResidualBlock :=
  {| residual := residual self;
     change_dimension := change_dimension self;
     residual_type := residual_type self;
     dimensions := dimensions self;
     change_dim_layer := l;
     residual_block := bs |}.

(** [ResidualBlock.forward] *)
Definition ResidualBlock_forward (self : ResidualBlock) (x : Tensor)
  : ResidualBlock * result Tensor :=
  let (bs, r) := Sequential_forward ConvolutionalBlock_forward (residual_block self) x in
  let self1 := set_residual_block self bs (change_dim_layer self) in
  match r with
  | Raise e => (self1, Raise e)
  | Ok out =>
      if residual self then
        if change_dimension self then
          if String.eqb (residual_type self) "project" then
            match change_dim_layer self with
            | None => (self1, Raise AttributeError)
            | Some l =>
                let (l', rx) := LayerInst_forward l x in
                (set_residual_block self bs (Some l'),
                 x' <- rx ;; tensor_add x' out)
            end
          else if String.eqb (residual_type self) "pad" then
            (self1, x' <- pad_shortcut x out ;; tensor_add x' out)
          else (self1, tensor_add x out)
        else (self1, tensor_add x out)
      else (self1, Ok out)
  end.

(** [DilationBlock.forward] *)
Definition DilationBlock_forward (self : DilationBlock) (x : Tensor)
  : DilationBlock * result Tensor :=
  let (bs, r) := Sequential_forward ResidualBlock_forward (dilation_block self) x in
  ({| db_in_channels := db_in_channels self;
      db_out_channels := db_out_channels self;
      dilation_block := bs |}, r).

Definition Block_forward (b : Block) (x : Tensor) : Block * result Tensor :=
  match b with
  | BConvolutional c =>
      let (c', r) := ConvolutionalBlock_forward c x in (BConvolutional c', r)
  | BDilation d =>
      let (d', r) := DilationBlock_forward d x in (BDilation d', r)
  | BDropout l =>
      let (l', r) := LayerInst_forward l x in (BDropout l', r)
  end.

(** Calling [nn.Sigmoid()], [nn.Softmax()] or [nn.Identity()]. *)
Definition Activation_forward (a : Activation) (x : Tensor) : result Tensor :=
  match a with
  | Sigmoid => sigmoid x
  | Softmax => softmax x
  | Identity => Ok x
  end.

Definition set_block (self : HighResNet) (bs : list Block) : HighResNet :=
  {| in_channels := in_channels self;
     out_channels := out_channels self;
     layers_per_residual_block := layers_per_residual_block self;
     residual_blocks_per_dilation := residual_blocks_per_dilation self;
     dilations := dilations self;
     outputs_activation := outputs_activation self;
     block := bs |}.

(** [HighResNet.forward]: [self.outputs_activation(self.block(x))].  The
    callee [self.outputs_activation] is looked up before the argument is
    evaluated. *)
Definition HighResNet_forward (self : HighResNet) (x : Tensor)
  : HighResNet * result Tensor :=
  match outputs_activation self with
  | None => (self, Raise AttributeError)
  | Some a =>
      let (bs, r) := Sequential_forward Block_forward (block self) x in
      (set_block self bs, y <- r ;; Activation_forward a y)
  end.

(** ** Derived numbers *)

(** The learned parameter tensors of a framework layer, by shape: weight
    and bias of a batch normalisation (affine by default), none for an
    instance normalisation (not affine by default), the kernel of a
    convolution and its bias when it has one. *)
Definition nd_rank (nd : ND) : nat :=
  match nd with D2 => 2%nat | D3 => 3%nat end.

Definition Layer_parameters (l : Layer) : list (list Z) :=
  match l with
  | Norm BatchNorm _ num_features => [[num_features]; [num_features]]
  | Conv nd in_channels out_channels kernel_size _ bias =>
      (out_channels :: in_channels :: repeat kernel_size (nd_rank nd))
      :: (if bias then [[out_channels]] else [])
  | _ => []
  end.

(** [self.parameters()], as the list of [p.shape], in registration order. *)
Definition ConvolutionalBlock_parameters (b : ConvolutionalBlock) : list (list Z) :=
  flat_map (fun l => Layer_parameters (layer l)) (convolutional_block b).

Definition ResidualBlock_parameters (b : ResidualBlock) : list (list Z) :=
  match change_dim_layer b with
  | Some l => Layer_parameters (layer l)
  | None => []
  end ++ flat_map ConvolutionalBlock_parameters (residual_block b).

Definition DilationBlock_parameters (b : DilationBlock) : list (list Z) :=
  flat_map ResidualBlock_parameters (dilation_block b).

Definition Block_parameters (b : Block) : list (list Z) :=
  match b with
  | BConvolutional c => ConvolutionalBlock_parameters c
  | BDilation d => DilationBlock_parameters d
  | BDropout l => Layer_parameters (layer l)
  end.

Definition parameters (self : HighResNet) : list (list Z) :=
  flat_map Block_parameters (block self).

(** Arithmetic on 64-bit integer tensors wraps around. *)
Definition wrap64 (z : Z) : Z := (z + 2 ^ 63) mod 2 ^ 64 - 2 ^ 63.

Definition in_int64 (z : Z) : Prop := - 2 ^ 63 <= z < 2 ^ 63.

(** [torch.prod(torch.tensor(shape))] *)
Definition torch_prod (t : list Z) : Z :=
  fold_left (fun acc d => wrap64 (acc * d)) t 1.

(** [torch.sum(t)] *)
Definition torch_sum (t : list Z) : Z :=
  fold_left (fun acc d => wrap64 (acc + d)) t 0.

(** The property [num_parameters]: Python's [sum] starts from [0] and adds
    one 0-dimensional integer tensor per parameter. *)
Definition num_parameters (self : HighResNet) : Z :=
  fold_left (fun acc p => wrap64 (acc + torch_prod p)) (parameters self) 0.

(** A Python integer that meets an integer tensor must fit its type. *)
Definition to_int64 (z : Z) : result Z :=
  if (- 2 ^ 63 <=? z) && (z <? 2 ^ 63) then Ok z else Raise FrameworkError.

(** [torch.arange(D)]: a 64-bit integer tensor; a negative bound is
    refused. *)
Definition torch_arange (D : Z) : result (list Z) :=
  D' <- to_int64 D ;;
  if D' <? 0 then Raise FrameworkError else Ok (range D').

(** The property [receptive_field]. *)
Definition receptive_field (self : HighResNet) : result Z :=
  let B := layers_per_residual_block self in
  let D := dilations self in
  let N := residual_blocks_per_dilation self in
  d <- torch_arange D ;;
  BN <- to_int64 (B * N) ;;
  let terms := map (fun di => wrap64 (BN * wrap64 (2 ^ wrap64 (di + 1)))) d in
  let input_output_diff := wrap64 ((3 - 1) + torch_sum terms) in
  let receptive_field := wrap64 (input_output_diff + 1) in
  Ok receptive_field.

(** [get_receptive_field_world], for an integer spacing. *)
Definition get_receptive_field_world (self : HighResNet) (spacing : Z) : result Z :=
  r <- receptive_field self ;;
  s <- to_int64 spacing ;;
  Ok (wrap64 (r * s)).

(** ** The topology of a constructed network

    The quantities the two properties are compared with are read off the
    block structure itself. *)

(** The number of scalars a layer learns. *)
Definition Layer_num_scalars (l : Layer) : Z :=
  match l with
  | Norm BatchNorm _ num_features => 2 * num_features
  | Conv nd in_channels out_channels kernel_size _ bias =>
      out_channels * in_channels * kernel_size ^ Z.of_nat (nd_rank nd)
      + (if bias then out_channels else 0)
  | _ => 0
  end.

(** Every framework layer of a block, shortcut projections included. *)
Definition ConvolutionalBlock_layers (b : ConvolutionalBlock) : list Layer :=
  map layer (convolutional_block b).

Definition ResidualBlock_layers (b : ResidualBlock) : list Layer :=
  match change_dim_layer b with Some l => [layer l] | None => [] end
  ++ flat_map ConvolutionalBlock_layers (residual_block b).

Definition DilationBlock_layers (b : DilationBlock) : list Layer :=
  flat_map ResidualBlock_layers (dilation_block b).

Definition Block_layers (b : Block) : list Layer :=
  match b with
  | BConvolutional c => ConvolutionalBlock_layers c
  | BDilation d => DilationBlock_layers d
  | BDropout l => [layer l]
  end.

Definition HighResNet_layers (self : HighResNet) : list Layer :=
  flat_map Block_layers (block self).

Definition sumZ (l : list Z) : Z := fold_right Z.add 0 l.

(** The number of elements of a tensor of a given shape. *)
Definition numel (shape : list Z) : Z := fold_right Z.mul 1 shape.

Definition scalar_count (self : HighResNet) : Z :=
  sumZ (map Layer_num_scalars (HighResNet_layers self)).

(** By how much a layer widens the window of input positions that one
    output position depends on (stride 1 throughout). *)
Definition Layer_growth (l : Layer) : Z :=
  match l with
  | Conv _ _ _ kernel_size dilation _ => (kernel_size - 1) * dilation
  | _ => 0
  end.

Definition ConvolutionalBlock_growth (b : ConvolutionalBlock) : Z :=
  sumZ (map Layer_growth (ConvolutionalBlock_layers b)).

(** A residual block reads its input along the stack and, when
    [residual] is set, along the shortcut. *)
Definition ResidualBlock_growth (b : ResidualBlock) : Z :=
  let stack := sumZ (map ConvolutionalBlock_growth (residual_block b)) in
  let shortcut :=
    match change_dim_layer b with Some l => Layer_growth (layer l) | None => 0 end in
  if residual b then Z.max stack shortcut else stack.

Definition DilationBlock_growth (b : DilationBlock) : Z :=
  sumZ (map ResidualBlock_growth (dilation_block b)).

Definition Block_growth (b : Block) : Z :=
  match b with
  | BConvolutional c => ConvolutionalBlock_growth c
  | BDilation d => DilationBlock_growth d
  | BDropout l => Layer_growth (layer l)
  end.

(** The receptive field of the network as built. *)
Definition topology_receptive_field (self : HighResNet) : Z :=
  1 + sumZ (map Block_growth (block self)).

(** The closed form [3 + sum_{d < D} B * N * 2^(d+1)]. *)
Definition receptive_field_formula (B N D : Z) : Z :=
  3 + sumZ (map (fun d => B * N * 2 ^ (d + 1)) (range D)).

(** Kernel size and dilation of the convolutions on the main path, in the
    order in which they are applied. *)
Definition Layer_conv (l : Layer) : list (Z * Z) :=
  match l with
  | Conv _ _ _ kernel_size dilation _ => [(kernel_size, dilation)]
  | _ => []
  end.

Definition ConvolutionalBlock_convs (b : ConvolutionalBlock) : list (Z * Z) :=
  flat_map Layer_conv (ConvolutionalBlock_layers b).

(** ** The structure of a network

    What is left of a block when the state of its layers is dropped: the
    attributes set by the constructors and the layers' constructor
    arguments, nested as the blocks are. *)
Definition ResidualBlock_structure (b : ResidualBlock)
  : bool * bool * string * option Z * option Layer * list (list Layer) :=
  (residual b, change_dimension b, residual_type b, dimensions b,
   option_map layer (change_dim_layer b),
   map ConvolutionalBlock_layers (residual_block b)).

Definition DilationBlock_structure (b : DilationBlock) :=
  (db_in_channels b, db_out_channels b,
   map ResidualBlock_structure (dilation_block b)).

Inductive BlockStructure : Type :=
| SConvolutional (layers : list Layer)
| SDilation (in_channels out_channels : Z)
    (blocks : list (bool * bool * string * option Z * option Layer * list (list Layer)))
| SDropout (l : Layer).

Definition Block_structure (b : Block) : BlockStructure :=
  match b with
  | BConvolutional c => SConvolutional (ConvolutionalBlock_layers c)
  | BDilation d =>
      SDilation (db_in_channels d) (db_out_channels d)
        (map ResidualBlock_structure (dilation_block d))
  | BDropout l => SDropout (layer l)
  end.

End Model.

(** ** Shapes

    What the framework documents about the shape of a layer's output:
    normalisation, activation and dropout keep it; padding adds its amounts
    to the last dimensions, a pair per dimension and the last dimension
    first; a convolution of stride 1 without padding of its own removes
    [dilation * (kernel_size - 1)] from every spatial dimension. *)
Fixpoint pad_from_last (rev_dims pad : list Z) : list Z :=
  match pad, rev_dims with
  | l :: r :: pad', s :: rest => (s + l + r) :: pad_from_last rest pad'
  | _, _ => rev_dims
  end.

Definition F_pad_dims (dims pad : list Z) : list Z :=
  rev (pad_from_last (rev dims) pad).

Definition Layer_out_spatial (l : Layer) (spatial : list Z) : list Z :=
  match l with
  | Pad2d _ p => F_pad_dims spatial [p; p; p; p]
  | Pad3d pad _ => F_pad_dims spatial pad
  | Conv _ _ _ kernel_size dilation _ =>
      map (fun s => s - dilation * (kernel_size - 1)) spatial
  | _ => spatial
  end.

(** The layer is applied to a batch tensor with [n] spatial dimensions of
    the rank it is made for. *)
Definition Layer_rank_ok (l : Layer) (n : nat) : Prop :=
  match l with
  | Pad2d _ _ => n = 2%nat
  | Pad3d pad _ => List.length pad = (2 * n)%nat
  | Conv nd _ _ _ _ _ => n = nd_rank nd
  | _ => True
  end.

Definition Layer_out_channels (l : Layer) (channels : nat) : nat :=
  match l with
  | Conv _ _ out_channels _ _ _ => Z.to_nat out_channels
  | _ => channels
  end.

(** A framework that computes shapes only: a channel carries no data, a
    layer has no state, a convolution or a normalisation checks the number
    of channels it is given, and a convolution needs an output of at least
    one position per dimension. *)
Definition shape_layer_accepts (l : Layer) (x : TensorOf unit) : bool :=
  match l with
  | Norm _ _ num_features => Z.of_nat (List.length (channels x)) =? num_features
  | Conv _ in_channels _ kernel_size dilation _ =>
      (Z.of_nat (List.length (channels x)) =? in_channels)
      && forallb (fun s => 1 <=? s - dilation * (kernel_size - 1)) (spatial_dims x)
  | _ => true
  end.

Definition shape_layer_forward (l : Layer) (b : unit) (x : TensorOf unit)
  : unit * result (TensorOf unit) :=
  (b, if shape_layer_accepts l x then
        Ok {| batch_size := batch_size x;
              spatial_dims := Layer_out_spatial l (spatial_dims x);
              channels := repeat tt (Layer_out_channels l (List.length (channels x))) |}
      else Raise FrameworkError).

(** The sizes the constructors of the framework refuse. *)
Definition shape_constructs (l : Layer) : bool :=
  match l with
  | Norm _ _ num_features => 0 <=? num_features
  | Conv _ in_channels out_channels kernel_size _ _ =>
      (0 <=? in_channels) && (0 <=? out_channels) && (0 <=? kernel_size)
  | _ => true
  end.

Lemma shape_constructs_allocatable (l : Layer) :
  shape_constructs l = true -> allocatable l.
Proof.
  destruct l as [kind nd c | | | | nd i o k dil bias |]; simpl;
    try (intros _; exact I).
  - intros H. apply Z.leb_le in H. destruct kind; [exact H | exact I].
  - rewrite !andb_true_iff, !Z.leb_le. tauto.
Qed.

#[local] Instance ShapeFramework : Framework := {|
  Buf := unit;
  init_buf := fun _ => tt;
  constructs := shape_constructs;
  constructs_allocatable := shape_constructs_allocatable;
  Chan := unit;
  zero_channel := fun _ _ => tt;
  chan_add := fun _ _ => tt;
  layer_forward := shape_layer_forward;
  sigmoid := fun x => Ok x;
  softmax := fun x => Ok x
|}.

(** A tensor of the shape framework. *)
Definition shape_tensor (batch channels : Z) (spatial : list Z) : TensorOf unit :=
  {| batch_size := batch;
     spatial_dims := spatial;
     channels := repeat tt (Z.to_nat channels) |}.

(** The network built from keyword arguments, or an empty one when the
    constructor raises. *)
Definition built {F : Framework} (kw : HighResNet_kwargs) : HighResNet :=
  match HighResNet_init kw with
  | Ok net => net
  | Raise _ =>
      {| in_channels := 0; out_channels := 0; layers_per_residual_block := 0;
         residual_blocks_per_dilation := 0; dilations := 0;
         outputs_activation := None; block := [] |}
  end.

Definition with_activation (kw : HighResNet_kwargs) (name : string) : HighResNet_kwargs :=
  {| kw_input_channels := kw_input_channels kw;
     kw_output_channels := kw_output_channels kw;
     kw_initial_out_channels_power := kw_initial_out_channels_power kw;
     kw_outputs_activation := name;
     kw_dimensions := kw_dimensions kw;
     kw_layers_per_residual_block := kw_layers_per_residual_block kw;
     kw_residual_blocks_per_dilation := kw_residual_blocks_per_dilation kw;
     kw_dilations := kw_dilations kw;
     kw_batch_norm := kw_batch_norm kw;
     kw_instance_norm := kw_instance_norm kw;
     kw_residual := kw_residual kw;
     kw_padding_mode := kw_padding_mode kw;
     kw_add_dropout_layer := kw_add_dropout_layer kw |}.

(** [HighRes3DNet(1, 1)] *)
Definition kw3d : HighResNet_kwargs := with_dimensions (default_kwargs 1 1) 3.

(** [HighRes3DNet(1, 1, layers_per_residual_block=-1)] *)
Definition kw3d_negative_layers : HighResNet_kwargs :=
  {| kw_input_channels := 1;
     kw_output_channels := 1;
     kw_initial_out_channels_power := 4;
     kw_outputs_activation := "sigmoid";
     kw_dimensions := Some 3;
     kw_layers_per_residual_block := -1;
     kw_residual_blocks_per_dilation := 3;
     kw_dilations := 3;
     kw_batch_norm := true;
     kw_instance_norm := false;
     kw_residual := true;
     kw_padding_mode := "constant";
     kw_add_dropout_layer := false |}.

(** The network [HighRes3DNet(1, 1)] and a batch of two 8x9x10 volumes of
    one channel, in the shape framework. *)
Definition net3d : @HighResNet ShapeFramework := built kw3d.

Definition x3d : TensorOf unit := shape_tensor 2 1 [8; 9; 10].

(** [ResidualBlock(1, 2, 2, 1, 3)], or an empty block when the constructor
    raises. *)
Definition residual_1_2 : @ResidualBlock ShapeFramework :=
  match ResidualBlock_init 1 2 2 1 (Some 3) true false true "pad" "constant" with
  | Ok b => b
  | Raise _ =>
      {| residual := false; change_dimension := false; residual_type := "";
         dimensions := None; change_dim_layer := None; residual_block := [] |}
  end.

(** [ResidualBlock(3, 6, 2, 1, 3)], or an empty block when the constructor
    raises. *)
Definition residual_3_6 : @ResidualBlock ShapeFramework :=
  match ResidualBlock_init 3 6 2 1 (Some 3) true false true "pad" "constant" with
  | Ok b => b
  | Raise _ =>
      {| residual := false; change_dimension := false; residual_type := "";
         dimensions := None; change_dim_layer := None; residual_block := [] |}
  end.

(** [ConvolutionalBlock(1, 16, 1, 3, preactivation=False)], the first
    block of [HighRes3DNet(1, 1)], or an empty block when the constructor
    raises. *)
Definition first_block_1_16 : @ConvolutionalBlock ShapeFramework :=
  match ConvolutionalBlock_init 1 16 1 (Some 3) true false "constant" false 3 true with
  | Ok b => b
  | Raise _ => {| convolutional_block := [] |}
  end.

(** [ResidualBlock(1, 2, 2, 1, 3, residual_type='project')], or an empty
    block when the constructor raises. *)
Definition residual_1_2_project : @ResidualBlock ShapeFramework :=
  match ResidualBlock_init 1 2 2 1 (Some 3) true false true "project" "constant" with
  | Ok b => b
  | Raise _ =>
      {| residual := false; change_dimension := false; residual_type := "";
         dimensions := None; change_dim_layer := None; residual_block := [] |}
  end.

(** [HighRes3DNet(1, 1, dilations=0)] *)
Definition kw3d_no_dilation : HighResNet_kwargs :=
  {| kw_input_channels := 1;
     kw_output_channels := 1;
     kw_initial_out_channels_power := 4;
     kw_outputs_activation := "sigmoid";
     kw_dimensions := Some 3;
     kw_layers_per_residual_block := 2;
     kw_residual_blocks_per_dilation := 3;
     kw_dilations := 0;
     kw_batch_norm := true;
     kw_instance_norm := false;
     kw_residual := true;
     kw_padding_mode := "constant";
     kw_add_dropout_layer := false |}.

(** * Vocabulary of the properties *)

Section Vocabulary.

Context {F : Framework}.

Definition valid_padding_mode (padding_mode : string) : Prop :=
  padding_mode = "reflect" \/ padding_mode = "replicate" \/ padding_mode = "constant".

Definition valid_dimensions (dimensions : option Z) : Prop :=
  dimensions = Some 2 \/ dimensions = Some 3.

(** The two assertions of [ConvolutionalBlock.__init__] pass. *)
Definition checks_pass (batch_norm instance_norm : bool) (padding_mode : string) : Prop :=
  valid_padding_mode padding_mode /\ ~ (batch_norm = true /\ instance_norm = true).

Definition valid_residual_type (residual_type : string) : Prop :=
  residual_type = "pad" \/ residual_type = "project".

(** The framework's constructor accepts the arguments of a layer; only
    convolutions and normalisations are built from sizes it can refuse. *)
Definition accepted (l : Layer) : Prop :=
  match l with
  | Norm _ _ _ | Conv _ _ _ _ _ _ => constructs l = true
  | _ => True
  end.

(** The framework builds the 1x1 convolution of the projection shortcut,
    if the block needs one. *)
Definition projection_accepted (i o dil : Z) (dims : option Z) (rt : string) : Prop :=
  i <> o -> rt = "project" -> accepted (Conv (class_nd dims) i o 1 dil false).

(** A constructor returns, or stops on an error of the framework. *)
Definition Ok_or_framework {A : Type} (r : result A) : Prop :=
  (exists a, r = Ok a) \/ r = Raise FrameworkError.

(** The indices of [range] start at 0: the previous dilation block is read
    only once there is one. *)
Definition reads_bound (idxs : list Z) (prev : option DilationBlock) : Prop :=
  match idxs with
  | [] => True
  | k :: _ => k < 1 \/ prev <> None
  end.

(** The local [diff_channels] of the 'pad' branch, and the
    [diff_channels // 2] channels of zeros it puts on each side of the
    input. *)
Definition diff_channels (x out : Tensor) : Z :=
  Z.of_nat (List.length (channels out)) - Z.of_nat (List.length (channels x)).

Definition zeros_half (x out : Tensor) : list Chan :=
  repeat (zero_channel (batch_size x) (spatial_dims x))
    (Z.to_nat (diff_channels x out / 2)).

(** The normalisation, activation and padding layers of a convolutional
    block. *)
Definition norm_layers (dims : option Z) (bn inn : bool) (c : Z) : list Layer :=
  if bn || inn
  then [Norm (if inn then InstanceNorm else BatchNorm) (class_nd dims) c]
  else [].

Definition relu_layers (act : bool) : list Layer :=
  if act then [ReLU] else [].

Definition padding_layer (dims : option Z) (pm : string) (dil : Z) : Layer :=
  if py_eq dims 2 then
    Pad2d (String.append
             (match dict_get PADDING_MODES pm with Some s => s | None => "" end)
             "Pad2d") dil
  else Pad3d (repeat dil 6) pm.

(** The layers a successful [ConvolutionalBlock.__init__] has assembled:
    normalisation and activation before the convolution when
    [preactivation] is set and after it otherwise, and a padding layer
    right before the convolution when the kernel is larger than 1. *)
Definition assembled_layers (i o dil : Z) (dims : option Z) (bn inn : bool)
    (pm : string) (pre : bool) (k : Z) (act : bool) : list Layer :=
  (if pre then norm_layers dims bn inn i ++ relu_layers act else [])
  ++ (if k >? 1 then [padding_layer dims pm dil] else [])
  ++ [Conv (class_nd dims) i o k dil (negb (inn || bn))]
  ++ (if pre then [] else norm_layers dims bn inn o ++ relu_layers act).

(** The layers of the [n] convolutional blocks of a residual block: the
    first block goes from [i] to [o] channels, the others from [o] to [o]. *)
Fixpoint conv_blocks_layers (n : nat) (i o dil : Z) (dims : option Z)
    (bn inn : bool) (pm : string) : list Layer :=
  match n with
  | O => []
  | S n' =>
      assembled_layers i o dil dims bn inn pm true 3 true
      ++ conv_blocks_layers n' o o dil dims bn inn pm
  end.

(** The layers of the [m] residual blocks of a dilation block, each of
    [lpb] convolutional blocks; their 'pad' shortcut has no layer. *)
Fixpoint residual_blocks_layers (m : nat) (i o dil : Z) (dims : option Z)
    (lpb : Z) (bn inn : bool) (pm : string) : list Layer :=
  match m with
  | O => []
  | S m' =>
      conv_blocks_layers (Z.to_nat lpb) i o dil dims bn inn pm
      ++ residual_blocks_layers m' o o dil dims lpb bn inn pm
  end.

(** The layers of the dilation blocks of the [n] indices from [s] on: the
    block of an index [d] has dilation [2^d]; the first block goes from [i]
    to [o] channels, every later one doubles the channels. *)
Fixpoint dilation_blocks_layers (n s : nat) (i o : Z) (kw : HighResNet_kwargs)
  : list Layer :=
  match n with
  | O => []
  | S n' =>
      residual_blocks_layers (Z.to_nat (kw_residual_blocks_per_dilation kw))
        i o (2 ^ Z.of_nat s) (kw_dimensions kw)
        (kw_layers_per_residual_block kw)
        (kw_batch_norm kw) (kw_instance_norm kw) (kw_padding_mode kw)
      ++ dilation_blocks_layers n' (S s) o (o * 2) kw
  end.

(** The layers that a configuration asks for, in the order of
    [HighResNet.block]: the first block, the dilation blocks, the optional
    block of 80 channels with its dropout, and the classifier. *)
Definition configured_layers (kw : HighResNet_kwargs) : list Layer :=
  let c := 2 ^ kw_initial_out_channels_power kw in
  let n := Z.to_nat (kw_dilations kw) in
  let last := c * 2 ^ Z.of_nat n / 2 in
  assembled_layers (kw_input_channels kw) c 1 (kw_dimensions kw)
    (kw_batch_norm kw) (kw_instance_norm kw) (kw_padding_mode kw) false 3 true
  ++ dilation_blocks_layers n 0 c c kw
  ++ (if kw_add_dropout_layer kw
      then assembled_layers last 80 1 (kw_dimensions kw)
             (kw_batch_norm kw) (kw_instance_norm kw) "constant" false 1 true
           ++ [Dropout3d]
      else [])
  ++ assembled_layers (if kw_add_dropout_layer kw then 80 else last)
       (kw_output_channels kw) 1 (kw_dimensions kw)
       (kw_batch_norm kw) (kw_instance_norm kw) (kw_padding_mode kw)
       false 1 false.

(** The dilation block built for an index [d]: [N] residual blocks of [B]
    convolutions of kernel 3 and dilation [2^d]. *)
Definition dilation_block_convs (B N d : Z) : list (list (list (Z * Z))) :=
  repeat (repeat [(3, 2 ^ d)] (Z.to_nat B)) (Z.to_nat N).

(** Kernel size and dilation of the convolutions of a dilation block,
    nested as its residual blocks and their convolutional blocks are. *)
Definition DilationBlock_topology (b : DilationBlock) : list (list (list (Z * Z))) :=
  map (fun r => map ConvolutionalBlock_convs (residual_block r)) (dilation_block b).

(** The counts of the configuration fit the 64-bit integer tensor in which
    the property is computed. *)
Definition fits_int64 (B N D : Z) : Prop :=
  D < 2 ^ 63 /\ B * N < 2 ^ 63 /\ receptive_field_formula B N D < 2 ^ 63.

(** The spatial dimensions after a sequence of layers. *)
Definition layers_out_spatial (ls : list Layer) (s : list Z) : list Z :=
  fold_left (fun s l => Layer_out_spatial l s) ls s.

(** [y] has the batch size and the spatial dimensions of [x]. *)
Definition same_space (x y : Tensor) : Prop :=
  batch_size y = batch_size x /\ spatial_dims y = spatial_dims x.

(** [dimensions] is the number [n] of spatial dimensions, 2 or 3. *)
Definition rank_of (dims : option Z) (n : nat) : Prop :=
  (dims = Some 2 /\ n = 2%nat) \/ (dims = Some 3 /\ n = 3%nat).

(** A block whose layers are those of a convolutional block of kernel 3 or
    1 for tensors with [n] spatial dimensions. *)
Definition keeps_space (n : nat) (b : ConvolutionalBlock) : Prop :=
  exists i o dil dims bn inn pm pre k act,
    ConvolutionalBlock_layers b = assembled_layers i o dil dims bn inn pm pre k act
    /\ rank_of dims n /\ (k = 3 \/ k = 1).

(** A residual block whose stack keeps the space and whose projection, if
    any, is a convolution of kernel 1. *)
Definition residual_keeps_space (n : nat) (b : ResidualBlock) : Prop :=
  Forall (keeps_space n) (residual_block b) /\
  forall l, change_dim_layer b = Some l ->
    exists nd i o dil bias, layer l = Conv nd i o 1 dil bias /\ n = nd_rank nd.

(** The same for a member of [HighResNet.block]. *)
Definition block_keeps_space (n : nat) (b : Block) : Prop :=
  match b with
  | BConvolutional c => keeps_space n c
  | BDilation d => Forall (residual_keeps_space n) (dilation_block d)
  | BDropout l => layer l = Dropout3d
  end.

(** Input and output channels of the convolutions on the main path, in the
    order in which they are applied. *)
Definition Layer_io (l : Layer) : list (Z * Z) :=
  match l with
  | Conv _ in_channels out_channels _ _ _ => [(in_channels, out_channels)]
  | _ => []
  end.

Definition ConvolutionalBlock_io (b : ConvolutionalBlock) : list (Z * Z) :=
  flat_map Layer_io (ConvolutionalBlock_layers b).

Definition ResidualBlock_io (b : ResidualBlock) : list (Z * Z) :=
  flat_map ConvolutionalBlock_io (residual_block b).

Definition DilationBlock_io (b : DilationBlock) : list (Z * Z) :=
  flat_map ResidualBlock_io (dilation_block b).

Definition Block_io (b : Block) : list (Z * Z) :=
  match b with
  | BConvolutional c => ConvolutionalBlock_io c
  | BDilation d => DilationBlock_io d
  | BDropout l => Layer_io (layer l)
  end.

Definition HighResNet_io (self : HighResNet) : list (Z * Z) :=
  flat_map Block_io (block self).

(** A sequence of convolutions takes [c] channels to [c'] channels: each
    one receives as many channels as the one before produces. *)
Fixpoint links (c : Z) (l : list (Z * Z)) (c' : Z) : Prop :=
  match l with
  | [] => c = c'
  | (i, o) :: r => i = c /\ links o r c'
  end.

(** The dilation blocks among the members of [HighResNet.block]. *)
Definition dilation_blocks (self : HighResNet) : list DilationBlock :=
  flat_map (fun b => match b with BDilation d => [d] | _ => [] end) (block self).

(** The channels of [n] successive dilation blocks: the first one goes from
    [first_in] to [o], every later one doubles the channels. *)
Fixpoint wiring (first_in o : Z) (n : nat) : list (Z * Z) :=
  match n with
  | O => []
  | S n' => (first_in, o) :: wiring o (2 * o) n'
  end.

(** A layer is of the 2d, respectively 3d, family of framework classes;
    activation and dropout are the same class in both. *)
Definition Layer_is_nd (nd : ND) (l : Layer) : Prop :=
  match l with
  | Norm _ nd' _ => nd' = nd
  | Conv nd' _ _ _ _ _ => nd' = nd
  | Pad2d name _ =>
      nd = D2 /\ (name = "ReflectionPad2d" \/ name = "ReplicationPad2d"
                  \/ name = "ZeroPad2d")
  | Pad3d pad _ => nd = D3 /\ List.length pad = 6%nat
  | ReLU | Dropout3d => True
  end.

(** The layers of a block, read off its structure. *)
Definition structure_residual_layers
    (st : bool * bool * string * option Z * option Layer * list (list Layer))
  : list Layer :=
  let '(_, _, _, _, shortcut, stack) := st in
  match shortcut with Some l => [l] | None => [] end ++ List.concat stack.

Definition structure_layers (st : BlockStructure) : list Layer :=
  match st with
  | SConvolutional layers => layers
  | SDilation _ _ blocks => flat_map structure_residual_layers blocks
  | SDropout l => [l]
  end.

End Vocabulary.

(** * Properties *)

Section Properties.

Context {F : Framework}.

(** ** Configuration checks *)

Lemma py_eq_true (d : option Z) (n : Z) : py_eq d n = true <-> d = Some n.
Proof.
  destruct d as [z|]; simpl.
  - rewrite Z.eqb_eq. split; congruence.
  - split; discriminate.
Qed.

Lemma valid_dimensions_iff (d : option Z) :
  py_eq d 2 || py_eq d 3 = true <-> valid_dimensions d.
Proof.
  unfold valid_dimensions. rewrite orb_true_iff, !py_eq_true. tauto.
Qed.

Lemma dict_mem_PADDING_MODES (padding_mode : string) :
  dict_mem PADDING_MODES padding_mode = true <-> valid_padding_mode padding_mode.
Proof.
  unfold dict_mem, PADDING_MODES, valid_padding_mode; simpl.
  destruct (String.eqb_spec padding_mode "reflect") as [->|H1]; [intuition|].
  destruct (String.eqb_spec padding_mode "replicate") as [->|H2]; [intuition|].
  destruct (String.eqb_spec padding_mode "constant") as [->|H3]; [intuition|].
  split; [discriminate | intuition].
Qed.

Lemma dict_index_PADDING_MODES (padding_mode : string) :
  dict_mem PADDING_MODES padding_mode = true ->
  exists prefix, dict_index PADDING_MODES padding_mode = Ok prefix.
Proof.
  unfold dict_mem, dict_index.
  destruct (dict_get PADDING_MODES padding_mode); [eauto | discriminate].
Qed.

Lemma checks_pass_iff (bn inn : bool) (pm : string) :
  checks_pass bn inn pm <->
  dict_mem PADDING_MODES pm = true /\ negb (bn && inn) = true.
Proof.
  unfold checks_pass. rewrite dict_mem_PADDING_MODES.
  destruct bn, inn; simpl; intuition congruence.
Qed.

Ltac case_constructs :=
  repeat match goal with
         | |- context [constructs ?l] => destruct (constructs l) eqn:?; simpl
         end.

(** [ConvolutionalBlock.__init__] fails on an assertion exactly when one of
    its two checks fails. *)
Lemma ConvolutionalBlock_init_assertion
    (i o dil : Z) (dims : option Z) (bn inn : bool) (pm : string)
    (pre : bool) (k : Z) (act : bool) :
  ConvolutionalBlock_init i o dil dims bn inn pm pre k act = Raise AssertionError
  <-> ~ checks_pass bn inn pm.
Proof.
  rewrite checks_pass_iff. unfold ConvolutionalBlock_init, Pad3d_init, construct.
  destruct (dict_mem PADDING_MODES pm) eqn:Hm; simpl;
    [| split; [intros _ [H _]; discriminate | reflexivity]].
  destruct (dict_index_PADDING_MODES pm Hm) as [prefix Hp]. rewrite Hp.
  destruct bn, inn; simpl;
    try (split; [intros _ [_ H]; discriminate | reflexivity]);
    (split; [| intros H; exfalso; apply H; split; reflexivity]);
    destruct (py_eq dims 2), (py_eq dims 3), pre, (k >? 1), act; simpl;
    case_constructs; discriminate.
Qed.

(** With both checks passed and [dimensions] 2 or 3, the block is built
    when the framework builds its convolution and its normalisation. *)
Lemma ConvolutionalBlock_init_ok
    (i o dil : Z) (dims : option Z) (bn inn : bool) (pm : string)
    (pre : bool) (k : Z) (act : bool) :
  checks_pass bn inn pm -> valid_dimensions dims ->
  Forall accepted (assembled_layers i o dil dims bn inn pm pre k act) ->
  exists b, ConvolutionalBlock_init i o dil dims bn inn pm pre k act = Ok b.
Proof.
  rewrite checks_pass_iff. intros [Hm Hn] Hd.
  unfold ConvolutionalBlock_init, Pad3d_init, construct, assembled_layers,
    norm_layers, relu_layers.
  rewrite Hm, Hn. simpl.
  destruct (dict_index_PADDING_MODES pm Hm) as [prefix Hp]. rewrite Hp.
  destruct Hd as [-> | ->]; simpl;
    destruct bn, inn, pre, (k >? 1), act; simpl in *; try discriminate;
    rewrite ?Forall_cons_iff; unfold accepted; intros Ha;
    repeat match goal with
           | H : _ /\ _ |- _ => destruct H
           end;
    repeat match goal with
           | H : constructs _ = true |- _ => rewrite H; clear H; simpl
           end;
    eauto.
Qed.

(** The framework has accepted the convolution and the normalisation of a
    block that is built. *)
Lemma ConvolutionalBlock_init_accepted
    (i o dil : Z) (dims : option Z) (bn inn : bool) (pm : string)
    (pre : bool) (k : Z) (act : bool) (b : ConvolutionalBlock) :
  ConvolutionalBlock_init i o dil dims bn inn pm pre k act = Ok b ->
  Forall accepted (assembled_layers i o dil dims bn inn pm pre k act).
Proof.
  unfold ConvolutionalBlock_init, Pad3d_init, construct, assembled_layers,
    padding_layer, dict_index, dict_mem, norm_layers, relu_layers.
  destruct (dict_get PADDING_MODES pm) as [prefix |]; simpl; [| discriminate].
  destruct bn, inn; simpl; try discriminate;
    destruct (py_eq dims 2); simpl;
    try destruct (py_eq dims 3); simpl;
    destruct pre, (k >? 1), act; simpl;
    case_constructs;
    intros H; try discriminate;
    repeat (apply Forall_cons; [first [exact I | assumption] |]);
    apply Forall_nil.
Qed.

(** The layers of a block include its convolution, which the framework
    accepts only with sizes that are not negative. *)
Lemma assembled_layers_accepted_sizes
    (i o dil : Z) (dims : option Z) (bn inn : bool) (pm : string)
    (pre : bool) (k : Z) (act : bool) :
  Forall accepted (assembled_layers i o dil dims bn inn pm pre k act) ->
  0 <= i /\ 0 <= o /\ 0 <= k.
Proof.
  unfold assembled_layers. rewrite !Forall_app, Forall_cons_iff.
  intros (_ & _ & (H & _) & _).
  exact (constructs_allocatable _ H).
Qed.

(** With both checks passed and [dimensions] 2 or 3, the constructor stops
    on no error of its own. *)
Lemma ConvolutionalBlock_init_outcome
    (i o dil : Z) (dims : option Z) (bn inn : bool) (pm : string)
    (pre : bool) (k : Z) (act : bool) :
  checks_pass bn inn pm -> valid_dimensions dims ->
  Ok_or_framework (ConvolutionalBlock_init i o dil dims bn inn pm pre k act).
Proof.
  rewrite checks_pass_iff. intros [Hm Hn] Hd.
  unfold ConvolutionalBlock_init, Pad3d_init, construct, Ok_or_framework.
  rewrite Hm, Hn. simpl.
  destruct (dict_index_PADDING_MODES pm Hm) as [prefix Hp]. rewrite Hp.
  destruct Hd as [-> | ->]; simpl;
    destruct bn, inn, pre, (k >? 1), act; simpl in *; try discriminate;
    case_constructs; eauto.
Qed.

(** C4, as amended: the constructor of [ConvolutionalBlock] fails on an
    assertion exactly when [batch_norm] and [instance_norm] are both set or
    [padding_mode] is not one of 'reflect', 'replicate', 'constant'; when
    both checks pass and [dimensions] is 2 or 3, the constructor's own code
    raises nothing: the block is built unless the framework refuses to
    build one of its layers, that is, exactly when the framework accepts
    the convolution and the normalisation of the block. *)
Theorem C4_ConvolutionalBlock_init_checks
    (in_channels out_channels dilation : Z) (dimensions : option Z)
    (batch_norm instance_norm : bool) (padding_mode : string)
    (preactivation : bool) (kernel_size : Z) (activation : bool) :
  (ConvolutionalBlock_init in_channels out_channels dilation dimensions
     batch_norm instance_norm padding_mode preactivation kernel_size activation
   = Raise AssertionError
   <-> (batch_norm = true /\ instance_norm = true)
       \/ ~ valid_padding_mode padding_mode)
  /\ (checks_pass batch_norm instance_norm padding_mode ->
      valid_dimensions dimensions ->
      (exists b,
         ConvolutionalBlock_init in_channels out_channels dilation dimensions
           batch_norm instance_norm padding_mode preactivation kernel_size
           activation = Ok b)
      \/ ConvolutionalBlock_init in_channels out_channels dilation dimensions
           batch_norm instance_norm padding_mode preactivation kernel_size
           activation = Raise FrameworkError)
  /\ (checks_pass batch_norm instance_norm padding_mode ->
      valid_dimensions dimensions ->
      ((exists b,
          ConvolutionalBlock_init in_channels out_channels dilation dimensions
            batch_norm instance_norm padding_mode preactivation kernel_size
            activation = Ok b)
       <-> Forall accepted
             (assembled_layers in_channels out_channels dilation dimensions
                batch_norm instance_norm padding_mode preactivation kernel_size
                activation))).
Proof.
  split; [| split].
  - rewrite ConvolutionalBlock_init_assertion. unfold checks_pass.
    split.
    + intros H. destruct batch_norm, instance_norm; auto;
        right; intros Hv; apply H; split; auto; intros [? ?]; discriminate.
    + intros [H | H] [Hv Hn]; auto.
  - apply ConvolutionalBlock_init_outcome.
  - intros Hc Hd. split.
    + intros [b Hb]. exact (ConvolutionalBlock_init_accepted _ _ _ _ _ _ _ _ _ _ _ Hb).
    + apply ConvolutionalBlock_init_ok; assumption.
Qed.

(** ** Inversion of the constructors *)

Lemma bind_Ok {A B : Type} (r : result A) (k : A -> result B) (b : B) :
  bind r k = Ok b -> exists a, r = Ok a /\ k a = Ok b.
Proof. destruct r; simpl; [eauto | discriminate]. Qed.

Lemma bind_ret {A : Type} (r : result A) : bind r (fun a => Ok a) = r.
Proof. destruct r; reflexivity. Qed.

Lemma assert_Ok (c : bool) (u : unit) : assert c = Ok u -> c = true.
Proof. destruct c; [reflexivity | discriminate]. Qed.

Ltac inv_bind H :=
  let a := fresh "a" in
  let Ha := fresh "Ha" in
  apply bind_Ok in H; destruct H as (a & Ha & H).

(** What a successful [HighResNet.__init__] has done. *)
Lemma HighResNet_init_inv (kw : HighResNet_kwargs) (net : HighResNet) :
  HighResNet_init kw = Ok net ->
  valid_dimensions (kw_dimensions kw) /\
  0 <= kw_initial_out_channels_power kw /\
  exists first r d classifier,
    ConvolutionalBlock_init (kw_input_channels kw)
      (2 ^ kw_initial_out_channels_power kw) 1 (kw_dimensions kw)
      (kw_batch_norm kw) (kw_instance_norm kw) (kw_padding_mode kw)
      false 3 true = Ok first /\
    dilation_loop (range (kw_dilations kw))
      (2 ^ kw_initial_out_channels_power kw)
      (2 ^ kw_initial_out_channels_power kw) None kw = Ok r /\
    (if kw_add_dropout_layer kw then
       exists dropout_conv_block,
         ConvolutionalBlock_init (snd r / 2) 80 1 (kw_dimensions kw)
           (kw_batch_norm kw) (kw_instance_norm kw) "constant" false 1 true
         = Ok dropout_conv_block /\
         d = ([BConvolutional dropout_conv_block; BDropout (new Dropout3d)], 80)
     else d = ([], snd r / 2)) /\
    ConvolutionalBlock_init (snd d) (kw_output_channels kw) 1 (kw_dimensions kw)
      (kw_batch_norm kw) (kw_instance_norm kw) (kw_padding_mode kw)
      false 1 false = Ok classifier /\
    net = {| in_channels := kw_input_channels kw;
             out_channels := kw_output_channels kw;
             layers_per_residual_block := kw_layers_per_residual_block kw;
             residual_blocks_per_dilation := kw_residual_blocks_per_dilation kw;
             dilations := kw_dilations kw;
             outputs_activation := select_activation (kw_outputs_activation kw);
             block := [BConvolutional first] ++ map BDilation (fst r)
                      ++ fst d ++ [BConvolutional classifier] |}.
Proof.
  unfold HighResNet_init. intros H.
  inv_bind H. apply assert_Ok, valid_dimensions_iff in Ha.
  inv_bind H. rename a0 into first.
  unfold py_pow2 in Ha0.
  destruct (kw_initial_out_channels_power kw <? 0) eqn:Hp.
  { inv_bind Ha0. discriminate. }
  apply Z.ltb_ge in Hp.
  inv_bind H. rename a0 into r.
  inv_bind H. rename a0 into d.
  inv_bind H. rename a0 into classifier.
  injection H as <-.
  split; [assumption | split; [assumption |]].
  exists first, r, d, classifier.
  repeat split; try assumption.
  destruct (kw_add_dropout_layer kw).
  - inv_bind Ha2. injection Ha2 as <-. eauto.
  - injection Ha2 as <-. reflexivity.
Qed.

(** ** The forward computation of the network *)

(** The activation module that a name selects. *)
Lemma select_activation_cases (name : string) :
  (name = "sigmoid" -> select_activation name = Some Sigmoid) /\
  (name = "softmax" -> select_activation name = Some Softmax) /\
  (name = "none" -> select_activation name = Some Identity) /\
  (name <> "sigmoid" -> name <> "softmax" -> name <> "none" ->
   select_activation name = None).
Proof.
  unfold select_activation. repeat split.
  - intros ->. reflexivity.
  - intros ->. reflexivity.
  - intros ->. reflexivity.
  - intros H1 H2 H3.
    destruct (String.eqb_spec name "sigmoid"); [contradiction|].
    destruct (String.eqb_spec name "softmax"); [contradiction|].
    destruct (String.eqb_spec name "none"); [contradiction|].
    reflexivity.
Qed.

Lemma HighResNet_forward_Some (net : HighResNet) (a : Activation) (x : Tensor) :
  outputs_activation net = Some a ->
  HighResNet_forward net x =
  (set_block net (fst (Sequential_forward Block_forward (block net) x)),
   y <- snd (Sequential_forward Block_forward (block net) x) ;;
   Activation_forward a y).
Proof.
  intros H. unfold HighResNet_forward. rewrite H.
  destruct (Sequential_forward Block_forward (block net) x). reflexivity.
Qed.

(** C3: [forward] returns the configured output activation applied to the
    output of the sequence of all constructed blocks (first convolutional
    block, dilation blocks, optional dropout blocks, classifier) on [x]:
    the sigmoid for 'sigmoid', the softmax for 'softmax', the output of the
    blocks itself for 'none'. *)
Theorem C3_forward_is_activation_of_blocks
    (kw : HighResNet_kwargs) (net : HighResNet) (x : Tensor) :
  HighResNet_init kw = Ok net ->
  let blocks_out := snd (Sequential_forward Block_forward (block net) x) in
  (exists first dilation_blocks dropout classifier,
     block net = [BConvolutional first] ++ map BDilation dilation_blocks
                 ++ dropout ++ [BConvolutional classifier]) /\
  (kw_outputs_activation kw = "sigmoid" ->
   snd (HighResNet_forward net x) = (y <- blocks_out ;; sigmoid y)) /\
  (kw_outputs_activation kw = "softmax" ->
   snd (HighResNet_forward net x) = (y <- blocks_out ;; softmax y)) /\
  (kw_outputs_activation kw = "none" ->
   snd (HighResNet_forward net x) = blocks_out).
Proof.
  intros H blocks_out.
  destruct (HighResNet_init_inv kw net H)
    as (_ & _ & first & r & d & classifier & _ & _ & _ & _ & ->).
  destruct (select_activation_cases (kw_outputs_activation kw))
    as (Hs & Hm & Hn & _).
  split; [simpl; eauto |].
  repeat split; intros Hname.
  - rewrite (HighResNet_forward_Some _ Sigmoid) by (simpl; auto). reflexivity.
  - rewrite (HighResNet_forward_Some _ Softmax) by (simpl; auto). reflexivity.
  - rewrite (HighResNet_forward_Some _ Identity) by (simpl; auto).
    exact (bind_ret _).
Qed.

(** ** Frame: [forward] leaves the structure alone *)

Lemma Sequential_forward_structure {M S : Type}
    (fwd : M -> Tensor -> M * result Tensor) (st : M -> S) :
  (forall m x, st (fst (fwd m x)) = st m) ->
  forall ms x, map st (fst (Sequential_forward fwd ms x)) = map st ms.
Proof.
  intros Hst ms. induction ms as [| m rest IH]; intros x; simpl.
  - reflexivity.
  - specialize (Hst m x). destruct (fwd m x) as [m' [y | e]]; simpl in *.
    + specialize (IH y). destruct (Sequential_forward fwd rest y); simpl in *.
      congruence.
    + congruence.
Qed.

Lemma LayerInst_forward_layer (l : LayerInst) (x : Tensor) :
  layer (fst (LayerInst_forward l x)) = layer l.
Proof.
  unfold LayerInst_forward. destruct (layer_forward (layer l) (buf l) x).
  reflexivity.
Qed.

Lemma ConvolutionalBlock_forward_layers (b : ConvolutionalBlock) (x : Tensor) :
  ConvolutionalBlock_layers (fst (ConvolutionalBlock_forward b x))
  = ConvolutionalBlock_layers b.
Proof.
  unfold ConvolutionalBlock_forward, ConvolutionalBlock_layers.
  pose proof (Sequential_forward_structure LayerInst_forward layer
                LayerInst_forward_layer (convolutional_block b) x) as H.
  destruct (Sequential_forward LayerInst_forward (convolutional_block b) x).
  exact H.
Qed.

Lemma ResidualBlock_forward_structure (b : ResidualBlock) (x : Tensor) :
  ResidualBlock_structure (fst (ResidualBlock_forward b x))
  = ResidualBlock_structure b.
Proof.
  unfold ResidualBlock_forward.
  pose proof (Sequential_forward_structure ConvolutionalBlock_forward
                ConvolutionalBlock_layers ConvolutionalBlock_forward_layers
                (residual_block b) x) as H.
  destruct (Sequential_forward ConvolutionalBlock_forward (residual_block b) x)
    as [bs [out | e]]; simpl in H.
  - unfold ResidualBlock_structure.
    destruct (change_dim_layer b) as [l |] eqn:Hl.
    + pose proof (LayerInst_forward_layer l x) as Hx.
      destruct (LayerInst_forward l x) as [l' rx]; simpl in Hx.
      destruct (residual b) eqn:Hr, (change_dimension b) eqn:Hc,
        (String.eqb (residual_type b) "project"),
        (String.eqb (residual_type b) "pad"); simpl;
        rewrite H, ?Hx, ?Hl, ?Hr, ?Hc; reflexivity.
    + destruct (residual b) eqn:Hr, (change_dimension b) eqn:Hc,
        (String.eqb (residual_type b) "project"),
        (String.eqb (residual_type b) "pad"); simpl;
        rewrite H, ?Hl, ?Hr, ?Hc; reflexivity.
  - unfold ResidualBlock_structure. simpl. rewrite H. reflexivity.
Qed.

Lemma Block_forward_structure (b : Block) (x : Tensor) :
  Block_structure (fst (Block_forward b x)) = Block_structure b.
Proof.
  destruct b as [c | d | l]; simpl.
  - pose proof (ConvolutionalBlock_forward_layers c x) as H.
    destruct (ConvolutionalBlock_forward c x); simpl in *. congruence.
  - unfold DilationBlock_forward.
    pose proof (Sequential_forward_structure ResidualBlock_forward
                  ResidualBlock_structure ResidualBlock_forward_structure
                  (dilation_block d) x) as H.
    destruct (Sequential_forward ResidualBlock_forward (dilation_block d) x).
    simpl in *. congruence.
  - pose proof (LayerInst_forward_layer l x) as H.
    destruct (LayerInst_forward l x); simpl in *. congruence.
Qed.

(** C6: a call of [forward] returns the network with the fields recorded at
    construction unchanged: [in_channels], [out_channels],
    [layers_per_residual_block], [residual_blocks_per_dilation],
    [dilations], the output activation, and the block structure; only the
    state owned by the framework's layers may differ. *)
Theorem C6_forward_preserves_hyperparameters (net : HighResNet) (x : Tensor) :
  let net' := fst (HighResNet_forward net x) in
  in_channels net' = in_channels net /\
  out_channels net' = out_channels net /\
  layers_per_residual_block net' = layers_per_residual_block net /\
  residual_blocks_per_dilation net' = residual_blocks_per_dilation net /\
  dilations net' = dilations net /\
  outputs_activation net' = outputs_activation net /\
  map Block_structure (block net') = map Block_structure (block net).
Proof.
  unfold HighResNet_forward.
  destruct (outputs_activation net) as [a |] eqn:Ha; simpl.
  - pose proof (Sequential_forward_structure Block_forward Block_structure
                  Block_forward_structure (block net) x) as H.
    destruct (Sequential_forward Block_forward (block net) x); simpl in *.
    repeat split; auto.
  - repeat split; auto.
Qed.

(** ** When the constructors succeed and when they assert *)

Lemma Ok_or_framework_bind {A B : Type} (r : result A) (k : A -> result B) :
  Ok_or_framework r ->
  (forall a, r = Ok a -> Ok_or_framework (k a)) ->
  Ok_or_framework (bind r k).
Proof.
  intros [[a ->] | ->] Hk; simpl.
  - apply Hk. reflexivity.
  - right. reflexivity.
Qed.

Lemma Ok_or_framework_Ok {A : Type} (a : A) : Ok_or_framework (Ok a).
Proof. left. exists a. reflexivity. Qed.

Lemma Ok_or_framework_not_assertion {A : Type} (r : result A) :
  Ok_or_framework r -> r <> Raise AssertionError.
Proof. intros [[a ->] | ->]; discriminate. Qed.

Lemma construct_outcome (l : Layer) : Ok_or_framework (construct l).
Proof.
  unfold construct. destruct (constructs l); [apply Ok_or_framework_Ok |].
  right. reflexivity.
Qed.

Lemma conv_blocks_loop_outcome (n : nat) (i o dil : Z) (dims : option Z)
    (bn inn : bool) (pm : string) :
  checks_pass bn inn pm -> valid_dimensions dims ->
  Ok_or_framework (conv_blocks_loop n i o dil dims bn inn pm).
Proof.
  intros Hc Hd. revert i. induction n as [| n IH]; intros i; simpl.
  - apply Ok_or_framework_Ok.
  - apply Ok_or_framework_bind;
      [apply ConvolutionalBlock_init_outcome; assumption | intros b _].
    apply Ok_or_framework_bind; [apply IH | intros l _].
    apply Ok_or_framework_Ok.
Qed.

Lemma conv_blocks_loop_no_assertion (n : nat) (i o dil : Z) (dims : option Z)
    (bn inn : bool) (pm : string) :
  checks_pass bn inn pm ->
  conv_blocks_loop n i o dil dims bn inn pm <> Raise AssertionError.
Proof.
  intros Hc. revert i. induction n as [| n IH]; intros i; simpl.
  - discriminate.
  - destruct (ConvolutionalBlock_init i o dil dims bn inn pm true 3 true)
      as [b | e] eqn:Hb; simpl.
    + specialize (IH o).
      destruct (conv_blocks_loop n o o dil dims bn inn pm); simpl;
        [discriminate | congruence].
    + intros He. injection He as ->.
      apply ConvolutionalBlock_init_assertion in Hb. contradiction.
Qed.

Lemma valid_residual_type_iff (rt : string) :
  String.eqb rt "pad" || String.eqb rt "project" = true <-> valid_residual_type rt.
Proof.
  unfold valid_residual_type. rewrite orb_true_iff, !String.eqb_eq. tauto.
Qed.

Lemma projection_needed_iff (i o : Z) (rt : string) :
  negb (i =? o) && String.eqb rt "project" = true <-> i <> o /\ rt = "project".
Proof.
  rewrite andb_true_iff, negb_true_iff, Z.eqb_neq, String.eqb_eq. tauto.
Qed.

Lemma ResidualBlock_init_outcome (i o n dil : Z) (dims : option Z)
    (bn inn res : bool) (rt pm : string) :
  valid_residual_type rt -> checks_pass bn inn pm -> valid_dimensions dims ->
  Ok_or_framework (ResidualBlock_init i o n dil dims bn inn res rt pm).
Proof.
  intros Hr Hc Hd. unfold ResidualBlock_init.
  apply valid_residual_type_iff in Hr. rewrite Hr. simpl.
  apply Ok_or_framework_bind.
  - destruct (negb (i =? o) && String.eqb rt "project");
      [| apply Ok_or_framework_Ok].
    apply Ok_or_framework_bind; [apply construct_outcome | intros l _].
    apply Ok_or_framework_Ok.
  - intros l _. apply Ok_or_framework_bind;
      [apply conv_blocks_loop_outcome; assumption | intros bs _].
    apply Ok_or_framework_Ok.
Qed.

(** [ResidualBlock.__init__] fails on an assertion exactly when its own
    check fails or, the projection (if one is needed) being built and
    having layers to build, the checks of [ConvolutionalBlock.__init__]
    fail. *)
Lemma ResidualBlock_init_assertion (i o n dil : Z) (dims : option Z)
    (bn inn res : bool) (rt pm : string) :
  ResidualBlock_init i o n dil dims bn inn res rt pm = Raise AssertionError
  <-> ~ valid_residual_type rt
      \/ (projection_accepted i o dil dims rt /\ 0 < n /\ ~ checks_pass bn inn pm).
Proof.
  unfold ResidualBlock_init, projection_accepted, accepted.
  rewrite <- valid_residual_type_iff.
  destruct (String.eqb rt "pad" || String.eqb rt "project"); simpl.
  2: { split; [intros _; left; discriminate | reflexivity]. }
  assert (conv_blocks_loop (Z.to_nat n) i o dil dims bn inn pm
          = Raise AssertionError <-> 0 < n /\ ~ checks_pass bn inn pm) as Hloop.
  { split.
    - intros H.
      destruct (Z.to_nat n) as [| m] eqn:Hn; simpl in H; [discriminate |].
      split; [lia |]. intros Hc.
      apply (conv_blocks_loop_no_assertion (S m) i o dil dims bn inn pm Hc).
      exact H.
    - intros [Hn Hc].
      destruct (Z.to_nat n) as [| m] eqn:Hm; [lia |]. simpl.
      rewrite (proj2 (ConvolutionalBlock_init_assertion i o dil dims bn inn pm
                        true 3 true) Hc).
      reflexivity. }
  destruct (negb (i =? o) && String.eqb rt "project") eqn:Hpr.
  - apply projection_needed_iff in Hpr. destruct Hpr as [Hne Hrt].
    unfold construct.
    destruct (constructs (Conv (class_nd dims) i o 1 dil false)) eqn:Hcs; simpl.
    + destruct (conv_blocks_loop (Z.to_nat n) i o dil dims bn inn pm) as [l | e];
        simpl.
      * split; [discriminate |].
        intros [H | (_ & H)]; [exfalso; apply H; reflexivity |].
        apply Hloop in H. discriminate.
      * split.
        -- intros H. right. split; [reflexivity |]. apply Hloop.
           congruence.
        -- intros [H | (_ & H)]; [exfalso; apply H; reflexivity |].
           apply Hloop in H. congruence.
    + split; [discriminate |].
      intros [H | (H & _)]; [exfalso; apply H; reflexivity |].
      specialize (H Hne Hrt). discriminate.
  - assert (~ (i <> o /\ rt = "project")) as Hno.
    { intros H. apply projection_needed_iff in H. congruence. }
    simpl.
    destruct (conv_blocks_loop (Z.to_nat n) i o dil dims bn inn pm) as [l | e];
      simpl.
    + split; [discriminate |].
      intros [H | (_ & H)]; [exfalso; apply H; reflexivity |].
      apply Hloop in H. discriminate.
    + split.
      * intros H. right. split; [intros Hne Hrt; exfalso; auto |].
        apply Hloop. congruence.
      * intros [H | (_ & H)]; [exfalso; apply H; reflexivity |].
        apply Hloop in H. congruence.
Qed.

(** A projection with a negative number of channels is refused before any
    nested block is built, whatever the padding mode. *)
Lemma ResidualBlock_init_negative_projection (i o n dil : Z) (dims : option Z)
    (bn inn res : bool) (pm : string) :
  i <> o -> i < 0 \/ o < 0 ->
  ResidualBlock_init i o n dil dims bn inn res "project" pm
  = Raise FrameworkError.
Proof.
  intros Hne Hneg. unfold ResidualBlock_init.
  change (String.eqb "project" "pad" || String.eqb "project" "project") with true.
  change (String.eqb "project" "project") with true.
  apply Z.eqb_neq in Hne. rewrite Hne. cbn [assert bind negb andb].
  unfold construct.
  destruct (constructs (Conv (class_nd dims) i o 1 dil false)) eqn:Hcs;
    [| reflexivity].
  apply constructs_allocatable in Hcs. simpl in Hcs. lia.
Qed.

Lemma residual_blocks_loop_outcome (n : nat) (i o dil : Z) (dims : option Z)
    (lpb : Z) (bn inn res : bool) (pm : string) :
  checks_pass bn inn pm -> valid_dimensions dims ->
  Ok_or_framework (residual_blocks_loop n i o dil dims lpb bn inn res pm).
Proof.
  intros Hc Hd. revert i. induction n as [| n IH]; intros i; simpl.
  - apply Ok_or_framework_Ok.
  - apply Ok_or_framework_bind; [| intros b _].
    { apply ResidualBlock_init_outcome; [left; reflexivity | |]; assumption. }
    apply Ok_or_framework_bind; [apply IH | intros l _].
    apply Ok_or_framework_Ok.
Qed.

Lemma DilationBlock_init_outcome (i o dil : Z) (dims : option Z) (lpb nrb : Z)
    (bn inn res : bool) (pm : string) :
  checks_pass bn inn pm -> valid_dimensions dims ->
  Ok_or_framework (DilationBlock_init i o dil dims lpb nrb bn inn res pm).
Proof.
  intros Hc Hd. unfold DilationBlock_init.
  apply Ok_or_framework_bind;
    [apply residual_blocks_loop_outcome; assumption | intros l _].
  apply Ok_or_framework_Ok.
Qed.

Lemma reads_bound_rest (rest : list Z) (b : DilationBlock) :
  reads_bound rest (Some b).
Proof. destruct rest; simpl; [exact I | right; discriminate]. Qed.

Lemma dilation_loop_outcome (kw : HighResNet_kwargs) :
  checks_pass (kw_batch_norm kw) (kw_instance_norm kw) (kw_padding_mode kw) ->
  valid_dimensions (kw_dimensions kw) ->
  forall idxs i o prev, reads_bound idxs prev ->
  Ok_or_framework (dilation_loop idxs i o prev kw).
Proof.
  intros Hc Hd idxs. induction idxs as [| k rest IH]; intros i o prev Hb; simpl.
  - apply Ok_or_framework_Ok.
  - apply Ok_or_framework_bind.
    { destruct (k >=? 1) eqn:Hk; [| apply Ok_or_framework_Ok].
      destruct prev; [apply Ok_or_framework_Ok |].
      simpl in Hb. destruct Hb; [lia | congruence]. }
    intros i' _. apply Ok_or_framework_bind;
      [apply DilationBlock_init_outcome; assumption | intros b _].
    apply Ok_or_framework_bind;
      [apply IH, reads_bound_rest | intros r _].
    apply Ok_or_framework_Ok.
Qed.

Lemma reads_bound_range (n : Z) : reads_bound (range n) None.
Proof.
  unfold range. destruct (Z.to_nat n); simpl; [exact I | left; lia].
Qed.

Lemma checks_pass_constant (bn inn : bool) (pm : string) :
  checks_pass bn inn pm -> checks_pass bn inn "constant".
Proof. intros [_ H]. split; [right; right; reflexivity | exact H]. Qed.

(** A configuration that passes the check on [dimensions] and the checks of
    the convolutional blocks is built, unless the framework refuses one of
    its layers. *)
Lemma HighResNet_init_outcome (kw : HighResNet_kwargs) :
  valid_dimensions (kw_dimensions kw) ->
  checks_pass (kw_batch_norm kw) (kw_instance_norm kw) (kw_padding_mode kw) ->
  Ok_or_framework (HighResNet_init kw).
Proof.
  intros Hd Hc. unfold HighResNet_init.
  pose proof Hd as Hd'. apply valid_dimensions_iff in Hd'. rewrite Hd'. simpl.
  apply Ok_or_framework_bind.
  { destruct (py_pow2 (kw_initial_out_channels_power kw)).
    - apply ConvolutionalBlock_init_outcome; assumption.
    - apply Ok_or_framework_bind;
        [apply ConvolutionalBlock_init_outcome; assumption | intros b _].
      right. reflexivity. }
  intros first _. apply Ok_or_framework_bind.
  { apply dilation_loop_outcome; [assumption | assumption |].
    apply reads_bound_range. }
  intros r _. apply Ok_or_framework_bind.
  { destruct (kw_add_dropout_layer kw); [| apply Ok_or_framework_Ok].
    apply Ok_or_framework_bind; [| intros b _; apply Ok_or_framework_Ok].
    apply ConvolutionalBlock_init_outcome;
      [apply (checks_pass_constant _ _ _ Hc) | assumption]. }
  intros d _. apply Ok_or_framework_bind;
    [apply ConvolutionalBlock_init_outcome; assumption | intros c _].
  apply Ok_or_framework_Ok.
Qed.

(** [HighResNet.__init__] fails on an assertion exactly when its own check
    on [dimensions] fails or the checks of the first convolutional block
    fail. *)
Lemma HighResNet_init_assertion (kw : HighResNet_kwargs) :
  HighResNet_init kw = Raise AssertionError
  <-> ~ valid_dimensions (kw_dimensions kw)
      \/ ~ checks_pass (kw_batch_norm kw) (kw_instance_norm kw) (kw_padding_mode kw).
Proof.
  split.
  - intros H.
    destruct (py_eq (kw_dimensions kw) 2 || py_eq (kw_dimensions kw) 3) eqn:Hd.
    + right. intros Hc. apply valid_dimensions_iff in Hd.
      exact (Ok_or_framework_not_assertion _ (HighResNet_init_outcome kw Hd Hc) H).
    + left. intros Hv. apply valid_dimensions_iff in Hv. congruence.
  - intros [Hd | Hc]; unfold HighResNet_init.
    + destruct (py_eq (kw_dimensions kw) 2 || py_eq (kw_dimensions kw) 3) eqn:Hv.
      * apply valid_dimensions_iff in Hv. contradiction.
      * reflexivity.
    + destruct (py_eq (kw_dimensions kw) 2 || py_eq (kw_dimensions kw) 3);
        [| reflexivity].
      simpl. unfold py_pow2.
      destruct (kw_initial_out_channels_power kw <? 0);
        match goal with
        | |- context [ConvolutionalBlock_init ?i ?o ?d ?dm ?b ?n ?p ?pr ?k ?a] =>
            rewrite (proj2 (ConvolutionalBlock_init_assertion i o d dm b n p pr k a) Hc)
        end; reflexivity.
Qed.

(** C5: the constructor of [HighResNet] fails on an assertion whenever
    [dimensions] is neither 2 nor 3, in particular for the default [None];
    the constructor of [ResidualBlock] fails on an assertion whenever
    [residual_type] is neither 'pad' nor 'project'; and these are the only
    checks of the two constructors themselves: any other assertion failure
    comes from the checks of a [ConvolutionalBlock] they build, which a
    [ResidualBlock] reaches once the framework has built its projection,
    if it needs one. *)
Theorem C5_constructor_assertions :
  (forall kw, ~ valid_dimensions (kw_dimensions kw) ->
     HighResNet_init kw = Raise AssertionError) /\
  (forall input_channels output_channels,
     HighResNet_init (default_kwargs input_channels output_channels)
     = Raise AssertionError) /\
  (forall i o n dil dims bn inn res rt pm,
     rt <> "pad" -> rt <> "project" ->
     ResidualBlock_init i o n dil dims bn inn res rt pm = Raise AssertionError) /\
  (forall kw,
     HighResNet_init kw = Raise AssertionError
     <-> ~ valid_dimensions (kw_dimensions kw)
         \/ ~ checks_pass (kw_batch_norm kw) (kw_instance_norm kw)
                          (kw_padding_mode kw)) /\
  (forall i o n dil dims bn inn res rt pm,
     ResidualBlock_init i o n dil dims bn inn res rt pm = Raise AssertionError
     <-> ~ valid_residual_type rt
         \/ (projection_accepted i o dil dims rt
             /\ 0 < n /\ ~ checks_pass bn inn pm)).
Proof.
  split; [| split; [| split; [| split]]].
  - intros kw H. apply HighResNet_init_assertion. left. exact H.
  - intros i o. reflexivity.
  - intros i o n dil dims bn inn res rt pm H1 H2.
    apply ResidualBlock_init_assertion. left. intros [H | H]; contradiction.
  - apply HighResNet_init_assertion.
  - apply ResidualBlock_init_assertion.
Qed.

(** ** The residual shortcut *)

Lemma ResidualBlock_init_inv (i o n dil : Z) (dims : option Z)
    (bn inn res : bool) (rt pm : string) (b : ResidualBlock) :
  ResidualBlock_init i o n dil dims bn inn res rt pm = Ok b ->
  valid_residual_type rt /\
  residual b = res /\
  change_dimension b = negb (i =? o) /\
  residual_type b = rt /\
  dimensions b = dims /\
  change_dim_layer b =
    (if negb (i =? o) && String.eqb rt "project"
     then Some (new (Conv (class_nd dims) i o 1 dil false)) else None) /\
  conv_blocks_loop (Z.to_nat n) i o dil dims bn inn pm = Ok (residual_block b).
Proof.
  unfold ResidualBlock_init. intros H.
  inv_bind H. apply assert_Ok, valid_residual_type_iff in Ha.
  inv_bind H. rename a0 into shortcut.
  inv_bind H. injection H as <-. simpl.
  assert (shortcut = if negb (i =? o) && String.eqb rt "project"
                     then Some (new (Conv (class_nd dims) i o 1 dil false))
                     else None) as ->.
  { destruct (negb (i =? o) && String.eqb rt "project").
    - unfold construct in Ha0.
      destruct (constructs (Conv (class_nd dims) i o 1 dil false));
        simpl in Ha0; [| discriminate].
      injection Ha0 as <-. reflexivity.
    - injection Ha0 as <-. reflexivity. }
  repeat split; assumption.
Qed.

Lemma pad_shortcut_Ok (x out x' : Tensor) :
  pad_shortcut x out = Ok x' ->
  0 <= diff_channels x out /\
  batch_size x' = batch_size x /\
  spatial_dims x' = spatial_dims x /\
  channels x' = zeros_half x out ++ channels x ++ zeros_half x out.
Proof.
  intros H. unfold pad_shortcut, new_zeros in H.
  unfold zeros_half. fold (diff_channels x out) in H.
  set (diff := diff_channels x out) in *.
  destruct (diff / 2 <? 0) eqn:Hk; simpl in H; [discriminate |].
  apply Z.ltb_ge in Hk.
  unfold cat3 in H; simpl in H.
  rewrite Z.eqb_refl in H. unfold same_dims in H.
  destruct (list_eq_dec Z.eq_dec (spatial_dims x) (spatial_dims x));
    [| contradiction].
  simpl in H. injection H as <-. simpl.
  split; [| auto].
  destruct (Z.neg_nonneg_cases diff) as [Hn | Hn]; [| exact Hn].
  exfalso. assert (diff / 2 < 0) by (apply Z.div_lt_upper_bound; lia). lia.
Qed.

Lemma pad_shortcut_is_ok (x out : Tensor) :
  is_ok (pad_shortcut x out) = true <-> 0 <= diff_channels x out.
Proof.
  split.
  - destruct (pad_shortcut x out) as [x' |] eqn:H; [| discriminate].
    intros _. apply (pad_shortcut_Ok x out x' H).
  - intros Hd. unfold pad_shortcut, new_zeros.
    fold (diff_channels x out). set (diff := diff_channels x out) in *.
    assert (0 <= diff / 2) as Hk by (apply Z.div_pos; lia).
    apply Z.ltb_ge in Hk. rewrite Hk. simpl.
    unfold cat3; simpl. rewrite Z.eqb_refl. unfold same_dims.
    destruct (list_eq_dec Z.eq_dec (spatial_dims x) (spatial_dims x));
      [reflexivity | contradiction].
Qed.

Lemma pad_shortcut_length (x out x' : Tensor) :
  pad_shortcut x out = Ok x' ->
  Z.of_nat (List.length (channels x'))
  = Z.of_nat (List.length (channels x)) + 2 * (diff_channels x out / 2).
Proof.
  intros H. destruct (pad_shortcut_Ok x out x' H) as (Hd & _ & _ & Hc).
  rewrite Hc, !length_app. unfold zeros_half. rewrite repeat_length.
  assert (0 <= diff_channels x out / 2) by (apply Z.div_pos; lia).
  lia.
Qed.

Lemma even_half (d : Z) : Z.even d = true <-> 2 * (d / 2) = d.
Proof.
  pose proof (Z.div_mod d 2 ltac:(lia)) as Hdm.
  pose proof (Zmod_even d) as He.
  destruct (Z.even d); split; intros; try lia; try discriminate; reflexivity.
Qed.

(** What the 'pad' branch builds: [diff_channels // 2] channels of zeros,
    the input, and the same zeros again; it has the channels of the output
    of the stack exactly when the difference is even. *)
Lemma pad_shortcut_channels (x out x' : Tensor) :
  pad_shortcut x out = Ok x' ->
  channels x' = zeros_half x out ++ channels x ++ zeros_half x out /\
  List.length (zeros_half x out) = Z.to_nat (diff_channels x out / 2) /\
  Forall (eq (zero_channel (batch_size x) (spatial_dims x))) (zeros_half x out) /\
  (List.length (channels x') = List.length (channels out)
   <-> Z.even (diff_channels x out) = true).
Proof.
  intros H.
  destruct (pad_shortcut_Ok x out x' H) as (Hd & _ & _ & Hc).
  pose proof (pad_shortcut_length x out x' H) as Hlen.
  split; [exact Hc |]. split; [apply repeat_length |]. split.
  - apply Forall_forall. intros c Hin. apply repeat_spec in Hin. auto.
  - rewrite even_half. unfold diff_channels in *. lia.
Qed.

(** X15: [ResidualBlock.forward] on a constructed block, case by case:
    without [residual] it returns the output of the convolution stack; with
    it, the sum of that output and of the input itself when
    [in_channels = out_channels], of the image of the input under the 1x1
    convolution to [out_channels] channels for 'project', and of the
    shortcut of the 'pad' branch otherwise, which is the input between
    twice [floor((out - in) / 2)] channels of zeros and has as many
    channels as the output of the stack exactly when the difference is
    even. *)
Theorem X15_ResidualBlock_forward_cases
    (i o n dil : Z) (dims : option Z) (bn inn res : bool) (rt pm : string)
    (b : ResidualBlock) (x : Tensor) :
  ResidualBlock_init i o n dil dims bn inn res rt pm = Ok b ->
  let stack := snd (Sequential_forward ConvolutionalBlock_forward (residual_block b) x) in
  (res = false -> snd (ResidualBlock_forward b x) = stack) /\
  (res = true -> i = o ->
   snd (ResidualBlock_forward b x) = (out <- stack ;; tensor_add x out)) /\
  (res = true -> i <> o -> rt = "project" ->
   exists l,
     change_dim_layer b = Some l /\
     layer l = Conv (class_nd dims) i o 1 dil false /\
     snd (ResidualBlock_forward b x)
     = (out <- stack ;; x' <- snd (LayerInst_forward l x) ;; tensor_add x' out)) /\
  (res = true -> i <> o -> rt = "pad" ->
   snd (ResidualBlock_forward b x)
   = (out <- stack ;; x' <- pad_shortcut x out ;; tensor_add x' out) /\
   forall out x', pad_shortcut x out = Ok x' ->
     channels x' = zeros_half x out ++ channels x ++ zeros_half x out /\
     List.length (zeros_half x out) = Z.to_nat (diff_channels x out / 2) /\
     Forall (eq (zero_channel (batch_size x) (spatial_dims x))) (zeros_half x out) /\
     (List.length (channels x') = List.length (channels out)
      <-> Z.even (diff_channels x out) = true)).
Proof.
  intros H stack.
  destruct (ResidualBlock_init_inv _ _ _ _ _ _ _ _ _ _ _ H)
    as (_ & Hres & Hcd & Hrt & _ & Hl & _).
  pose proof (pad_shortcut_channels x) as Hpad.
  unfold ResidualBlock_forward. subst stack.
  destruct (Sequential_forward ConvolutionalBlock_forward (residual_block b) x)
    as [bs [out | e]]; simpl; rewrite ?Hres, ?Hcd, ?Hrt, ?Hl.
  - split; [| split; [| split]].
    + intros ->. reflexivity.
    + intros -> ->. rewrite Z.eqb_refl. reflexivity.
    + intros -> Hne ->. apply Z.eqb_neq in Hne. rewrite Hne. simpl.
      eexists. split; [reflexivity |]. split; [reflexivity |].
      destruct (LayerInst_forward (new (Conv (class_nd dims) i o 1 dil false)) x).
      reflexivity.
    + intros -> Hne ->. apply Z.eqb_neq in Hne. rewrite Hne. simpl.
      split; [reflexivity | exact Hpad].
  - split; [| split; [| split]].
    + reflexivity.
    + reflexivity.
    + intros -> Hne ->. apply Z.eqb_neq in Hne. rewrite Hne. simpl.
      eexists. split; [reflexivity |]. split; reflexivity.
    + intros _ _ _. split; [reflexivity | exact Hpad].
Qed.

Lemma broadcast_dim_refl (a : Z) : broadcast_dim a a = Some a.
Proof. unfold broadcast_dim. rewrite Z.eqb_refl. reflexivity. Qed.

Lemma broadcast_dims_refl (s : list Z) : broadcast_dims s s = Some s.
Proof.
  induction s as [| a s IH]; simpl; [reflexivity |].
  rewrite broadcast_dim_refl, IH. reflexivity.
Qed.


(** ** The receptive field *)

Lemma wrap64_mod (z : Z) : wrap64 z mod 2 ^ 64 = z mod 2 ^ 64.
Proof.
  unfold wrap64.
  rewrite Zminus_mod, Z.mod_mod by lia.
  rewrite <- Zminus_mod. f_equal. lia.
Qed.

Lemma wrap64_congr (a b : Z) : a mod 2 ^ 64 = b mod 2 ^ 64 -> wrap64 a = wrap64 b.
Proof.
  intros H. unfold wrap64. f_equal.
  rewrite (Zplus_mod a), (Zplus_mod b), H. reflexivity.
Qed.

Lemma wrap64_id (z : Z) : in_int64 z -> wrap64 z = z.
Proof.
  unfold in_int64, wrap64. intros H. rewrite Z.mod_small; lia.
Qed.

Lemma wrap64_add_l (a b : Z) : wrap64 (wrap64 a + b) = wrap64 (a + b).
Proof.
  apply wrap64_congr.
  rewrite Zplus_mod, wrap64_mod, <- Zplus_mod. reflexivity.
Qed.

Lemma wrap64_add_r (a b : Z) : wrap64 (a + wrap64 b) = wrap64 (a + b).
Proof.
  apply wrap64_congr.
  rewrite Zplus_mod, wrap64_mod, <- Zplus_mod. reflexivity.
Qed.

Lemma wrap64_mul_r (a b : Z) : wrap64 (a * wrap64 b) = wrap64 (a * b).
Proof.
  apply wrap64_congr.
  rewrite Zmult_mod, wrap64_mod, <- Zmult_mod. reflexivity.
Qed.

Lemma wrap64_mul_l (a b : Z) : wrap64 (wrap64 a * b) = wrap64 (a * b).
Proof.
  apply wrap64_congr.
  rewrite Zmult_mod, wrap64_mod, <- Zmult_mod. reflexivity.
Qed.

Lemma fold_wrap_add {A : Type} (f : A -> Z) (l : list A) (acc : Z) :
  wrap64 (fold_left (fun a p => wrap64 (a + f p)) l acc)
  = wrap64 (acc + sumZ (map f l)).
Proof.
  revert acc. induction l as [| p l IH]; intros acc; simpl.
  - f_equal. lia.
  - rewrite IH, wrap64_add_l. f_equal. lia.
Qed.

Lemma wrap64_idem (z : Z) : wrap64 (wrap64 z) = wrap64 z.
Proof. apply wrap64_congr, wrap64_mod. Qed.

Lemma torch_sum_wrap (l : list Z) : wrap64 (torch_sum l) = wrap64 (sumZ l).
Proof.
  unfold torch_sum.
  rewrite (fold_wrap_add (fun d => d) l 0), map_id. reflexivity.
Qed.

Lemma sumZ_congr {A : Type} (f g : A -> Z) (l : list A) :
  (forall a, In a l -> f a mod 2 ^ 64 = g a mod 2 ^ 64) ->
  sumZ (map f l) mod 2 ^ 64 = sumZ (map g l) mod 2 ^ 64.
Proof.
  induction l as [| a l IH]; intros H; cbn [map sumZ fold_right]; [reflexivity |].
  fold (sumZ (map f l)). fold (sumZ (map g l)).
  rewrite Zplus_mod, (H a (or_introl eq_refl)), IH, <- Zplus_mod; auto.
  intros b Hb. apply H. right. exact Hb.
Qed.

Lemma In_range (n d : Z) : In d (range n) <-> 0 <= d < n.
Proof.
  unfold range. rewrite in_map_iff. split.
  - intros (k & <- & Hk). apply in_seq in Hk. lia.
  - intros H. exists (Z.to_nat d). split; [lia |]. apply in_seq. lia.
Qed.

Lemma to_int64_ok (z : Z) : in_int64 z -> to_int64 z = Ok z.
Proof.
  unfold in_int64, to_int64. intros H.
  replace ((- 2 ^ 63 <=? z) && (z <? 2 ^ 63)) with true; [reflexivity |].
  symmetry. apply andb_true_iff. split; [apply Z.leb_le | apply Z.ltb_lt]; lia.
Qed.

Lemma torch_arange_ok (D : Z) : 0 <= D < 2 ^ 63 -> torch_arange D = Ok (range D).
Proof.
  intros H. unfold torch_arange.
  rewrite to_int64_ok by (unfold in_int64; lia).
  unfold bind. replace (D <? 0) with false; [reflexivity |].
  symmetry. apply Z.ltb_ge. lia.
Qed.

(** The value of the property, up to the wrap-around of 64-bit tensors, is
    the closed form. *)
Lemma receptive_field_value (net : HighResNet) :
  0 <= dilations net < 2 ^ 63 ->
  in_int64 (layers_per_residual_block net * residual_blocks_per_dilation net) ->
  receptive_field net
  = Ok (wrap64 (receptive_field_formula (layers_per_residual_block net)
                  (residual_blocks_per_dilation net) (dilations net))).
Proof.
  intros HD HBN. unfold receptive_field.
  rewrite torch_arange_ok by exact HD.
  rewrite to_int64_ok by exact HBN.
  unfold bind. f_equal.
  set (B := layers_per_residual_block net) in *.
  set (N := residual_blocks_per_dilation net) in *.
  set (D := dilations net) in *.
  rewrite wrap64_add_l. unfold receptive_field_formula.
  set (terms := map (fun di => wrap64 (B * N * wrap64 (2 ^ wrap64 (di + 1)))) (range D)).
  replace (3 - 1 + torch_sum terms + 1) with (3 + torch_sum terms) by lia.
  rewrite <- wrap64_add_r, torch_sum_wrap, wrap64_add_r.
  assert (sumZ terms mod 2 ^ 64
          = sumZ (map (fun d => B * N * 2 ^ (d + 1)) (range D)) mod 2 ^ 64) as Hs.
  { apply sumZ_congr. intros d Hd. apply In_range in Hd.
    rewrite wrap64_mod. rewrite (wrap64_id (d + 1)) by (unfold in_int64; lia).
    rewrite <- wrap64_mod, wrap64_mul_r, wrap64_mod. reflexivity. }
  apply wrap64_congr. rewrite Zplus_mod, Hs, <- Zplus_mod. reflexivity.
Qed.

(** ** The layers of a convolutional block *)

Lemma ConvolutionalBlock_init_layers
    (i o dil : Z) (dims : option Z) (bn inn : bool) (pm : string)
    (pre : bool) (k : Z) (act : bool) (b : ConvolutionalBlock) :
  ConvolutionalBlock_init i o dil dims bn inn pm pre k act = Ok b ->
  ConvolutionalBlock_layers b = assembled_layers i o dil dims bn inn pm pre k act.
Proof.
  unfold ConvolutionalBlock_init, Pad3d_init, construct, assembled_layers,
    padding_layer, dict_index, dict_mem, norm_layers, relu_layers,
    ConvolutionalBlock_layers.
  destruct (dict_get PADDING_MODES pm) as [prefix |]; simpl; [| discriminate].
  destruct bn, inn; simpl; try discriminate;
    destruct (py_eq dims 2); simpl;
    try destruct (py_eq dims 3); simpl;
    destruct pre, (k >? 1), act; simpl;
    case_constructs;
    intros H; try discriminate; injection H as <-; reflexivity.
Qed.

Lemma assembled_layers_convs
    (i o dil : Z) (dims : option Z) (bn inn : bool) (pm : string)
    (pre : bool) (k : Z) (act : bool) :
  flat_map Layer_conv (assembled_layers i o dil dims bn inn pm pre k act)
  = [(k, dil)].
Proof.
  unfold assembled_layers, norm_layers, relu_layers, padding_layer.
  destruct pre, (bn || inn), act, (k >? 1), (py_eq dims 2); reflexivity.
Qed.

Lemma assembled_layers_growth
    (i o dil : Z) (dims : option Z) (bn inn : bool) (pm : string)
    (pre : bool) (k : Z) (act : bool) :
  sumZ (map Layer_growth (assembled_layers i o dil dims bn inn pm pre k act))
  = (k - 1) * dil.
Proof.
  unfold assembled_layers, norm_layers, relu_layers, padding_layer.
  destruct pre, (bn || inn), act, (k >? 1), (py_eq dims 2);
    cbn [app map sumZ fold_right Layer_growth]; lia.
Qed.

Lemma ConvolutionalBlock_init_convs
    (i o dil : Z) (dims : option Z) (bn inn : bool) (pm : string)
    (pre : bool) (k : Z) (act : bool) (b : ConvolutionalBlock) :
  ConvolutionalBlock_init i o dil dims bn inn pm pre k act = Ok b ->
  ConvolutionalBlock_convs b = [(k, dil)] /\
  ConvolutionalBlock_growth b = (k - 1) * dil.
Proof.
  intros H. apply ConvolutionalBlock_init_layers in H.
  unfold ConvolutionalBlock_convs, ConvolutionalBlock_growth. rewrite H.
  split; [apply assembled_layers_convs | apply assembled_layers_growth].
Qed.

(** ** The topology of the network *)

Lemma sumZ_app (l1 l2 : list Z) : sumZ (l1 ++ l2) = sumZ l1 + sumZ l2.
Proof.
  induction l1 as [| a l1 IH]; cbn [app sumZ fold_right].
  - unfold sumZ. simpl. lia.
  - fold (sumZ (l1 ++ l2)). fold (sumZ l1). lia.
Qed.

Lemma sumZ_cons (a : Z) (l : list Z) : sumZ (a :: l) = a + sumZ l.
Proof. reflexivity. Qed.

Lemma sumZ_repeat (a : Z) (n : nat) : sumZ (repeat a n) = Z.of_nat n * a.
Proof.
  induction n as [| n IH]; [reflexivity |].
  cbn [repeat]. rewrite sumZ_cons, IH. lia.
Qed.

Lemma conv_blocks_loop_topology (n : nat) (i o dil : Z) (dims : option Z)
    (bn inn : bool) (pm : string) (l : list ConvolutionalBlock) :
  conv_blocks_loop n i o dil dims bn inn pm = Ok l ->
  map ConvolutionalBlock_convs l = repeat [(3, dil)] n /\
  map ConvolutionalBlock_growth l = repeat (2 * dil) n.
Proof.
  revert i l. induction n as [| n IH]; intros i l H; simpl in H.
  - injection H as <-. split; reflexivity.
  - inv_bind H. inv_bind H. injection H as <-.
    apply ConvolutionalBlock_init_convs in Ha. destruct Ha as [Hc Hg].
    apply IH in Ha0. destruct Ha0 as [Hc' Hg'].
    cbn [map repeat]. rewrite Hc, Hg, Hc', Hg'.
    split; [reflexivity | f_equal; lia].
Qed.

(** A residual block of the network: no projection layer, and its
    convolutions. *)
Lemma ResidualBlock_init_topology (i o n dil : Z) (dims : option Z)
    (bn inn res : bool) (pm : string) (b : ResidualBlock) :
  ResidualBlock_init i o n dil dims bn inn res "pad" pm = Ok b ->
  0 <= dil ->
  map ConvolutionalBlock_convs (residual_block b) = repeat [(3, dil)] (Z.to_nat n) /\
  ResidualBlock_growth b = Z.of_nat (Z.to_nat n) * (2 * dil).
Proof.
  intros H Hdil.
  destruct (ResidualBlock_init_inv _ _ _ _ _ _ _ _ _ _ _ H)
    as (_ & _ & _ & _ & _ & Hl & Hloop).
  apply conv_blocks_loop_topology in Hloop. destruct Hloop as [Hc Hg].
  split; [exact Hc |].
  unfold ResidualBlock_growth. rewrite Hg, sumZ_repeat, Hl.
  rewrite andb_false_r.
  destruct (residual b); [| reflexivity].
  apply Z.max_l. nia.
Qed.

Lemma residual_blocks_loop_topology (n : nat) (i o dil : Z) (dims : option Z)
    (lpb : Z) (bn inn res : bool) (pm : string) (l : list ResidualBlock) :
  residual_blocks_loop n i o dil dims lpb bn inn res pm = Ok l ->
  0 <= dil ->
  map (fun b => map ConvolutionalBlock_convs (residual_block b)) l
  = repeat (repeat [(3, dil)] (Z.to_nat lpb)) n /\
  map ResidualBlock_growth l = repeat (Z.of_nat (Z.to_nat lpb) * (2 * dil)) n.
Proof.
  intros H Hdil. revert i l H.
  induction n as [| n IH]; intros i l H; simpl in H.
  - injection H as <-. split; reflexivity.
  - inv_bind H. inv_bind H. injection H as <-.
    apply ResidualBlock_init_topology in Ha; [| exact Hdil].
    destruct Ha as [Hc Hg].
    apply IH in Ha0. destruct Ha0 as [Hc' Hg'].
    cbn [map repeat]. rewrite Hc, Hg, Hc', Hg'. split; reflexivity.
Qed.

Lemma dilation_loop_topology (kw : HighResNet_kwargs) (idxs : list Z) :
  forall i o prev r,
  dilation_loop idxs i o prev kw = Ok r ->
  map DilationBlock_topology (fst r)
  = map (dilation_block_convs (kw_layers_per_residual_block kw)
           (kw_residual_blocks_per_dilation kw)) idxs /\
  map DilationBlock_growth (fst r)
  = map (fun d => Z.of_nat (Z.to_nat (kw_residual_blocks_per_dilation kw))
                  * (Z.of_nat (Z.to_nat (kw_layers_per_residual_block kw))
                     * (2 * 2 ^ d))) idxs.
Proof.
  induction idxs as [| k rest IH]; intros i o prev r H; simpl in H.
  - injection H as <-. split; reflexivity.
  - inv_bind H. inv_bind H. inv_bind H. injection H as <-.
    apply IH in Ha1. destruct Ha1 as [Hc' Hg'].
    unfold DilationBlock_init in Ha0. inv_bind Ha0. injection Ha0 as <-.
    apply residual_blocks_loop_topology in Ha1; [| apply Z.pow_nonneg; lia].
    destruct Ha1 as [Hc Hg].
    cbn [fst map]. rewrite Hc', Hg'.
    unfold DilationBlock_topology at 1, DilationBlock_growth at 1.
    cbn [dilation_block]. rewrite Hc, Hg, sumZ_repeat.
    split; reflexivity.
Qed.

Lemma map_Block_growth_BDilation (l : list DilationBlock) :
  map Block_growth (map BDilation l) = map DilationBlock_growth l.
Proof. rewrite map_map. reflexivity. Qed.

Lemma receptive_field_formula_lower (B N D : Z) :
  0 <= B -> 0 <= N -> 3 <= receptive_field_formula B N D.
Proof.
  intros HB HN. unfold receptive_field_formula.
  assert (forall l, 0 <= sumZ (map (fun d => B * N * 2 ^ (d + 1)) l)) as H.
  { induction l as [| a l IH]; cbn [map sumZ fold_right]; [lia |].
    fold (sumZ (map (fun d => B * N * 2 ^ (d + 1)) l)).
    assert (0 <= 2 ^ (a + 1)) by (apply Z.pow_nonneg; lia). nia. }
  specialize (H (range D)). lia.
Qed.

(** C1, as amended: for a constructed network whose counts [B], [N], [D]
    are not negative (and fit a 64-bit integer tensor), the property
    [receptive_field] returns [3 + sum_{d < D} B * N * 2^(d+1)], and this
    is the receptive field of the blocks as built: a first block with one
    convolution of kernel 3 and dilation 1, for each [d < D] a dilation
    block of [N] residual blocks of [B] convolutions of kernel 3 and
    dilation [2^d], then blocks of kernel 1 (the optional dropout block and
    the classifier) that add nothing. *)
Theorem C1_receptive_field_matches_topology
    (kw : HighResNet_kwargs) (net : HighResNet) :
  HighResNet_init kw = Ok net ->
  0 <= kw_layers_per_residual_block kw ->
  0 <= kw_residual_blocks_per_dilation kw ->
  0 <= kw_dilations kw ->
  fits_int64 (kw_layers_per_residual_block kw)
    (kw_residual_blocks_per_dilation kw) (kw_dilations kw) ->
  receptive_field net
  = Ok (receptive_field_formula (kw_layers_per_residual_block kw)
          (kw_residual_blocks_per_dilation kw) (kw_dilations kw)) /\
  topology_receptive_field net
  = receptive_field_formula (kw_layers_per_residual_block kw)
      (kw_residual_blocks_per_dilation kw) (kw_dilations kw) /\
  exists first dilation_blocks last classifier,
    block net = [BConvolutional first] ++ map BDilation dilation_blocks
                ++ last ++ [BConvolutional classifier] /\
    ConvolutionalBlock_convs first = [(3, 1)] /\
    map DilationBlock_topology dilation_blocks
    = map (dilation_block_convs (kw_layers_per_residual_block kw)
             (kw_residual_blocks_per_dilation kw)) (range (kw_dilations kw)) /\
    sumZ (map Block_growth last) = 0 /\
    ConvolutionalBlock_convs classifier = [(1, 1)].
Proof.
  intros H HB HN HD (HD' & HBN & Hfit).
  destruct (HighResNet_init_inv kw net H)
    as (_ & _ & first & r & d & classifier & Hfirst & Hloop & Hdrop & Hcl & ->).
  set (B := kw_layers_per_residual_block kw) in *.
  set (N := kw_residual_blocks_per_dilation kw) in *.
  set (D := kw_dilations kw) in *.
  pose proof (receptive_field_formula_lower B N D HB HN) as Hlow.
  apply ConvolutionalBlock_init_convs in Hfirst. destruct Hfirst as [Hfc Hfg].
  apply ConvolutionalBlock_init_convs in Hcl. destruct Hcl as [Hcc Hcg].
  apply dilation_loop_topology in Hloop. destruct Hloop as [Hdc Hdg].
  fold B N D in Hdc, Hdg.
  assert (sumZ (map Block_growth (fst d)) = 0) as Hlast.
  { destruct (kw_add_dropout_layer kw).
    - destruct Hdrop as (dcb & Hdcb & ->).
      apply ConvolutionalBlock_init_convs in Hdcb. destruct Hdcb as [_ Hg].
      cbn [fst map Block_growth sumZ fold_right new layer Layer_growth].
      rewrite Hg. lia.
    - subst d. reflexivity. }
  split; [| split].
  - rewrite receptive_field_value; cbn [layers_per_residual_block
      residual_blocks_per_dilation dilations]; fold B N D.
    + f_equal. apply wrap64_id. unfold in_int64. lia.
    + lia.
    + unfold in_int64. nia.
  - unfold topology_receptive_field. cbn [block].
    rewrite !map_app, !sumZ_app, map_Block_growth_BDilation, Hdg, Hlast.
    cbn [map Block_growth sumZ fold_right]. rewrite Hfg, Hcg.
    unfold receptive_field_formula.
    assert (sumZ (map (fun d0 => Z.of_nat (Z.to_nat N)
                                 * (Z.of_nat (Z.to_nat B) * (2 * 2 ^ d0))) (range D))
            = sumZ (map (fun d0 => B * N * 2 ^ (d0 + 1)) (range D))) as ->.
    { f_equal. apply map_ext_in. intros a Ha. apply In_range in Ha.
      rewrite Z.pow_add_r by lia. rewrite !Z2Nat.id by lia. 
      change (2 ^ 1) with 2. ring. }
    fold (sumZ (map (fun d0 => B * N * 2 ^ (d0 + 1)) (range D))). lia.
  - exists first, (fst r), (fst d), classifier.
    repeat split; assumption.
Qed.

(** ** The number of parameters *)

Lemma wrap64_range (z : Z) : in_int64 (wrap64 z).
Proof.
  unfold in_int64, wrap64.
  pose proof (Z.mod_pos_bound (z + 2 ^ 63) (2 ^ 64) ltac:(lia)). lia.
Qed.

Lemma torch_prod_wrap (t : list Z) : wrap64 (torch_prod t) = wrap64 (numel t).
Proof.
  unfold torch_prod.
  assert (forall acc, wrap64 (fold_left (fun a d => wrap64 (a * d)) t acc)
                      = wrap64 (acc * numel t)) as H.
  { induction t as [| d t IH]; intros acc; cbn [fold_left numel fold_right].
    - f_equal. lia.
    - fold (numel t). rewrite IH, wrap64_mul_l. f_equal. lia. }
  rewrite H. f_equal. lia.
Qed.

Lemma num_parameters_wrapped (net : HighResNet) :
  wrap64 (num_parameters net) = num_parameters net.
Proof.
  unfold num_parameters.
  assert (forall l acc, in_int64 acc ->
            in_int64 (fold_left (fun a p => wrap64 (a + torch_prod p)) l acc)) as H.
  { induction l as [| p l IH]; intros acc Hacc; cbn [fold_left]; [exact Hacc |].
    apply IH, wrap64_range. }
  apply wrap64_id, H. unfold in_int64. lia.
Qed.

Lemma flat_map_map {A B C : Type} (f : B -> list C) (g : A -> B) (l : list A) :
  flat_map f (map g l) = flat_map (fun a => f (g a)) l.
Proof.
  induction l as [| a l IH]; cbn [map flat_map]; [reflexivity |].
  rewrite IH. reflexivity.
Qed.

Lemma flat_map_flat_map {A B C : Type} (f : B -> list C) (g : A -> list B)
    (l : list A) :
  flat_map f (flat_map g l) = flat_map (fun a => flat_map f (g a)) l.
Proof.
  induction l as [| a l IH]; cbn [flat_map]; [reflexivity |].
  rewrite flat_map_app, IH. reflexivity.
Qed.

(** The parameter tensors of the network are those of its layers. *)
Lemma parameters_layers (net : HighResNet) :
  parameters net = flat_map Layer_parameters (HighResNet_layers net).
Proof.
  unfold parameters, HighResNet_layers. rewrite flat_map_flat_map.
  apply flat_map_ext. intros [c | d | l]; cbn [Block_parameters Block_layers].
  - unfold ConvolutionalBlock_parameters, ConvolutionalBlock_layers.
    rewrite flat_map_map. reflexivity.
  - unfold DilationBlock_parameters, DilationBlock_layers.
    rewrite flat_map_flat_map. apply flat_map_ext. intros r.
    unfold ResidualBlock_parameters, ResidualBlock_layers.
    rewrite flat_map_app, flat_map_flat_map. f_equal.
    + destruct (change_dim_layer r); cbn [flat_map]; [rewrite app_nil_r |]; reflexivity.
    + apply flat_map_ext. intros c.
      unfold ConvolutionalBlock_parameters, ConvolutionalBlock_layers.
      rewrite flat_map_map. reflexivity.
  - cbn [flat_map]. rewrite app_nil_r. reflexivity.
Qed.

Lemma numel_repeat (k : Z) (n : nat) : numel (repeat k n) = k ^ Z.of_nat n.
Proof.
  induction n as [| n IH]; [reflexivity |].
  cbn [repeat numel fold_right]. fold (numel (repeat k n)).
  rewrite IH, Nat2Z.inj_succ, Z.pow_succ_r by lia. reflexivity.
Qed.

(** The tensors of a layer hold as many elements as the layer learns
    scalars. *)
Lemma Layer_parameters_numel (l : Layer) :
  sumZ (map numel (Layer_parameters l)) = Layer_num_scalars l.
Proof.
  destruct l as [[|] nd c | | name p | pad mode | nd i o k d bias |];
    cbn [Layer_parameters Layer_num_scalars map sumZ fold_right numel];
    try lia.
  fold (numel (repeat k (nd_rank nd))). rewrite numel_repeat.
  destruct bias; cbn [map app fold_right numel]; lia.
Qed.

Lemma parameters_numel (ls : list Layer) :
  sumZ (map numel (flat_map Layer_parameters ls))
  = sumZ (map Layer_num_scalars ls).
Proof.
  induction ls as [| l ls IH]; cbn [flat_map map]; [reflexivity |].
  rewrite map_app, sumZ_app, sumZ_cons, IH, Layer_parameters_numel.
  reflexivity.
Qed.

Lemma num_parameters_value (net : HighResNet) :
  num_parameters net = wrap64 (sumZ (map numel (parameters net))).
Proof.
  rewrite <- num_parameters_wrapped. unfold num_parameters.
  rewrite (fold_wrap_add torch_prod). apply wrap64_congr.
  change (0 + sumZ (map torch_prod (parameters net)))
    with (sumZ (map torch_prod (parameters net))).
  apply sumZ_congr. intros p _.
  rewrite <- wrap64_mod, torch_prod_wrap, wrap64_mod. reflexivity.
Qed.

(** C2: for a constructed network (its parameters are allocated, so their
    number fits a 64-bit integer), the property [num_parameters] is the sum
    over the parameter tensors of the product of their dimensions, and this
    is the number of scalars the layers of the built blocks learn: for a
    convolution [out * in * kernel^rank], plus [out] with a bias; for a
    batch normalisation twice its number of features. *)
Theorem C2_num_parameters_counts_scalars
    (kw : HighResNet_kwargs) (net : HighResNet) :
  HighResNet_init kw = Ok net ->
  in_int64 (scalar_count net) ->
  num_parameters net = sumZ (map numel (parameters net)) /\
  num_parameters net = scalar_count net.
Proof.
  intros _ Hfit.
  assert (sumZ (map numel (parameters net)) = scalar_count net) as Hc.
  { rewrite parameters_layers. apply parameters_numel. }
  rewrite num_parameters_value, Hc, wrap64_id by exact Hfit.
  split; reflexivity.
Qed.

(** ** Shapes through the layers *)

Lemma pad_from_last_length (pad rev_dims : list Z) :
  List.length (pad_from_last rev_dims pad) = List.length rev_dims.
Proof.
  revert pad. induction rev_dims as [| s rest IH]; intros pad.
  - destruct pad as [| l [| r pad]]; reflexivity.
  - destruct pad as [| l [| r pad]]; cbn [pad_from_last List.length]; auto.
Qed.

Lemma Layer_out_spatial_length (l : Layer) (s : list Z) :
  List.length (Layer_out_spatial l s) = List.length s.
Proof.
  destruct l; cbn [Layer_out_spatial]; try reflexivity;
    unfold F_pad_dims;
    rewrite ?length_rev, ?pad_from_last_length, ?length_rev, ?length_map;
    reflexivity.
Qed.

(** The padding layer of a block adds the dilation on both sides of every
    spatial dimension. *)
Lemma padding_layer_spatial (dims : option Z) (pm : string) (dil : Z) (s : list Z) :
  (dims = Some 2 /\ List.length s = 2%nat) \/ (dims = Some 3 /\ List.length s = 3%nat) ->
  Layer_out_spatial (padding_layer dims pm dil) s = map (fun v => v + dil + dil) s.
Proof.
  intros [[-> Hs] | [-> Hs]];
    destruct s as [| a [| b [| c [| e s]]]]; try discriminate; reflexivity.
Qed.

Lemma assembled_layers_rank_ok
    (i o dil : Z) (dims : option Z) (bn inn : bool) (pm : string)
    (pre : bool) (k : Z) (act : bool) (n : nat) :
  rank_of dims n ->
  Forall (fun l => Layer_rank_ok l n)
    (assembled_layers i o dil dims bn inn pm pre k act).
Proof.
  intros [[-> ->] | [-> ->]];
    unfold assembled_layers, norm_layers, relu_layers, padding_layer;
    destruct pre, (bn || inn), act, (k >? 1); cbn;
    repeat constructor.
Qed.

Lemma assembled_layers_spatial
    (i o dil : Z) (dims : option Z) (bn inn : bool) (pm : string)
    (pre : bool) (k : Z) (act : bool) (s : list Z) :
  rank_of dims (List.length s) -> k = 3 \/ k = 1 ->
  layers_out_spatial (assembled_layers i o dil dims bn inn pm pre k act) s = s.
Proof.
  intros Hr Hk.
  assert (map (fun v => v + dil + dil - dil * (3 - 1)) s = s) as H3.
  { rewrite <- (map_id s) at 2. apply map_ext. intros v. lia. }
  assert (map (fun v => v - dil * (1 - 1)) s = s) as H1.
  { rewrite <- (map_id s) at 2. apply map_ext. intros v. lia. }
  unfold assembled_layers, norm_layers, relu_layers, layers_out_spatial.
  destruct Hk as [-> | ->]; cbn [Z.gtb Z.compare Pos.compare Pos.compare_cont];
    destruct pre, (bn || inn), act;
    cbn [app fold_left Layer_out_spatial];
    rewrite ?padding_layer_spatial, ?map_map by exact Hr;
    rewrite ?H3, ?H1; reflexivity.
Qed.

Section ShapePreservation.

(** What the framework documents about the layers and the activations:
    called on a tensor of the rank they are made for, they return a tensor
    of the same batch size whose spatial dimensions are given by
    [Layer_out_spatial]. *)
Hypothesis layer_forward_shape :
  forall l b x b' y,
    layer_forward l b x = (b', Ok y) ->
    Layer_rank_ok l (List.length (spatial_dims x)) ->
    batch_size y = batch_size x /\
    spatial_dims y = Layer_out_spatial l (spatial_dims x).
Hypothesis sigmoid_shape : forall x y, sigmoid x = Ok y -> same_space x y.
Hypothesis softmax_shape : forall x y, softmax x = Ok y -> same_space x y.

Lemma Sequential_layers_spatial (ls : list LayerInst) :
  forall x ls' y,
  Sequential_forward LayerInst_forward ls x = (ls', Ok y) ->
  Forall (fun l => Layer_rank_ok l (List.length (spatial_dims x))) (map layer ls) ->
  batch_size y = batch_size x /\
  spatial_dims y = layers_out_spatial (map layer ls) (spatial_dims x).
Proof.
  induction ls as [| l ls IH]; intros x ls' y H Hr; cbn [Sequential_forward] in H.
  - injection H as _ <-. split; reflexivity.
  - unfold LayerInst_forward in H at 1.
    destruct (layer_forward (layer l) (buf l) x) as [b' [z | e]] eqn:Hl;
      [| discriminate].
    destruct (Sequential_forward LayerInst_forward ls z) as [rest' r'] eqn:Hs.
    injection H as _ ->.
    cbn [map] in Hr. inversion Hr as [| ? ? Hr1 Hr2]; subst.
    destruct (layer_forward_shape _ _ _ _ _ Hl Hr1) as [Hb Hsp].
    destruct (IH z rest' y Hs) as [Hb' Hsp'].
    { rewrite Hsp, Layer_out_spatial_length. exact Hr2. }
    split; [congruence |].
    cbn [map layers_out_spatial fold_left]. rewrite Hsp', Hsp. reflexivity.
Qed.

Lemma ConvolutionalBlock_forward_same_space (n : nat) (b b' : ConvolutionalBlock)
    (x y : Tensor) :
  keeps_space n b -> List.length (spatial_dims x) = n ->
  ConvolutionalBlock_forward b x = (b', Ok y) -> same_space x y.
Proof.
  intros (i & o & dil & dims & bn & inn & pm & pre & k & act & Hl & Hr & Hk) Hn H.
  unfold ConvolutionalBlock_forward in H.
  destruct (Sequential_forward LayerInst_forward (convolutional_block b) x)
    as [ls r] eqn:Hs.
  injection H as _ ->.
  unfold ConvolutionalBlock_layers in Hl.
  destruct (Sequential_layers_spatial _ _ _ _ Hs) as [Hb Hsp].
  { rewrite Hl, Hn. apply assembled_layers_rank_ok. exact Hr. }
  split; [exact Hb |].
  rewrite Hsp, Hl. apply assembled_layers_spatial; [rewrite Hn; exact Hr | exact Hk].
Qed.

Lemma Sequential_forward_same_space {M : Type}
    (fwd : M -> Tensor -> M * result Tensor) (P : M -> Prop) (n : nat) :
  (forall m m' x y, P m -> List.length (spatial_dims x) = n ->
     fwd m x = (m', Ok y) -> same_space x y) ->
  forall ms ms' x y, Forall P ms -> List.length (spatial_dims x) = n ->
    Sequential_forward fwd ms x = (ms', Ok y) -> same_space x y.
Proof.
  intros Hf ms. induction ms as [| m ms IH]; intros ms' x y HP Hn H;
    cbn [Sequential_forward] in H.
  - injection H as _ <-. split; reflexivity.
  - inversion HP as [| ? ? HP1 HP2]; subst.
    destruct (fwd m x) as [m' [z | e]] eqn:Hm; [| discriminate].
    destruct (Sequential_forward fwd ms z) as [rest' r'] eqn:Hs.
    injection H as _ ->.
    destruct (Hf m m' x z HP1 eq_refl Hm) as [Hb Hsp].
    destruct (IH rest' z y HP2) as [Hb' Hsp']; [congruence | exact Hs |].
    split; congruence.
Qed.

Lemma tensor_add_same_space (x x' out y : Tensor) :
  same_space x x' -> same_space x out -> tensor_add x' out = Ok y ->
  same_space x y.
Proof.
  intros [Hb Hs] [Hb' Hs'] H. unfold tensor_add in H.
  rewrite Hb, Hb', Hs, Hs', broadcast_dim_refl, broadcast_dims_refl in H.
  destruct (broadcast_channels (channels x') (channels out)); [| discriminate].
  injection H as <-. split; reflexivity.
Qed.

Lemma ResidualBlock_forward_same_space (n : nat) (b b' : ResidualBlock)
    (x y : Tensor) :
  residual_keeps_space n b -> List.length (spatial_dims x) = n ->
  ResidualBlock_forward b x = (b', Ok y) -> same_space x y.
Proof.
  intros [Hstack Hproj] Hn H. unfold ResidualBlock_forward in H.
  destruct (Sequential_forward ConvolutionalBlock_forward (residual_block b) x)
    as [bs [out | e]] eqn:Hs; [| discriminate].
  assert (same_space x out) as Hout.
  { apply (Sequential_forward_same_space ConvolutionalBlock_forward
             (keeps_space n) n (ConvolutionalBlock_forward_same_space n)
             _ _ _ _ Hstack Hn Hs). }
  assert (same_space x x) as Hxx by (split; reflexivity).
  destruct (residual b).
  2: { injection H as _ <-. exact Hout. }
  destruct (change_dimension b).
  2: { injection H as _ H. apply (tensor_add_same_space x x out y Hxx Hout H). }
  destruct (String.eqb (residual_type b) "project").
  - destruct (change_dim_layer b) as [l |] eqn:Hl; [| discriminate].
    destruct (Hproj l eq_refl) as (nd & i & o & dil & bias & Hlayer & Hrank).
    unfold LayerInst_forward in H.
    destruct (layer_forward (layer l) (buf l) x) as [bf [x' | e]] eqn:Hf;
      injection H as _ H; [| discriminate].
    cbn [bind] in H.
    destruct (layer_forward_shape _ _ _ _ _ Hf) as [Hb Hsp].
    { rewrite Hlayer, Hn. exact Hrank. }
    apply (tensor_add_same_space x x' out y); [| exact Hout | exact H].
    split; [exact Hb |]. rewrite Hsp, Hlayer. cbn [Layer_out_spatial].
    rewrite <- (map_id (spatial_dims x)) at 2. apply map_ext. intros v. lia.
  - destruct (String.eqb (residual_type b) "pad").
    + injection H as _ H.
      destruct (pad_shortcut x out) as [x' | e] eqn:Hp; [| discriminate].
      cbn [bind] in H.
      destruct (pad_shortcut_Ok x out x' Hp) as (_ & Hb & Hsp & _).
      apply (tensor_add_same_space x x' out y); [split; assumption | exact Hout | exact H].
    + injection H as _ H. apply (tensor_add_same_space x x out y Hxx Hout H).
Qed.

Lemma Block_forward_same_space (n : nat) (b b' : Block) (x y : Tensor) :
  block_keeps_space n b -> List.length (spatial_dims x) = n ->
  Block_forward b x = (b', Ok y) -> same_space x y.
Proof.
  destruct b as [c | d | l]; cbn [block_keeps_space Block_forward]; intros Hk Hn H.
  - destruct (ConvolutionalBlock_forward c x) as [c' r] eqn:Hc.
    injection H as _ ->.
    apply (ConvolutionalBlock_forward_same_space n c c' x y Hk Hn Hc).
  - unfold DilationBlock_forward in H.
    destruct (Sequential_forward ResidualBlock_forward (dilation_block d) x)
      as [bs r] eqn:Hs.
    injection H as _ ->.
    apply (Sequential_forward_same_space ResidualBlock_forward
             (residual_keeps_space n) n (ResidualBlock_forward_same_space n)
             _ _ _ _ Hk Hn Hs).
  - unfold LayerInst_forward in H.
    destruct (layer_forward (layer l) (buf l) x) as [bf r] eqn:Hf.
    injection H as _ ->.
    destruct (layer_forward_shape _ _ _ _ _ Hf) as [Hb Hsp].
    { rewrite Hk. exact I. }
    rewrite Hk in Hsp. split; assumption.
Qed.

(** The constructors build blocks that keep the space. *)
Lemma ConvolutionalBlock_init_keeps_space
    (i o dil : Z) (dims : option Z) (bn inn : bool) (pm : string)
    (pre : bool) (k : Z) (act : bool) (b : ConvolutionalBlock) (n : nat) :
  ConvolutionalBlock_init i o dil dims bn inn pm pre k act = Ok b ->
  rank_of dims n -> k = 3 \/ k = 1 -> keeps_space n b.
Proof.
  intros H Hr Hk. apply ConvolutionalBlock_init_layers in H.
  exists i, o, dil, dims, bn, inn, pm, pre, k, act. auto.
Qed.

Lemma conv_blocks_loop_keeps_space (n : nat) (m : nat) (i o dil : Z)
    (dims : option Z) (bn inn : bool) (pm : string) (l : list ConvolutionalBlock) :
  conv_blocks_loop m i o dil dims bn inn pm = Ok l ->
  rank_of dims n -> Forall (keeps_space n) l.
Proof.
  intros H Hr. revert i l H. induction m as [| m IH]; intros i l H; simpl in H.
  - injection H as <-. constructor.
  - inv_bind H. inv_bind H. injection H as <-. constructor.
    + apply (ConvolutionalBlock_init_keeps_space _ _ _ _ _ _ _ _ _ _ _ _ Ha Hr).
      left; reflexivity.
    + apply (IH _ _ Ha0).
Qed.

Lemma rank_of_class_nd (dims : option Z) (n : nat) :
  rank_of dims n -> n = nd_rank (class_nd dims).
Proof. intros [[-> ->] | [-> ->]]; reflexivity. Qed.

Lemma ResidualBlock_init_keeps_space (n : nat) (i o m dil : Z) (dims : option Z)
    (bn inn res : bool) (rt pm : string) (b : ResidualBlock) :
  ResidualBlock_init i o m dil dims bn inn res rt pm = Ok b ->
  rank_of dims n -> residual_keeps_space n b.
Proof.
  intros H Hr.
  destruct (ResidualBlock_init_inv _ _ _ _ _ _ _ _ _ _ _ H)
    as (_ & _ & _ & _ & _ & Hl & Hloop).
  split.
  - apply (conv_blocks_loop_keeps_space n _ _ _ _ _ _ _ _ _ Hloop Hr).
  - intros l Hsome. rewrite Hl in Hsome.
    destruct (negb (i =? o) && String.eqb rt "project"); [| discriminate].
    injection Hsome as <-.
    exists (class_nd dims), i, o, dil, false.
    split; [reflexivity | apply rank_of_class_nd; exact Hr].
Qed.

Lemma residual_blocks_loop_keeps_space (n : nat) (m : nat) (i o dil : Z)
    (dims : option Z) (lpb : Z) (bn inn res : bool) (pm : string)
    (l : list ResidualBlock) :
  residual_blocks_loop m i o dil dims lpb bn inn res pm = Ok l ->
  rank_of dims n -> Forall (residual_keeps_space n) l.
Proof.
  intros H Hr. revert i l H. induction m as [| m IH]; intros i l H; simpl in H.
  - injection H as <-. constructor.
  - inv_bind H. inv_bind H. injection H as <-. constructor.
    + apply (ResidualBlock_init_keeps_space n _ _ _ _ _ _ _ _ _ _ _ Ha Hr).
    + apply (IH _ _ Ha0).
Qed.

Lemma dilation_loop_keeps_space (n : nat) (kw : HighResNet_kwargs) (idxs : list Z) :
  rank_of (kw_dimensions kw) n ->
  forall i o prev r,
  dilation_loop idxs i o prev kw = Ok r ->
  Forall (block_keeps_space n) (map BDilation (fst r)).
Proof.
  intros Hr. induction idxs as [| k rest IH]; intros i o prev r H; simpl in H.
  - injection H as <-. constructor.
  - inv_bind H. inv_bind H. inv_bind H. injection H as <-.
    cbn [fst map]. constructor; [| apply (IH _ _ _ _ Ha1)].
    unfold DilationBlock_init in Ha0. inv_bind Ha0. injection Ha0 as <-.
    cbn [block_keeps_space dilation_block].
    apply (residual_blocks_loop_keeps_space n _ _ _ _ _ _ _ _ _ _ _ Ha2 Hr).
Qed.

Lemma HighResNet_init_keeps_space (n : nat) (kw : HighResNet_kwargs)
    (net : HighResNet) :
  HighResNet_init kw = Ok net -> rank_of (kw_dimensions kw) n ->
  Forall (block_keeps_space n) (block net).
Proof.
  intros H Hr.
  destruct (HighResNet_init_inv kw net H)
    as (_ & _ & first & r & d & classifier & Hfirst & Hloop & Hdrop & Hcl & ->).
  cbn [block]. repeat rewrite Forall_app. repeat split.
  - constructor; [| constructor].
    apply (ConvolutionalBlock_init_keeps_space _ _ _ _ _ _ _ _ _ _ _ _ Hfirst Hr).
    left; reflexivity.
  - apply (dilation_loop_keeps_space n kw _ Hr _ _ _ _ Hloop).
  - destruct (kw_add_dropout_layer kw).
    + destruct Hdrop as (dcb & Hdcb & ->). cbn [fst].
      constructor; [| constructor; [reflexivity | constructor]].
      apply (ConvolutionalBlock_init_keeps_space _ _ _ _ _ _ _ _ _ _ _ _ Hdcb Hr).
      right; reflexivity.
    + subst d. constructor.
  - constructor; [| constructor].
    apply (ConvolutionalBlock_init_keeps_space _ _ _ _ _ _ _ _ _ _ _ _ Hcl Hr).
    right; reflexivity.
Qed.

(** C8: a convolutional block of kernel 3 has, right before its
    convolution, a padding layer that adds the dilation on both sides of
    every spatial dimension, and its output has the batch size and spatial
    dimensions of its input; so has the output of every block of a
    constructed network, and the output of the network itself. *)
Theorem C8_spatial_dimensions_preserved (n : nat) :
  (forall i o dil dims bn inn pm pre act b,
     rank_of dims n ->
     ConvolutionalBlock_init i o dil dims bn inn pm pre 3 act = Ok b ->
     (exists before after,
        ConvolutionalBlock_layers b
        = before ++ [padding_layer dims pm dil;
                     Conv (class_nd dims) i o 3 dil (negb (inn || bn))] ++ after) /\
     (forall s, List.length s = n ->
        Layer_out_spatial (padding_layer dims pm dil) s
        = map (fun v => v + dil + dil) s) /\
     (forall x b' y, List.length (spatial_dims x) = n ->
        ConvolutionalBlock_forward b x = (b', Ok y) -> same_space x y)) /\
  (forall kw net,
     HighResNet_init kw = Ok net -> rank_of (kw_dimensions kw) n ->
     (forall blk, In blk (block net) ->
        forall x blk' y, List.length (spatial_dims x) = n ->
          Block_forward blk x = (blk', Ok y) -> same_space x y) /\
     (forall x net' y, List.length (spatial_dims x) = n ->
        HighResNet_forward net x = (net', Ok y) -> same_space x y)).
Proof.
  split.
  - intros i o dil dims bn inn pm pre act b Hr H. split; [| split].
    + apply ConvolutionalBlock_init_layers in H. rewrite H.
      unfold assembled_layers. cbn [Z.gtb Z.compare Pos.compare Pos.compare_cont].
      eexists. eexists. cbn [app]. reflexivity.
    + intros s Hs. apply padding_layer_spatial.
      destruct Hr as [[-> ->] | [-> ->]]; auto.
    + intros x b' y Hn Hf.
      apply (ConvolutionalBlock_forward_same_space n b b' x y); auto.
      apply (ConvolutionalBlock_init_keeps_space _ _ _ _ _ _ _ _ _ _ _ _ H Hr).
      left; reflexivity.
  - intros kw net H Hr.
    pose proof (HighResNet_init_keeps_space n kw net H Hr) as Hk.
    split.
    + intros blk Hin x blk' y Hn Hf.
      rewrite Forall_forall in Hk.
      apply (Block_forward_same_space n blk blk' x y (Hk blk Hin) Hn Hf).
    + intros x net' y Hn Hf. unfold HighResNet_forward in Hf.
      destruct (outputs_activation net) as [a |]; [| discriminate].
      destruct (Sequential_forward Block_forward (block net) x) as [bs [z | e]] eqn:Hs;
        injection Hf as _ Hf; [| discriminate].
      cbn [bind] in Hf.
      assert (same_space x z) as Hz.
      { apply (Sequential_forward_same_space Block_forward
                 (block_keeps_space n) n (Block_forward_same_space n)
                 _ _ _ _ Hk Hn Hs). }
      destruct Hz as [Hb Hsp].
      destruct a; cbn [Activation_forward] in Hf.
      * destruct (sigmoid_shape z y Hf). split; congruence.
      * destruct (softmax_shape z y Hf). split; congruence.
      * injection Hf as <-. split; assumption.
Qed.

End ShapePreservation.

End Properties.

(** * Further properties of the constructors and the derived numbers *)

Section Coverage.

Context {F : Framework}.

Ltac inv_bind H :=
  let a := fresh "a" in
  let Ha := fresh "Ha" in
  apply bind_Ok in H; destruct H as (a & Ha & H).

(** ** Outcome of the constructor *)

Lemma checks_pass_dec (bn inn : bool) (pm : string) :
  checks_pass bn inn pm \/ ~ checks_pass bn inn pm.
Proof.
  rewrite checks_pass_iff.
  destruct (dict_mem PADDING_MODES pm), (negb (bn && inn)); intuition congruence.
Qed.

Lemma valid_dimensions_dec (dims : option Z) :
  valid_dimensions dims \/ ~ valid_dimensions dims.
Proof.
  rewrite <- valid_dimensions_iff.
  destruct (py_eq dims 2 || py_eq dims 3); intuition congruence.
Qed.

Lemma ConvolutionalBlock_init_Ok_checks
    (i o dil : Z) (dims : option Z) (bn inn : bool) (pm : string)
    (pre : bool) (k : Z) (act : bool) (b : ConvolutionalBlock) :
  ConvolutionalBlock_init i o dil dims bn inn pm pre k act = Ok b ->
  checks_pass bn inn pm.
Proof.
  intros H. destruct (checks_pass_dec bn inn pm) as [Hc | Hc]; [exact Hc |].
  apply (ConvolutionalBlock_init_assertion i o dil dims bn inn pm pre k act) in Hc.
  congruence.
Qed.

(** A power that is negative makes the number of initial channels a float,
    which the first convolution refuses. *)
Lemma HighResNet_init_float (kw : HighResNet_kwargs) :
  valid_dimensions (kw_dimensions kw) ->
  checks_pass (kw_batch_norm kw) (kw_instance_norm kw) (kw_padding_mode kw) ->
  kw_initial_out_channels_power kw < 0 ->
  HighResNet_init kw = Raise FrameworkError.
Proof.
  intros Hd Hc Hp. unfold HighResNet_init.
  pose proof Hd as Hd'. apply valid_dimensions_iff in Hd'. rewrite Hd'.
  cbn [assert bind]. unfold py_pow2. apply Z.ltb_lt in Hp. rewrite Hp.
  destruct (ConvolutionalBlock_init_outcome (kw_input_channels kw) 0 1
              (kw_dimensions kw) (kw_batch_norm kw) (kw_instance_norm kw)
              (kw_padding_mode kw) false 3 true Hc Hd) as [[b ->] | ->];
    reflexivity.
Qed.

(** ** The layers of a convolutional block *)

(** X2: the layers of a constructed convolutional block, in order: with
    [preactivation], the normalisation of the input channels (if one is
    requested), the activation (if requested), the padding (for a kernel
    larger than 1) and the convolution last; without it, padding and
    convolution first, then normalisation of the output channels and
    activation.  The convolution has a bias exactly when the block has no
    normalisation, and the block has exactly one convolution. *)
Theorem X2_ConvolutionalBlock_layer_order
    (i o dil : Z) (dims : option Z) (bn inn : bool) (pm : string)
    (pre : bool) (k : Z) (act : bool) (b : ConvolutionalBlock) :
  ConvolutionalBlock_init i o dil dims bn inn pm pre k act = Ok b ->
  let norm c := if bn || inn
                then [Norm (if inn then InstanceNorm else BatchNorm) (class_nd dims) c]
                else [] in
  let relu := if act then [ReLU] else [] in
  let pad := if k >? 1 then [padding_layer dims pm dil] else [] in
  let conv := Conv (class_nd dims) i o k dil (negb (bn || inn)) in
  ConvolutionalBlock_layers b
  = (if pre then norm i ++ relu ++ pad ++ [conv]
     else pad ++ [conv] ++ norm o ++ relu) /\
  ConvolutionalBlock_io b = [(i, o)] /\
  ~ (bn = true /\ inn = true).
Proof.
  intros H norm relu pad conv.
  pose proof (ConvolutionalBlock_init_Ok_checks _ _ _ _ _ _ _ _ _ _ _ H) as [_ Hn].
  apply ConvolutionalBlock_init_layers in H.
  assert (ConvolutionalBlock_layers b
          = (if pre then norm i ++ relu ++ pad ++ [conv]
             else pad ++ [conv] ++ norm o ++ relu)) as Hl.
  { rewrite H. unfold assembled_layers, norm_layers, relu_layers.
    subst norm relu pad conv. rewrite (orb_comm inn bn).
    destruct pre; rewrite <- ?app_assoc, ?app_nil_r; reflexivity. }
  split; [exact Hl |]. split; [| exact Hn].
  unfold ConvolutionalBlock_io. rewrite Hl. subst norm relu pad conv.
  unfold padding_layer.
  destruct pre, (bn || inn), act, (k >? 1), (py_eq dims 2); reflexivity.
Qed.

(** X3: the number of scalars a constructed convolutional block learns:
    the kernel [out * in * kernel_size^rank], a bias of [out] scalars when
    there is no normalisation, and twice the normalised channels for a
    batch normalisation (the input channels with [preactivation], the
    output channels without); an instance normalisation learns nothing. *)
Theorem X3_ConvolutionalBlock_parameter_count
    (i o dil : Z) (dims : option Z) (bn inn : bool) (pm : string)
    (pre : bool) (k : Z) (act : bool) (b : ConvolutionalBlock) :
  ConvolutionalBlock_init i o dil dims bn inn pm pre k act = Ok b ->
  sumZ (map numel (ConvolutionalBlock_parameters b))
  = o * i * k ^ Z.of_nat (nd_rank (class_nd dims))
    + (if bn || inn then 0 else o)
    + (if bn then 2 * (if pre then i else o) else 0).
Proof.
  intros H.
  pose proof (ConvolutionalBlock_init_Ok_checks _ _ _ _ _ _ _ _ _ _ _ H) as [_ Hn].
  apply ConvolutionalBlock_init_layers in H.
  unfold ConvolutionalBlock_parameters.
  rewrite <- (flat_map_map Layer_parameters layer).
  fold (ConvolutionalBlock_layers b). rewrite parameters_numel, H.
  unfold assembled_layers, norm_layers, relu_layers, padding_layer.
  destruct bn, inn; try (exfalso; apply Hn; split; reflexivity);
    destruct pre, act, (k >? 1), (py_eq dims 2);
    cbn [orb negb app map sumZ fold_right Layer_num_scalars]; lia.
Qed.

(** ** Channels through the network *)

Lemma ConvolutionalBlock_init_io
    (i o dil : Z) (dims : option Z) (bn inn : bool) (pm : string)
    (pre : bool) (k : Z) (act : bool) (b : ConvolutionalBlock) :
  ConvolutionalBlock_init i o dil dims bn inn pm pre k act = Ok b ->
  ConvolutionalBlock_io b = [(i, o)].
Proof.
  intros H. apply ConvolutionalBlock_init_layers in H.
  unfold ConvolutionalBlock_io. rewrite H.
  unfold assembled_layers, norm_layers, relu_layers, padding_layer.
  destruct pre, (bn || inn), act, (k >? 1), (py_eq dims 2); reflexivity.
Qed.

Lemma links_app (a b c : Z) (l1 l2 : list (Z * Z)) :
  links a l1 b -> links b l2 c -> links a (l1 ++ l2) c.
Proof.
  revert a. induction l1 as [| [i o] l1 IH]; intros a H1 H2; cbn [links app] in *.
  - subst. exact H2.
  - destruct H1 as [-> H1]. split; [reflexivity | apply IH; assumption].
Qed.

Lemma links_repeat (o : Z) (n : nat) : links o (repeat (o, o) n) o.
Proof.
  induction n as [| n IH]; cbn [repeat links]; [reflexivity | split; auto].
Qed.

(** The end of a chain of [n] blocks from [i] to [o]: nothing is reached
    when there is no block. *)
Definition chain_end (n : nat) (i o : Z) : Z :=
  match n with O => i | S _ => o end.

Lemma conv_blocks_loop_io (n : nat) (i o dil : Z) (dims : option Z)
    (bn inn : bool) (pm : string) (l : list ConvolutionalBlock) :
  conv_blocks_loop n i o dil dims bn inn pm = Ok l ->
  links i (flat_map ConvolutionalBlock_io l) (chain_end n i o) /\
  List.length (flat_map ConvolutionalBlock_io l) = n.
Proof.
  revert i l. induction n as [| n IH]; intros i l H; simpl in H.
  - injection H as <-. split; reflexivity.
  - inv_bind H. inv_bind H. injection H as <-.
    apply ConvolutionalBlock_init_io in Ha.
    apply IH in Ha0. destruct Ha0 as [Hl Hn].
    cbn [flat_map]. rewrite Ha. cbn [app links List.length chain_end].
    split; [split; [reflexivity |] | congruence].
    destruct n; cbn [chain_end] in Hl; [| exact Hl].
    destruct (flat_map ConvolutionalBlock_io a0); [exact Hl | discriminate].
Qed.

Lemma residual_blocks_loop_io (m : nat) (i o dil : Z) (dims : option Z)
    (lpb : Z) (bn inn res : bool) (pm : string) (l : list ResidualBlock) :
  residual_blocks_loop m i o dil dims lpb bn inn res pm = Ok l ->
  List.length (flat_map ResidualBlock_io l) = (m * Z.to_nat lpb)%nat /\
  (1 <= lpb -> links i (flat_map ResidualBlock_io l) (chain_end m i o)).
Proof.
  revert i l. induction m as [| m IH]; intros i l H; simpl in H.
  - injection H as <-. split; reflexivity.
  - inv_bind H. inv_bind H. injection H as <-.
    destruct (ResidualBlock_init_inv _ _ _ _ _ _ _ _ _ _ _ Ha)
      as (_ & _ & _ & _ & _ & _ & Hloop).
    apply conv_blocks_loop_io in Hloop. destruct Hloop as [Hl Hn].
    apply IH in Ha0. destruct Ha0 as [Hn' Hl'].
    cbn [flat_map]. unfold ResidualBlock_io at 1 3.
    split.
    + rewrite length_app, Hn, Hn'. reflexivity.
    + intros HB. cbn [chain_end].
      apply (links_app i o o); [| ].
      * destruct (Z.to_nat lpb) eqn:E; [lia | exact Hl].
      * specialize (Hl' HB). destruct m; cbn [chain_end] in Hl'; [| exact Hl'].
        destruct (flat_map ResidualBlock_io a0); [exact Hl' | discriminate].
Qed.

(** The number of input channels of the next dilation block: the local
    [in_channels] for the first index, the output channels of the block
    before for the others. *)
Definition next_in (s : nat) (i : Z) (prev : option DilationBlock) : Z :=
  match s, prev with
  | S _, Some p => db_out_channels p
  | _, _ => i
  end.

Lemma dilation_loop_wiring (kw : HighResNet_kwargs) (n : nat) :
  forall s i o prev r,
  dilation_loop (map Z.of_nat (seq s n)) i o prev kw = Ok r ->
  map (fun b => (db_in_channels b, db_out_channels b)) (fst r)
  = wiring (next_in s i prev) o n /\
  snd r = o * 2 ^ Z.of_nat n /\
  List.length (flat_map DilationBlock_io (fst r))
  = (n * (Z.to_nat (kw_residual_blocks_per_dilation kw)
          * Z.to_nat (kw_layers_per_residual_block kw)))%nat /\
  (1 <= kw_layers_per_residual_block kw ->
   1 <= kw_residual_blocks_per_dilation kw ->
   links (next_in s i prev) (flat_map DilationBlock_io (fst r))
     (match n with
      | O => next_in s i prev
      | S n' => o * 2 ^ Z.of_nat n'
      end)).
Proof.
  induction n as [| n IH]; intros s i o prev r H; cbn [seq map dilation_loop] in H.
  - injection H as <-. cbn [fst snd map wiring flat_map List.length links].
    repeat split; try reflexivity. cbn. lia.
  - inv_bind H. inv_bind H. inv_bind H. injection H as <-.
    assert (a = next_in s i prev) as ->.
    { unfold next_in. destruct s as [| s'].
      - cbn in Ha. injection Ha as <-. reflexivity.
      - replace (Z.of_nat (S s') >=? 1) with true in Ha
          by (symmetry; apply Z.geb_le; lia).
        destruct prev; [injection Ha as <-; reflexivity | discriminate]. }
    unfold DilationBlock_init in Ha0. inv_bind Ha0. injection Ha0 as <-.
    apply residual_blocks_loop_io in Ha2. destruct Ha2 as [Hlen Hlinks].
    apply IH in Ha1. destruct Ha1 as (Hw & Hs & Hn & Hl).
    cbn [next_in db_out_channels] in Hw, Hl.
    cbn [fst snd map wiring flat_map db_in_channels db_out_channels].
    unfold DilationBlock_io at 1 3. cbn [dilation_block].
    split; [rewrite Hw, (Z.mul_comm o 2); reflexivity |].
    split; [rewrite Hs, Nat2Z.inj_succ, Z.pow_succ_r by lia; ring |].
    split; [rewrite length_app, Hlen, Hn; cbn [Nat.mul]; reflexivity |].
    intros HB HN. specialize (Hl HB HN). specialize (Hlinks HB).
    apply (links_app _ o _).
    + destruct (Z.to_nat (kw_residual_blocks_per_dilation kw)) eqn:E; [lia |].
      exact Hlinks.
    + destruct n as [| n'].
      * cbn [Z.of_nat]. rewrite Z.pow_0_r, Z.mul_1_r. exact Hl.
      * replace (o * 2 ^ Z.of_nat (S n')) with (o * 2 * 2 ^ Z.of_nat n');
          [exact Hl |].
        rewrite Nat2Z.inj_succ, Z.pow_succ_r by lia. ring.
Qed.

Lemma dilation_blocks_of_blocks (first classifier : ConvolutionalBlock)
    (dbs : list DilationBlock) (last : list Block) :
  (forall b, In b last -> match b with BDilation _ => False | _ => True end) ->
  flat_map (fun b => match b with BDilation d => [d] | _ => [] end)
    ([BConvolutional first] ++ map BDilation dbs ++ last ++ [BConvolutional classifier])
  = dbs.
Proof.
  intros Hlast. rewrite !flat_map_app. cbn [flat_map app].
  assert (flat_map (fun b => match b with BDilation d => [d] | _ => [] end) last = []) as ->.
  { induction last as [| b last IH]; [reflexivity |].
    cbn [flat_map]. rewrite IH by (intros b' Hb'; apply Hlast; right; exact Hb').
    specialize (Hlast b (or_introl eq_refl)). destruct b; [reflexivity | contradiction | reflexivity]. }
  rewrite app_nil_r. cbn [app].
  induction dbs as [| d dbs IH]; [reflexivity |].
  cbn [map flat_map app]. rewrite IH. reflexivity.
Qed.

(** What a successful constructor has built, with the channels of its
    blocks. *)
Lemma HighResNet_init_channels (kw : HighResNet_kwargs) (net : HighResNet) :
  HighResNet_init kw = Ok net ->
  let c0 := 2 ^ kw_initial_out_channels_power kw in
  let n := Z.to_nat (kw_dilations kw) in
  map (fun b => (db_in_channels b, db_out_channels b)) (dilation_blocks net)
  = wiring c0 c0 n /\
  exists dil_io : list (Z * Z),
    HighResNet_io net
    = [(kw_input_channels kw, c0)] ++ dil_io
      ++ (if kw_add_dropout_layer kw
          then [(c0 * 2 ^ Z.of_nat n / 2, 80); (80, kw_output_channels kw)]
          else [(c0 * 2 ^ Z.of_nat n / 2, kw_output_channels kw)]) /\
    List.length dil_io
    = (n * (Z.to_nat (kw_residual_blocks_per_dilation kw)
            * Z.to_nat (kw_layers_per_residual_block kw)))%nat /\
    (1 <= kw_layers_per_residual_block kw ->
     1 <= kw_residual_blocks_per_dilation kw ->
     links c0 dil_io (match n with O => c0 | S n' => c0 * 2 ^ Z.of_nat n' end)).
Proof.
  intros H c0 n.
  destruct (HighResNet_init_inv kw net H)
    as (_ & _ & first & r & d & classifier & Hfirst & Hloop & Hdrop & Hcl & ->).
  fold c0 in Hfirst, Hloop. unfold range in Hloop. fold n in Hloop.
  apply dilation_loop_wiring in Hloop. destruct Hloop as (Hw & Hs & Hn & Hl).
  cbn [next_in] in Hw, Hl.
  apply ConvolutionalBlock_init_io in Hfirst.
  apply ConvolutionalBlock_init_io in Hcl.
  split.
  - unfold dilation_blocks. cbn [block].
    rewrite dilation_blocks_of_blocks; [exact Hw |].
    intros b Hb. destruct (kw_add_dropout_layer kw).
    + destruct Hdrop as (dcb & _ & ->). cbn [fst] in Hb.
      destruct Hb as [<- | [<- | []]]; exact I.
    + subst d. destruct Hb.
  - exists (flat_map DilationBlock_io (fst r)).
    split; [| split; [exact Hn | exact Hl]].
    unfold HighResNet_io. cbn [block].
    rewrite !flat_map_app. cbn [flat_map Block_io]. rewrite Hfirst, Hcl, app_nil_r.
    rewrite flat_map_map.
    change (flat_map (fun a => Block_io (BDilation a)) (fst r))
      with (flat_map DilationBlock_io (fst r)).
    rewrite <- Hs. f_equal. f_equal.
    destruct (kw_add_dropout_layer kw).
    + destruct Hdrop as (dcb & Hdcb & ->).
      apply ConvolutionalBlock_init_io in Hdcb.
      cbn [fst snd flat_map Block_io new layer Layer_io].
      rewrite Hdcb. reflexivity.
    + subst d. reflexivity.
Qed.

Lemma wiring_length (a o : Z) (n : nat) : List.length (wiring a o n) = n.
Proof.
  revert a o. induction n as [| n IH]; intros a o; cbn [wiring List.length];
    [reflexivity | rewrite IH; reflexivity].
Qed.

Lemma wiring_nth (n : nat) :
  forall a o d x y,
  nth_error (wiring a o n) d = Some (x, y) ->
  y = o * 2 ^ Z.of_nat d /\
  x = (if Nat.eqb d 0 then a else o * 2 ^ (Z.of_nat d - 1)).
Proof.
  induction n as [| n IH]; intros a o d x y H; cbn [wiring] in H.
  - destruct d; discriminate.
  - destruct d as [| d]; cbn [nth_error] in H.
    + injection H as <- <-. cbn [Nat.eqb Z.of_nat]. rewrite Z.pow_0_r. lia.
    + apply IH in H. destruct H as [-> ->]. cbn [Nat.eqb].
      rewrite Nat2Z.inj_succ, Z.pow_succ_r by lia.
      split; [ring |].
      replace (Z.succ (Z.of_nat d) - 1) with (Z.of_nat d) by lia.
      destruct d as [| d]; cbn [Nat.eqb].
      * cbn [Z.of_nat]. rewrite Z.pow_0_r. lia.
      * rewrite Nat2Z.inj_succ.
        replace (Z.succ (Z.of_nat d) - 1) with (Z.of_nat d) by lia.
        rewrite Z.pow_succ_r by lia. ring.
Qed.

Lemma wiring_even (n : nat) :
  forall a o, a <= o -> Z.even (o - a) = true -> 0 <= o -> Z.even o = true ->
  forall x y, In (x, y) (wiring a o n) -> 0 <= y - x /\ Z.even (y - x) = true.
Proof.
  induction n as [| n IH]; intros a o Hle He Ho Heo x y Hin; cbn [wiring] in Hin.
  - destruct Hin.
  - destruct Hin as [Heq | Hin].
    + injection Heq as <- <-. split; [lia | exact He].
    + apply (IH o (2 * o)); try lia; try exact Hin.
      * replace (2 * o - o) with o by lia. exact Heo.
      * rewrite Z.even_mul. reflexivity.
Qed.

(** X4: the channels of the dilation blocks of a constructed network:
    there is one block per index below [dilations]; the block of index [d]
    produces [2^power * 2^d] channels and receives the channels of the
    block before, the first one [2^power] channels. *)
Theorem X4_dilation_block_channels (kw : HighResNet_kwargs) (net : HighResNet) :
  HighResNet_init kw = Ok net ->
  List.length (dilation_blocks net) = Z.to_nat (kw_dilations kw) /\
  forall d b, nth_error (dilation_blocks net) d = Some b ->
    db_out_channels b = 2 ^ kw_initial_out_channels_power kw * 2 ^ Z.of_nat d /\
    db_in_channels b
    = (if Nat.eqb d 0 then 2 ^ kw_initial_out_channels_power kw
       else 2 ^ kw_initial_out_channels_power kw * 2 ^ (Z.of_nat d - 1)).
Proof.
  intros H. destruct (HighResNet_init_channels kw net H) as [Hw _].
  split.
  - rewrite <- (length_map (fun b => (db_in_channels b, db_out_channels b))), Hw.
    apply wiring_length.
  - intros d b Hd.
    apply (map_nth_error (fun b => (db_in_channels b, db_out_channels b))) in Hd.
    rewrite Hw in Hd. apply wiring_nth in Hd. exact Hd.
Qed.

(** X5: with at least one layer per residual block, one residual block
    per dilation and one dilation, the convolutions of a constructed
    network are chained: the first one receives [input_channels], every
    other one receives as many channels as the one before produces, and the
    last one produces [output_channels]. *)
Theorem X5_convolutions_are_chained (kw : HighResNet_kwargs) (net : HighResNet) :
  HighResNet_init kw = Ok net ->
  1 <= kw_layers_per_residual_block kw ->
  1 <= kw_residual_blocks_per_dilation kw ->
  1 <= kw_dilations kw ->
  links (kw_input_channels kw) (HighResNet_io net) (kw_output_channels kw).
Proof.
  intros H HB HN HD.
  destruct (HighResNet_init_channels kw net H) as (_ & dil_io & -> & _ & Hl).
  specialize (Hl HB HN).
  destruct (Z.to_nat (kw_dilations kw)) as [| n'] eqn:En; [lia |].
  set (c0 := 2 ^ kw_initial_out_channels_power kw) in *.
  assert (c0 * 2 ^ Z.of_nat (S n') / 2 = c0 * 2 ^ Z.of_nat n') as ->.
  { rewrite Nat2Z.inj_succ, Z.pow_succ_r by lia.
    replace (c0 * (2 * 2 ^ Z.of_nat n')) with (c0 * 2 ^ Z.of_nat n' * 2) by ring.
    apply Z.div_mul. lia. }
  cbn [app links]. split; [reflexivity |].
  apply (links_app _ _ _ _ _ Hl).
  destruct (kw_add_dropout_layer kw); cbn [links]; auto.
Qed.

(** X6: when the power of the initial channels is at least 1, every
    dilation block of a constructed network goes to a number of channels
    that exceeds its input channels by an even number, so the zero-padded
    shortcut of its first residual block has exactly the channels of the
    stack output it is added to. *)
Theorem X6_pad_shortcut_fits_in_network
    (kw : HighResNet_kwargs) (net : HighResNet) :
  HighResNet_init kw = Ok net ->
  1 <= kw_initial_out_channels_power kw ->
  forall b, In b (dilation_blocks net) ->
    0 <= db_out_channels b - db_in_channels b /\
    Z.even (db_out_channels b - db_in_channels b) = true /\
    forall x out : Tensor,
      Z.of_nat (List.length (channels x)) = db_in_channels b ->
      Z.of_nat (List.length (channels out)) = db_out_channels b ->
      exists x', pad_shortcut x out = Ok x' /\
        List.length (channels x') = List.length (channels out).
Proof.
  intros H Hp b Hb. destruct (HighResNet_init_channels kw net H) as [Hw _].
  apply (in_map (fun b => (db_in_channels b, db_out_channels b))) in Hb.
  rewrite Hw in Hb.
  set (c0 := 2 ^ kw_initial_out_channels_power kw) in *.
  assert (0 <= c0) as Hc0 by (apply Z.pow_nonneg; lia).
  assert (Z.even c0 = true) as Hec0.
  { unfold c0. rewrite Z.even_pow by lia. reflexivity. }
  destruct (wiring_even _ c0 c0 ltac:(lia)
              ltac:(rewrite Z.sub_diag; reflexivity) Hc0 Hec0 _ _ Hb)
    as [Hd He].
  split; [exact Hd |]. split; [exact He |].
  intros x out Hx Hout.
  assert (diff_channels x out = db_out_channels b - db_in_channels b) as Hdiff
    by (unfold diff_channels; lia).
  destruct (pad_shortcut x out) as [x' | e] eqn:Hpad.
  - exists x'. split; [reflexivity |].
    pose proof (pad_shortcut_length x out x' Hpad) as Hlen.
    rewrite Hdiff in Hlen. apply even_half in He. lia.
  - assert (is_ok (pad_shortcut x out) = true) as Hok
      by (apply pad_shortcut_is_ok; lia).
    rewrite Hpad in Hok. discriminate.
Qed.

(** X7: the number of convolutions on the main path of a constructed
    network: the first one, [layers_per_residual_block] for each of the
    [residual_blocks_per_dilation] residual blocks of each of the
    [dilations] dilation blocks (counts below 0 count as 0), one more with
    the dropout layer, and the classifier. *)
Theorem X7_number_of_convolutions (kw : HighResNet_kwargs) (net : HighResNet) :
  HighResNet_init kw = Ok net ->
  List.length (HighResNet_io net)
  = (2 + Z.to_nat (kw_dilations kw)
         * (Z.to_nat (kw_residual_blocks_per_dilation kw)
            * Z.to_nat (kw_layers_per_residual_block kw))
     + (if kw_add_dropout_layer kw then 1 else 0))%nat.
Proof.
  intros H.
  destruct (HighResNet_init_channels kw net H) as (_ & dil_io & -> & Hn & _).
  rewrite !length_app, Hn.
  destruct (kw_add_dropout_layer kw); cbn [List.length]; lia.
Qed.

(** X8: with [dilations] at most 0 (and no dropout layer) the network is
    built from the first block and the classifier alone, and the
    classifier expects half the channels that the first block produces:
    the convolutions are not chained. *)
Theorem X8_no_dilation_breaks_the_chain
    (kw : HighResNet_kwargs) (net : HighResNet) :
  HighResNet_init kw = Ok net ->
  kw_dilations kw <= 0 ->
  kw_add_dropout_layer kw = false ->
  HighResNet_io net
  = [(kw_input_channels kw, 2 ^ kw_initial_out_channels_power kw);
     (2 ^ kw_initial_out_channels_power kw / 2, kw_output_channels kw)] /\
  ~ links (kw_input_channels kw) (HighResNet_io net) (kw_output_channels kw).
Proof.
  intros H HD Hdrop.
  destruct (HighResNet_init_inv kw net H) as (_ & Hp & _).
  destruct (HighResNet_init_channels kw net H) as (_ & dil_io & Hio & Hn & _).
  rewrite Hdrop in Hio.
  replace (Z.to_nat (kw_dilations kw)) with 0%nat in * by lia.
  destruct dil_io; [| discriminate].
  cbn [app Z.of_nat] in Hio. rewrite Z.pow_0_r, Z.mul_1_r in Hio.
  split; [exact Hio |].
  rewrite Hio. cbn [links]. intros (_ & Hhalf & _).
  set (c0 := 2 ^ kw_initial_out_channels_power kw) in *.
  assert (0 < c0) by (apply Z.pow_pos_nonneg; lia).
  assert (c0 / 2 < c0) by (apply Z.div_lt; lia).
  lia.
Qed.

(** ** More on the receptive field *)

Lemma Ok_inj {A : Type} (a b : A) : Ok a = Ok b -> a = b.
Proof. intros H. injection H as ->. reflexivity. Qed.

Lemma wrap64_even (z : Z) : Z.even (wrap64 z) = Z.even z.
Proof.
  unfold wrap64. rewrite Z.mod_eq by lia.
  replace (z + 2 ^ 63 - 2 ^ 64 * ((z + 2 ^ 63) / 2 ^ 64) - 2 ^ 63)
    with (z - 2 ^ 64 * ((z + 2 ^ 63) / 2 ^ 64)) by lia.
  rewrite Z.even_sub, Z.even_mul, Z.even_pow by lia.
  cbn [Z.even orb]. destruct (Z.even z); reflexivity.
Qed.

Lemma to_int64_Ok (z z' : Z) : to_int64 z = Ok z' -> z' = z /\ in_int64 z.
Proof.
  unfold to_int64, in_int64. intros H.
  destruct ((- 2 ^ 63 <=? z) && (z <? 2 ^ 63)) eqn:E; [| discriminate].
  injection H as <-. apply andb_true_iff in E. destruct E as [E1 E2].
  apply Z.leb_le in E1. apply Z.ltb_lt in E2. auto.
Qed.

Lemma torch_arange_Ok (D : Z) (l : list Z) :
  torch_arange D = Ok l -> l = range D /\ 0 <= D < 2 ^ 63.
Proof.
  unfold torch_arange. intros H. inv_bind H.
  apply to_int64_Ok in Ha. destruct Ha as [-> [_ Hu]].
  destruct (D <? 0) eqn:E; [discriminate |].
  injection H as <-. apply Z.ltb_ge in E. auto.
Qed.

Lemma torch_sum_even (l : list Z) :
  Forall (fun t => Z.even t = true) l -> Z.even (torch_sum l) = true.
Proof.
  unfold torch_sum.
  assert (forall acc, Z.even acc = true ->
            Forall (fun t => Z.even t = true) l ->
            Z.even (fold_left (fun a d => wrap64 (a + d)) l acc) = true) as H.
  { induction l as [| t l IH]; intros acc Hacc Hl; cbn [fold_left]; [exact Hacc |].
    inversion Hl as [| ? ? Ht Hl']; subst.
    apply IH; [| exact Hl'].
    rewrite wrap64_even, Z.even_add, Hacc, Ht. reflexivity. }
  apply H. reflexivity.
Qed.

(** X9: whenever the property [receptive_field] returns a number, the
    number is odd: the window of input positions has a centre. *)
Theorem X9_receptive_field_is_odd (net : HighResNet) (r : Z) :
  receptive_field net = Ok r -> Z.odd r = true.
Proof.
  unfold receptive_field. intros H. inv_bind H. inv_bind H.
  apply torch_arange_Ok in Ha. destruct Ha as [-> HD].
  cbv zeta in H. apply Ok_inj in H. subst r.
  rewrite <- Z.negb_even, wrap64_even, Z.even_add, wrap64_even, Z.even_add.
  rewrite torch_sum_even; [reflexivity |].
  apply Forall_forall. intros t Ht. apply in_map_iff in Ht.
  destruct Ht as (d & <- & Hd). apply In_range in Hd.
  rewrite wrap64_even, Z.even_mul, wrap64_even.
  rewrite (wrap64_id (d + 1)) by (unfold in_int64; lia).
  rewrite Z.even_pow by lia. apply orb_true_r.
Qed.

Lemma sum_pow2 (c : Z) (n : nat) :
  sumZ (map (fun d => c * 2 ^ (d + 1)) (map Z.of_nat (seq 0 n)))
  = c * (2 ^ (Z.of_nat n + 1) - 2).
Proof.
  induction n as [| n IH].
  - cbn [seq map sumZ fold_right Z.of_nat]. rewrite Z.pow_1_r. lia.
  - rewrite seq_S, !map_app, sumZ_app, IH. cbn [map sumZ fold_right Nat.add].
    rewrite Nat2Z.inj_succ.
    replace (Z.succ (Z.of_nat n) + 1) with (Z.succ (Z.of_nat n + 1)) by lia.
    rewrite Z.pow_succ_r by lia. lia.
Qed.

(** X10: in closed form, for [D >= 0] different dilation factors, the
    receptive field is [3 + B * N * (2^(D+1) - 2)] (every number fitting
    the 64-bit integer tensor), and [get_receptive_field_world] returns
    it multiplied by the spacing. *)
Theorem X10_receptive_field_closed_form (net : HighResNet) (spacing : Z) :
  let B := layers_per_residual_block net in
  let N := residual_blocks_per_dilation net in
  let D := dilations net in
  0 <= D < 2 ^ 63 ->
  in_int64 (B * N) ->
  in_int64 (3 + B * N * (2 ^ (D + 1) - 2)) ->
  in_int64 spacing ->
  in_int64 ((3 + B * N * (2 ^ (D + 1) - 2)) * spacing) ->
  receptive_field net = Ok (3 + B * N * (2 ^ (D + 1) - 2)) /\
  get_receptive_field_world net spacing
  = Ok ((3 + B * N * (2 ^ (D + 1) - 2)) * spacing).
Proof.
  intros B N D HD HBN Hfit Hs Hfits.
  assert (receptive_field net = Ok (3 + B * N * (2 ^ (D + 1) - 2))) as Hr.
  { rewrite receptive_field_value by assumption. fold B N D.
    unfold receptive_field_formula, range.
    rewrite sum_pow2, Z2Nat.id by lia.
    rewrite wrap64_id by exact Hfit. reflexivity. }
  split; [exact Hr |].
  unfold get_receptive_field_world. rewrite Hr. cbn [bind].
  rewrite to_int64_ok by exact Hs. cbn [bind].
  rewrite wrap64_id by exact Hfits. reflexivity.
Qed.

(** ** Blocks without layers *)

Lemma set_residual_block_same (b : ResidualBlock) :
  set_residual_block b (residual_block b) (change_dim_layer b) = b.
Proof. destruct b. reflexivity. Qed.

(** X11: a residual block built with no layer ([num_layers <= 0]) and the
    same number of input and output channels returns its input when
    [residual] is not set and the input added to itself when it is; a
    dilation block built with no residual block
    ([num_residual_blocks <= 0]) returns its input; neither changes its
    state. *)
Theorem X11_blocks_without_layers :
  (forall i n dil dims bn inn res rt pm b x,
     ResidualBlock_init i i n dil dims bn inn res rt pm = Ok b -> n <= 0 ->
     ResidualBlock_forward b x = (b, if res then tensor_add x x else Ok x)) /\
  (forall i o dil dims lpb nrb bn inn res pm b x,
     DilationBlock_init i o dil dims lpb nrb bn inn res pm = Ok b -> nrb <= 0 ->
     DilationBlock_forward b x = (b, Ok x)).
Proof.
  split.
  - intros i n dil dims bn inn res rt pm b x H Hn.
    destruct (ResidualBlock_init_inv _ _ _ _ _ _ _ _ _ _ _ H)
      as (_ & Hres & Hcd & _ & _ & _ & Hloop).
    replace (Z.to_nat n) with 0%nat in Hloop by lia.
    cbn [conv_blocks_loop] in Hloop. injection Hloop as Hstack.
    unfold ResidualBlock_forward. rewrite <- Hstack. cbn [Sequential_forward].
    rewrite Hstack, set_residual_block_same, Hres, Hcd, Z.eqb_refl.
    destruct res; reflexivity.
  - intros i o dil dims lpb nrb bn inn res pm b x H Hn.
    unfold DilationBlock_init in H. inv_bind H. injection H as <-.
    replace (Z.to_nat nrb) with 0%nat in Ha by lia.
    cbn [residual_blocks_loop] in Ha. injection Ha as <-.
    reflexivity.
Qed.

(** ** Parameters of the shortcut *)

Lemma numel_conv_1x1 (nd : ND) (i o dil : Z) :
  sumZ (map numel (Layer_parameters (Conv nd i o 1 dil false))) = o * i.
Proof.
  destruct nd; cbn [Layer_parameters nd_rank repeat map sumZ fold_right numel];
    lia.
Qed.

(** X12: the zero-padded shortcut introduces no parameter: a residual
    block built with 'pad' has the parameters of its convolutional blocks
    only, and the same block built with 'project' has [out * in] more when
    the channels change (the 1x1 convolution, without bias) and none more
    when they do not. *)
Theorem X12_shortcut_parameters
    (i o n dil : Z) (dims : option Z) (bn inn res : bool) (pm : string)
    (pad project : ResidualBlock) :
  ResidualBlock_init i o n dil dims bn inn res "pad" pm = Ok pad ->
  ResidualBlock_init i o n dil dims bn inn res "project" pm = Ok project ->
  ResidualBlock_parameters pad
  = flat_map ConvolutionalBlock_parameters (residual_block pad) /\
  sumZ (map numel (ResidualBlock_parameters project))
  = sumZ (map numel (ResidualBlock_parameters pad))
    + (if i =? o then 0 else o * i).
Proof.
  intros Hp Hj.
  destruct (ResidualBlock_init_inv _ _ _ _ _ _ _ _ _ _ _ Hp)
    as (_ & _ & _ & _ & _ & Hlp & Hloop).
  destruct (ResidualBlock_init_inv _ _ _ _ _ _ _ _ _ _ _ Hj)
    as (_ & _ & _ & _ & _ & Hlj & Hloop').
  rewrite Hloop in Hloop'. injection Hloop' as Hsame.
  rewrite andb_false_r in Hlp.
  unfold ResidualBlock_parameters. rewrite Hlp, Hlj, <- Hsame.
  split; [reflexivity |].
  cbn [app]. rewrite andb_true_r.
  destruct (i =? o); cbn [negb new layer app].
  - lia.
  - rewrite map_app, sumZ_app, numel_conv_1x1. lia.
Qed.

(** ** The classes of the layers *)

Lemma assembled_layers_nd
    (i o dil : Z) (dims : option Z) (bn inn : bool) (pm : string)
    (pre : bool) (k : Z) (act : bool) :
  valid_dimensions dims -> valid_padding_mode pm ->
  Forall (Layer_is_nd (class_nd dims))
    (assembled_layers i o dil dims bn inn pm pre k act).
Proof.
  intros [-> | ->] [-> | [-> | ->]];
    unfold assembled_layers, norm_layers, relu_layers, padding_layer;
    destruct pre, bn, inn, act, (k >? 1); cbn;
    repeat (apply Forall_cons || apply Forall_nil); cbn; auto 6.
Qed.

Lemma assembled_layers_no_dropout
    (i o dil : Z) (dims : option Z) (bn inn : bool) (pm : string)
    (pre : bool) (k : Z) (act : bool) :
  Forall (fun l => l <> Dropout3d)
    (assembled_layers i o dil dims bn inn pm pre k act).
Proof.
  unfold assembled_layers, norm_layers, relu_layers, padding_layer.
  destruct pre, (bn || inn), act, (k >? 1), (py_eq dims 2); cbn;
    repeat (apply Forall_cons || apply Forall_nil); discriminate.
Qed.

Section LayersOfBlocks.

(** A property that the layers of every convolutional block have, for the
    dimensions at hand. *)
Variable P : Layer -> Prop.
Variable dims : option Z.
Hypothesis P_assembled :
  forall i o dil bn inn pm pre k act,
    valid_padding_mode pm ->
    Forall P (assembled_layers i o dil dims bn inn pm pre k act).

Lemma ConvolutionalBlock_init_Forall
    (i o dil : Z) (bn inn : bool) (pm : string)
    (pre : bool) (k : Z) (act : bool) (b : ConvolutionalBlock) :
  ConvolutionalBlock_init i o dil dims bn inn pm pre k act = Ok b ->
  Forall P (ConvolutionalBlock_layers b).
Proof.
  intros H.
  pose proof (ConvolutionalBlock_init_Ok_checks _ _ _ _ _ _ _ _ _ _ _ H) as [Hpm _].
  apply ConvolutionalBlock_init_layers in H. rewrite H.
  apply P_assembled. exact Hpm.
Qed.

Lemma conv_blocks_loop_Forall (n : nat) (i o dil : Z)
    (bn inn : bool) (pm : string) (l : list ConvolutionalBlock) :
  conv_blocks_loop n i o dil dims bn inn pm = Ok l ->
  Forall P (flat_map ConvolutionalBlock_layers l).
Proof.
  revert i l. induction n as [| n IH]; intros i l H; simpl in H.
  - injection H as <-. constructor.
  - inv_bind H. inv_bind H. injection H as <-.
    cbn [flat_map]. apply Forall_app. split.
    + apply (ConvolutionalBlock_init_Forall _ _ _ _ _ _ _ _ _ _ Ha).
    + apply (IH _ _ Ha0).
Qed.

Lemma residual_blocks_loop_Forall (m : nat) (i o dil : Z)
    (lpb : Z) (bn inn res : bool) (pm : string) (l : list ResidualBlock) :
  residual_blocks_loop m i o dil dims lpb bn inn res pm = Ok l ->
  Forall P (flat_map ResidualBlock_layers l).
Proof.
  revert i l. induction m as [| m IH]; intros i l H; simpl in H.
  - injection H as <-. constructor.
  - inv_bind H. inv_bind H. injection H as <-.
    cbn [flat_map]. apply Forall_app. split; [| apply (IH _ _ Ha0)].
    destruct (ResidualBlock_init_inv _ _ _ _ _ _ _ _ _ _ _ Ha)
      as (_ & _ & _ & _ & _ & Hl & Hloop).
    rewrite andb_false_r in Hl.
    unfold ResidualBlock_layers. rewrite Hl. cbn [app].
    apply (conv_blocks_loop_Forall _ _ _ _ _ _ _ _ Hloop).
Qed.

Lemma dilation_loop_Forall (kw : HighResNet_kwargs) (idxs : list Z) :
  kw_dimensions kw = dims ->
  forall i o prev r,
  dilation_loop idxs i o prev kw = Ok r ->
  Forall P (flat_map DilationBlock_layers (fst r)).
Proof.
  intros Hd. induction idxs as [| k rest IH]; intros i o prev r H; simpl in H.
  - injection H as <-. constructor.
  - inv_bind H. inv_bind H. inv_bind H. injection H as <-.
    cbn [fst flat_map]. apply Forall_app. split; [| apply (IH _ _ _ _ Ha1)].
    unfold DilationBlock_init in Ha0. inv_bind Ha0. injection Ha0 as <-.
    unfold DilationBlock_layers. cbn [dilation_block]. rewrite Hd in Ha2.
    apply (residual_blocks_loop_Forall _ _ _ _ _ _ _ _ _ _ Ha2).
Qed.

End LayersOfBlocks.

(** The layers of a constructed network, block by block. *)
Lemma HighResNet_init_layers (kw : HighResNet_kwargs) (net : HighResNet) :
  HighResNet_init kw = Ok net ->
  exists first dbs classifier,
    (forall P : Layer -> Prop,
       (forall i o dil bn inn pm pre k act,
          valid_padding_mode pm ->
          Forall P (assembled_layers i o dil (kw_dimensions kw) bn inn pm pre k act)) ->
       Forall P (first ++ dbs ++ classifier)) /\
    HighResNet_layers net
    = first ++ dbs
      ++ (if kw_add_dropout_layer kw then [Dropout3d] else [])
      ++ classifier.
Proof.
  intros H.
  destruct (HighResNet_init_inv kw net H)
    as (Hd & _ & first & r & d & classifier & Hfirst & Hloop & Hdrop & Hcl & ->).
  destruct (kw_add_dropout_layer kw).
  - destruct Hdrop as (dcb & Hdcb & ->).
    exists (ConvolutionalBlock_layers first),
      (flat_map DilationBlock_layers (fst r) ++ ConvolutionalBlock_layers dcb),
      (ConvolutionalBlock_layers classifier).
    split.
    + intros P HP. repeat (apply Forall_app; split).
      * apply (ConvolutionalBlock_init_Forall P _ HP _ _ _ _ _ _ _ _ _ _ Hfirst).
      * apply (dilation_loop_Forall P _ HP kw _ eq_refl _ _ _ _ Hloop).
      * apply (ConvolutionalBlock_init_Forall P _ HP _ _ _ _ _ _ _ _ _ _ Hdcb).
      * apply (ConvolutionalBlock_init_Forall P _ HP _ _ _ _ _ _ _ _ _ _ Hcl).
    + unfold HighResNet_layers. cbn [block fst].
      rewrite !flat_map_app, flat_map_map.
      cbn [flat_map Block_layers new layer app].
      rewrite !app_nil_r, <- !app_assoc. reflexivity.
  - subst d.
    exists (ConvolutionalBlock_layers first),
      (flat_map DilationBlock_layers (fst r)),
      (ConvolutionalBlock_layers classifier).
    split.
    + intros P HP. repeat (apply Forall_app; split).
      * apply (ConvolutionalBlock_init_Forall P _ HP _ _ _ _ _ _ _ _ _ _ Hfirst).
      * apply (dilation_loop_Forall P _ HP kw _ eq_refl _ _ _ _ Hloop).
      * apply (ConvolutionalBlock_init_Forall P _ HP _ _ _ _ _ _ _ _ _ _ Hcl).
    + unfold HighResNet_layers. cbn [block fst].
      rewrite !flat_map_app, flat_map_map.
      cbn [flat_map Block_layers app].
      rewrite !app_nil_r. reflexivity.
Qed.

(** X13: every layer of a constructed network is of the family that
    [dimensions] selects: with 2, the convolutions and normalisations are
    the 2d classes and the paddings are [ReflectionPad2d],
    [ReplicationPad2d] or [ZeroPad2d]; with 3, they are the 3d classes and
    the paddings are [Pad3d] layers with six amounts.  The dropout layer
    is [Dropout3d] in both, and it is there exactly when
    [add_dropout_layer] is set. *)
Theorem X13_layers_follow_dimensions (kw : HighResNet_kwargs) (net : HighResNet) :
  HighResNet_init kw = Ok net ->
  (kw_dimensions kw = Some 2 -> Forall (Layer_is_nd D2) (HighResNet_layers net)) /\
  (kw_dimensions kw = Some 3 -> Forall (Layer_is_nd D3) (HighResNet_layers net)) /\
  (kw_dimensions kw = Some 2 \/ kw_dimensions kw = Some 3) /\
  (In Dropout3d (HighResNet_layers net) <-> kw_add_dropout_layer kw = true).
Proof.
  intros H.
  destruct (HighResNet_init_inv kw net H) as (Hd & _).
  destruct (HighResNet_init_layers kw net H)
    as (first & dbs & classifier & Hall & ->).
  pose proof (Hall (Layer_is_nd (class_nd (kw_dimensions kw)))
                (fun i o dil bn inn pm pre k act Hpm =>
                   assembled_layers_nd i o dil _ bn inn pm pre k act Hd Hpm)) as Hnd.
  pose proof (Hall (fun l => l <> Dropout3d)
                (fun i o dil bn inn pm pre k act _ =>
                   assembled_layers_no_dropout i o dil _ bn inn pm pre k act)) as Hno.
  apply Forall_app in Hnd. destruct Hnd as [Hnd1 Hnd].
  apply Forall_app in Hnd. destruct Hnd as [Hnd2 Hnd3].
  assert (Forall (Layer_is_nd (class_nd (kw_dimensions kw)))
            (first ++ dbs
             ++ (if kw_add_dropout_layer kw then [Dropout3d] else [])
             ++ classifier)) as Hlayers.
  { repeat (apply Forall_app; split); try assumption.
    destruct (kw_add_dropout_layer kw); repeat constructor. }
  split; [intros E; rewrite E in Hlayers; exact Hlayers |].
  split; [intros E; rewrite E in Hlayers; exact Hlayers |].
  split; [exact Hd |].
  rewrite Forall_forall in Hno.
  rewrite !in_app_iff. split.
  - intros [Hin | [Hin | [Hin | Hin]]].
    + exfalso. apply (Hno Dropout3d); [| reflexivity].
      rewrite !in_app_iff. auto.
    + exfalso. apply (Hno Dropout3d); [| reflexivity].
      rewrite !in_app_iff. auto.
    + destruct (kw_add_dropout_layer kw); [reflexivity | destruct Hin].
    + exfalso. apply (Hno Dropout3d); [| reflexivity].
      rewrite !in_app_iff. auto.
  - intros ->. right. right. left. left. reflexivity.
Qed.

(** ** The derived numbers after a forward call *)

Lemma ResidualBlock_layers_structure (b : ResidualBlock) :
  ResidualBlock_layers b = structure_residual_layers (ResidualBlock_structure b).
Proof.
  unfold ResidualBlock_layers, ResidualBlock_structure, structure_residual_layers.
  rewrite flat_map_concat_map.
  destruct (change_dim_layer b); reflexivity.
Qed.

Lemma Block_layers_structure (b : Block) :
  Block_layers b = structure_layers (Block_structure b).
Proof.
  destruct b as [c | d | l]; cbn [Block_layers Block_structure structure_layers];
    try reflexivity.
  unfold DilationBlock_layers. rewrite flat_map_map.
  apply flat_map_ext. intros r. apply ResidualBlock_layers_structure.
Qed.

Lemma HighResNet_layers_structure (net : HighResNet) :
  HighResNet_layers net
  = flat_map structure_layers (map Block_structure (block net)).
Proof.
  unfold HighResNet_layers. rewrite flat_map_map.
  apply flat_map_ext. intros b. apply Block_layers_structure.
Qed.

Lemma HighResNet_forward_structure (net : HighResNet) (x : Tensor) :
  map Block_structure (block (fst (HighResNet_forward net x)))
  = map Block_structure (block net).
Proof.
  unfold HighResNet_forward.
  destruct (outputs_activation net) as [a |]; [| reflexivity].
  pose proof (Sequential_forward_structure Block_forward Block_structure
                Block_forward_structure (block net) x) as H.
  destruct (Sequential_forward Block_forward (block net) x). exact H.
Qed.

Lemma HighResNet_forward_fields (net : HighResNet) (x : Tensor) :
  layers_per_residual_block (fst (HighResNet_forward net x))
  = layers_per_residual_block net /\
  residual_blocks_per_dilation (fst (HighResNet_forward net x))
  = residual_blocks_per_dilation net /\
  dilations (fst (HighResNet_forward net x)) = dilations net.
Proof.
  unfold HighResNet_forward.
  destruct (outputs_activation net) as [a |]; [| repeat split].
  destruct (Sequential_forward Block_forward (block net) x). repeat split.
Qed.

(** X14: a call of [forward], whatever it returns, leaves the layers of
    the network, its parameter tensors' shapes, [num_parameters] and
    [receptive_field] as they were. *)
Theorem X14_forward_keeps_derived_numbers (net : HighResNet) (x : Tensor) :
  HighResNet_layers (fst (HighResNet_forward net x)) = HighResNet_layers net /\
  parameters (fst (HighResNet_forward net x)) = parameters net /\
  num_parameters (fst (HighResNet_forward net x)) = num_parameters net /\
  receptive_field (fst (HighResNet_forward net x)) = receptive_field net.
Proof.
  assert (HighResNet_layers (fst (HighResNet_forward net x))
          = HighResNet_layers net) as Hl.
  { rewrite !HighResNet_layers_structure, HighResNet_forward_structure.
    reflexivity. }
  assert (parameters (fst (HighResNet_forward net x)) = parameters net) as Hp.
  { rewrite !parameters_layers, Hl. reflexivity. }
  split; [exact Hl |]. split; [exact Hp |]. split.
  - unfold num_parameters. rewrite Hp. reflexivity.
  - destruct (HighResNet_forward_fields net x) as (HB & HN & HD).
    unfold receptive_field. rewrite HB, HN, HD. reflexivity.
Qed.

End Coverage.

(** * The layers a configuration asks for *)

Section Configured.

Context {F : Framework}.

Ltac inv_bind H :=
  let a := fresh "a" in
  let Ha := fresh "Ha" in
  apply bind_Ok in H; destruct H as (a & Ha & H).

Lemma exists_bind_Ok {A B : Type} (r : result A) (k : A -> result B) :
  (exists b, bind r k = Ok b) <-> (exists a, r = Ok a /\ exists b, k a = Ok b).
Proof.
  split.
  - intros [b H]. apply bind_Ok in H. destruct H as (a & Ha & Hk). eauto.
  - intros (a & -> & b & Hk). exists b. exact Hk.
Qed.

(** ** Which layers are built *)

Lemma conv_blocks_loop_built (n : nat) (i o dil : Z) (dims : option Z)
    (bn inn : bool) (pm : string) :
  checks_pass bn inn pm -> valid_dimensions dims ->
  ((exists l, conv_blocks_loop n i o dil dims bn inn pm = Ok l)
   <-> Forall accepted (conv_blocks_layers n i o dil dims bn inn pm)).
Proof.
  intros Hc Hd. revert i.
  induction n as [| n IH]; intros i; cbn [conv_blocks_loop conv_blocks_layers].
  - split; [constructor | eauto].
  - rewrite exists_bind_Ok, Forall_app. split.
    + intros (b & Hb & Hrest). apply exists_bind_Ok in Hrest.
      destruct Hrest as (l & Hl & _).
      split; [exact (ConvolutionalBlock_init_accepted _ _ _ _ _ _ _ _ _ _ _ Hb) |].
      apply IH. eauto.
    + intros [H1 H2].
      destruct (ConvolutionalBlock_init_ok i o dil dims bn inn pm true 3 true
                  Hc Hd H1) as [b Hb].
      exists b. split; [exact Hb |]. apply exists_bind_Ok.
      apply IH in H2. destruct H2 as [l Hl].
      exists l. split; [exact Hl | eauto].
Qed.

Lemma conv_blocks_loop_layers (n : nat) (i o dil : Z) (dims : option Z)
    (bn inn : bool) (pm : string) (l : list ConvolutionalBlock) :
  conv_blocks_loop n i o dil dims bn inn pm = Ok l ->
  flat_map ConvolutionalBlock_layers l
  = conv_blocks_layers n i o dil dims bn inn pm.
Proof.
  revert i l. induction n as [| n IH]; intros i l H; simpl in H.
  - injection H as <-. reflexivity.
  - inv_bind H. inv_bind H. injection H as <-.
    cbn [flat_map conv_blocks_layers].
    rewrite (ConvolutionalBlock_init_layers _ _ _ _ _ _ _ _ _ _ _ Ha),
      (IH _ _ Ha0).
    reflexivity.
Qed.

(** A residual block with the 'pad' shortcut builds its stack and nothing
    else. *)
Lemma ResidualBlock_init_pad (i o n dil : Z) (dims : option Z)
    (bn inn res : bool) (pm : string) :
  ResidualBlock_init i o n dil dims bn inn res "pad" pm
  = (conv_blocks <- conv_blocks_loop (Z.to_nat n) i o dil dims bn inn pm ;;
     Ok {| residual := res;
           change_dimension := negb (i =? o);
           residual_type := "pad";
           dimensions := dims;
           change_dim_layer := None;
           residual_block := conv_blocks |}).
Proof.
  unfold ResidualBlock_init.
  change (String.eqb "pad" "pad" || String.eqb "pad" "project") with true.
  change (String.eqb "pad" "project") with false.
  rewrite andb_false_r. reflexivity.
Qed.

Lemma residual_blocks_loop_built (m : nat) (i o dil : Z) (dims : option Z)
    (lpb : Z) (bn inn res : bool) (pm : string) :
  checks_pass bn inn pm -> valid_dimensions dims ->
  ((exists l, residual_blocks_loop m i o dil dims lpb bn inn res pm = Ok l)
   <-> Forall accepted (residual_blocks_layers m i o dil dims lpb bn inn pm)).
Proof.
  intros Hc Hd. revert i.
  induction m as [| m IH]; intros i;
    cbn [residual_blocks_loop residual_blocks_layers].
  - split; [constructor | eauto].
  - rewrite ResidualBlock_init_pad, exists_bind_Ok, Forall_app.
    rewrite <- (conv_blocks_loop_built (Z.to_nat lpb) i o dil dims bn inn pm Hc Hd).
    rewrite <- IH. split.
    + intros (b & Hb & Hrest). apply exists_bind_Ok in Hrest.
      destruct Hrest as (l & Hl & _). inv_bind Hb. eauto.
    + intros [[cs Hcs] [l Hl]]. rewrite Hcs. cbn [bind].
      eexists. split; [reflexivity |]. rewrite Hl. cbn [bind]. eauto.
Qed.

Lemma residual_blocks_loop_layers (m : nat) (i o dil : Z) (dims : option Z)
    (lpb : Z) (bn inn res : bool) (pm : string) (l : list ResidualBlock) :
  residual_blocks_loop m i o dil dims lpb bn inn res pm = Ok l ->
  flat_map ResidualBlock_layers l
  = residual_blocks_layers m i o dil dims lpb bn inn pm.
Proof.
  revert i l. induction m as [| m IH]; intros i l H; simpl in H.
  - injection H as <-. reflexivity.
  - inv_bind H. inv_bind H. injection H as <-.
    rewrite ResidualBlock_init_pad in Ha. inv_bind Ha. injection Ha as <-.
    cbn [flat_map residual_blocks_layers].
    unfold ResidualBlock_layers at 1. cbn [change_dim_layer residual_block app].
    rewrite (conv_blocks_loop_layers _ _ _ _ _ _ _ _ _ Ha1), (IH _ _ Ha0).
    reflexivity.
Qed.

Lemma dilation_loop_next_in (s : nat) (i : Z) (prev : option DilationBlock) :
  s = O \/ prev <> None ->
  (if Z.of_nat s >=? 1
   then match prev with
        | Some b => Ok (db_out_channels b)
        | None => Raise AttributeError
        end
   else Ok i) = Ok (next_in s i prev).
Proof.
  intros Hb. unfold next_in. destruct s as [| s'].
  - reflexivity.
  - replace (Z.of_nat (S s') >=? 1) with true
      by (symmetry; apply Z.geb_le; lia).
    destruct prev; [reflexivity |]. destruct Hb; congruence.
Qed.

Lemma dilation_loop_built (kw : HighResNet_kwargs) :
  checks_pass (kw_batch_norm kw) (kw_instance_norm kw) (kw_padding_mode kw) ->
  valid_dimensions (kw_dimensions kw) ->
  forall n s i o prev,
  s = O \/ prev <> None ->
  ((exists r, dilation_loop (map Z.of_nat (seq s n)) i o prev kw = Ok r)
   <-> Forall accepted (dilation_blocks_layers n s (next_in s i prev) o kw)).
Proof.
  intros Hc Hd n.
  induction n as [| n IH]; intros s i o prev Hb;
    cbn [seq map dilation_loop dilation_blocks_layers].
  - split; [constructor | eauto].
  - rewrite (dilation_loop_next_in s i prev Hb). cbn [bind].
    unfold DilationBlock_init.
    rewrite Forall_app.
    rewrite <- (residual_blocks_loop_built
                  (Z.to_nat (kw_residual_blocks_per_dilation kw))
                  (next_in s i prev) o (2 ^ Z.of_nat s) (kw_dimensions kw)
                  (kw_layers_per_residual_block kw) (kw_batch_norm kw)
                  (kw_instance_norm kw) (kw_residual kw) (kw_padding_mode kw)
                  Hc Hd).
    split.
    + intros [r H]. inv_bind H. inv_bind Ha. injection Ha as <-.
      inv_bind H.
      split; [eauto |].
      pose proof (IH (S s) (next_in s i prev) (o * 2)
                    (Some {| db_in_channels := next_in s i prev;
                             db_out_channels := o;
                             dilation_block := a0 |})) as IH'.
      cbn [next_in db_out_channels] in IH'.
      apply IH'; [right; discriminate | eauto].
    + intros [[rs Hrs] H2]. rewrite Hrs. cbn [bind].
      pose proof (IH (S s) (next_in s i prev) (o * 2)
                    (Some {| db_in_channels := next_in s i prev;
                             db_out_channels := o;
                             dilation_block := rs |})) as IH'.
      cbn [next_in db_out_channels] in IH'.
      apply IH' in H2; [| right; discriminate].
      destruct H2 as [r Hr]. rewrite Hr. cbn [bind]. eauto.
Qed.

Lemma dilation_loop_layers (kw : HighResNet_kwargs) (n : nat) :
  forall s i o prev r,
  dilation_loop (map Z.of_nat (seq s n)) i o prev kw = Ok r ->
  flat_map DilationBlock_layers (fst r)
  = dilation_blocks_layers n s (next_in s i prev) o kw.
Proof.
  induction n as [| n IH]; intros s i o prev r H;
    cbn [seq map dilation_loop] in H.
  - injection H as <-. reflexivity.
  - inv_bind H. inv_bind H. inv_bind H. injection H as <-.
    assert (a = next_in s i prev) as ->.
    { unfold next_in. destruct s as [| s'].
      - cbn in Ha. injection Ha as <-. reflexivity.
      - replace (Z.of_nat (S s') >=? 1) with true in Ha
          by (symmetry; apply Z.geb_le; lia).
        destruct prev; [injection Ha as <-; reflexivity | discriminate]. }
    unfold DilationBlock_init in Ha0. inv_bind Ha0. injection Ha0 as <-.
    apply IH in Ha1. cbn [next_in db_out_channels] in Ha1.
    cbn [fst flat_map dilation_blocks_layers].
    unfold DilationBlock_layers at 1. cbn [dilation_block].
    rewrite (residual_blocks_loop_layers _ _ _ _ _ _ _ _ _ _ _ Ha2), Ha1.
    reflexivity.
Qed.

(** The layers of a constructed network are those the configuration asks
    for, and the framework has accepted them. *)
Lemma HighResNet_init_configured (kw : HighResNet_kwargs) (net : HighResNet) :
  HighResNet_init kw = Ok net ->
  HighResNet_layers net = configured_layers kw /\
  Forall accepted (configured_layers kw).
Proof.
  intros H.
  destruct (HighResNet_init_inv kw net H)
    as (Hd & _ & first & r & d & classifier & Hfirst & Hloop & Hdrop & Hcl & ->).
  unfold range in Hloop.
  pose proof (dilation_loop_layers kw _ _ _ _ _ _ Hloop) as Hdl.
  pose proof (dilation_loop_wiring kw _ _ _ _ _ _ Hloop) as (_ & Hs & _).
  cbn [next_in] in Hdl.
  assert (Forall accepted
            (dilation_blocks_layers (Z.to_nat (kw_dilations kw)) 0
               (2 ^ kw_initial_out_channels_power kw)
               (2 ^ kw_initial_out_channels_power kw) kw)) as Hda.
  { pose proof (ConvolutionalBlock_init_Ok_checks _ _ _ _ _ _ _ _ _ _ _ Hfirst)
      as Hc.
    apply (dilation_loop_built kw Hc Hd _ 0%nat
             (2 ^ kw_initial_out_channels_power kw) _ None (or_introl eq_refl)).
    eauto. }
  unfold configured_layers, HighResNet_layers. cbn [block].
  rewrite !flat_map_app, flat_map_map.
  change (flat_map (fun a => Block_layers (BDilation a)) (fst r))
    with (flat_map DilationBlock_layers (fst r)).
  cbn [flat_map Block_layers]. rewrite app_nil_r, Hdl.
  rewrite (ConvolutionalBlock_init_layers _ _ _ _ _ _ _ _ _ _ _ Hfirst).
  rewrite (ConvolutionalBlock_init_layers _ _ _ _ _ _ _ _ _ _ _ Hcl).
  rewrite <- Hs.
  apply ConvolutionalBlock_init_accepted in Hfirst.
  apply ConvolutionalBlock_init_accepted in Hcl.
  destruct (kw_add_dropout_layer kw).
  - destruct Hdrop as (dcb & Hdcb & ->).
    cbn [fst snd flat_map Block_layers new layer app] in *.
    rewrite (ConvolutionalBlock_init_layers _ _ _ _ _ _ _ _ _ _ _ Hdcb).
    apply ConvolutionalBlock_init_accepted in Hdcb.
    split; [rewrite app_nil_r; reflexivity |].
    rewrite !Forall_app.
    repeat split; try assumption.
    constructor; [exact I | constructor].
  - subst d. cbn [fst snd flat_map app] in *.
    split; [rewrite ?app_nil_r; reflexivity |].
    rewrite !Forall_app.
    repeat split; assumption.
Qed.

(** A configuration that passes the checks, with an integer number of
    initial channels, is built when the framework accepts its layers. *)
Lemma HighResNet_init_built (kw : HighResNet_kwargs) :
  valid_dimensions (kw_dimensions kw) ->
  checks_pass (kw_batch_norm kw) (kw_instance_norm kw) (kw_padding_mode kw) ->
  0 <= kw_initial_out_channels_power kw ->
  Forall accepted (configured_layers kw) ->
  exists net, HighResNet_init kw = Ok net.
Proof.
  intros Hd Hc Hp Ha. unfold configured_layers in Ha.
  rewrite !Forall_app in Ha. destruct Ha as (Hfirst & Hdil & Hdrop & Hcl).
  unfold HighResNet_init.
  pose proof Hd as Hd'. apply valid_dimensions_iff in Hd'. rewrite Hd'.
  cbn [assert bind].
  unfold py_pow2. pose proof Hp as Hp'. apply Z.ltb_ge in Hp'. rewrite Hp'.
  destruct (ConvolutionalBlock_init_ok _ _ _ _ _ _ _ _ _ _ Hc Hd Hfirst)
    as [first ->].
  cbn [bind]. unfold range.
  apply (dilation_loop_built kw Hc Hd _ 0%nat
           (2 ^ kw_initial_out_channels_power kw) _ None (or_introl eq_refl))
    in Hdil.
  destruct Hdil as [r Hr].
  pose proof (dilation_loop_wiring kw _ _ _ _ _ _ Hr) as (_ & Hs & _).
  rewrite Hr. cbn [bind]. rewrite Hs.
  destruct (kw_add_dropout_layer kw).
  - apply Forall_app in Hdrop. destruct Hdrop as [Hdrop _].
    destruct (ConvolutionalBlock_init_ok _ _ _ _ _ _ _ _ _ _
                (checks_pass_constant _ _ _ Hc) Hd Hdrop) as [dcb ->].
    cbn [bind snd].
    destruct (ConvolutionalBlock_init_ok _ _ _ _ _ _ _ _ _ _ Hc Hd Hcl)
      as [cl ->].
    cbn [bind]. eauto.
  - cbn [bind snd].
    destruct (ConvolutionalBlock_init_ok _ _ _ _ _ _ _ _ _ _ Hc Hd Hcl)
      as [cl ->].
    cbn [bind]. eauto.
Qed.

(** X1: the constructor of [HighResNet] returns a network exactly when
    [dimensions] is 2 or 3, the padding mode is known, the two
    normalisations are not both requested, the power of the initial
    channels is not negative and the framework accepts the layers that the
    configuration asks for; the network then consists of these layers, in
    this order.  Once the checks pass, the only failure left is an error
    of the framework, which a negative power and a negative number of
    input or output channels always cause; failures are never an unbound
    local, a missing key or a missing attribute: the check on [dimensions]
    comes before any block is built. *)
Theorem X1_HighResNet_init_outcome (kw : HighResNet_kwargs) :
  ((exists net, HighResNet_init kw = Ok net)
   <-> valid_dimensions (kw_dimensions kw)
       /\ checks_pass (kw_batch_norm kw) (kw_instance_norm kw) (kw_padding_mode kw)
       /\ 0 <= kw_initial_out_channels_power kw
       /\ Forall accepted (configured_layers kw)) /\
  (forall net,
     HighResNet_init kw = Ok net -> HighResNet_layers net = configured_layers kw) /\
  (valid_dimensions (kw_dimensions kw) ->
   checks_pass (kw_batch_norm kw) (kw_instance_norm kw) (kw_padding_mode kw) ->
   ((exists net, HighResNet_init kw = Ok net)
    \/ HighResNet_init kw = Raise FrameworkError)
   /\ (kw_initial_out_channels_power kw < 0
       \/ kw_input_channels kw < 0 \/ kw_output_channels kw < 0 ->
       HighResNet_init kw = Raise FrameworkError)) /\
  HighResNet_init kw <> Raise UnboundLocalError /\
  HighResNet_init kw <> Raise KeyError /\
  HighResNet_init kw <> Raise AttributeError.
Proof.
  split; [| split; [| split]].
  - split.
    + intros [net Hn].
      destruct (HighResNet_init_inv kw net Hn)
        as (Hd & Hp & first & r & d & classifier & Hf & _).
      split; [exact Hd |].
      split; [exact (ConvolutionalBlock_init_Ok_checks _ _ _ _ _ _ _ _ _ _ _ Hf) |].
      split; [exact Hp |].
      apply (HighResNet_init_configured kw net Hn).
    + intros (Hd & Hc & Hp & Ha). apply HighResNet_init_built; assumption.
  - intros net Hn. apply (HighResNet_init_configured kw net Hn).
  - intros Hd Hc. split.
    + apply HighResNet_init_outcome; assumption.
    + intros [Hp | Hneg]; [apply HighResNet_init_float; assumption |].
      destruct (HighResNet_init_outcome kw Hd Hc) as [[net Hn] | H];
        [exfalso | exact H].
      apply HighResNet_init_configured in Hn. destruct Hn as [_ Ha].
      unfold configured_layers in Ha. rewrite !Forall_app in Ha.
      destruct Ha as (Hfirst & _ & _ & Hcl).
      apply assembled_layers_accepted_sizes in Hfirst, Hcl. lia.
  - destruct (valid_dimensions_dec (kw_dimensions kw)) as [Hd | Hd].
    2: { assert (HighResNet_init kw = Raise AssertionError) as ->
           by (apply HighResNet_init_assertion; auto).
         repeat split; discriminate. }
    destruct (checks_pass_dec (kw_batch_norm kw) (kw_instance_norm kw)
                (kw_padding_mode kw)) as [Hc | Hc].
    2: { assert (HighResNet_init kw = Raise AssertionError) as ->
           by (apply HighResNet_init_assertion; auto).
         repeat split; discriminate. }
    destruct (HighResNet_init_outcome kw Hd Hc) as [[net ->] | ->];
      repeat split; discriminate.
Qed.

(** ** The output activation *)

(** The name of the output activation is read last, and only to select the
    module: the constructor returns or raises as for any other name. *)
Lemma dilation_loop_with_activation (kw : HighResNet_kwargs) (name : string)
    (idxs : list Z) :
  forall i o prev,
    dilation_loop idxs i o prev (with_activation kw name)
    = dilation_loop idxs i o prev kw.
Proof.
  induction idxs as [| k rest IH]; intros i o prev; simpl; [reflexivity |].
  destruct (if k >=? 1
            then match prev with
                 | Some b => Ok (db_out_channels b)
                 | None => Raise AttributeError
                 end
            else Ok i) as [i' | e]; simpl; [| reflexivity].
  destruct (DilationBlock_init i' o (2 ^ k) (kw_dimensions kw)
              (kw_layers_per_residual_block kw)
              (kw_residual_blocks_per_dilation kw) (kw_batch_norm kw)
              (kw_instance_norm kw) (kw_residual kw) (kw_padding_mode kw))
    as [b | e]; simpl; [| reflexivity].
  rewrite IH. reflexivity.
Qed.

Lemma HighResNet_init_with_activation (kw : HighResNet_kwargs) (name : string) :
  HighResNet_init (with_activation kw name)
  = (net <- HighResNet_init kw ;;
     Ok {| in_channels := in_channels net;
           out_channels := out_channels net;
           layers_per_residual_block := layers_per_residual_block net;
           residual_blocks_per_dilation := residual_blocks_per_dilation net;
           dilations := dilations net;
           outputs_activation := select_activation name;
           block := block net |}).
Proof.
  unfold HighResNet_init.
  cbn [with_activation kw_input_channels kw_output_channels
       kw_initial_out_channels_power kw_outputs_activation kw_dimensions
       kw_layers_per_residual_block kw_residual_blocks_per_dilation
       kw_dilations kw_batch_norm kw_instance_norm kw_residual
       kw_padding_mode kw_add_dropout_layer].
  rewrite dilation_loop_with_activation.
  destruct (assert (py_eq (kw_dimensions kw) 2 || py_eq (kw_dimensions kw) 3));
    simpl; [| reflexivity].
  destruct (match py_pow2 (kw_initial_out_channels_power kw) with
            | PyInt c => _ | PyFloat => _ end) as [first | e];
    simpl; [| reflexivity].
  destruct (dilation_loop (range (kw_dilations kw))
              (2 ^ kw_initial_out_channels_power kw)
              (2 ^ kw_initial_out_channels_power kw) None kw) as [r | e];
    simpl; [| reflexivity].
  destruct (if kw_add_dropout_layer kw then _ else _) as [d | e];
    simpl; [| reflexivity].
  destruct (ConvolutionalBlock_init (snd d) (kw_output_channels kw) 1
              (kw_dimensions kw) (kw_batch_norm kw) (kw_instance_norm kw)
              (kw_padding_mode kw) false 1 false) as [c | e];
    simpl; reflexivity.
Qed.

(** C10: with an [outputs_activation] other than 'sigmoid', 'softmax' and
    'none' the constructor completes as it does for any other name: its
    outcome does not depend on the name, and it returns a network for every
    configuration that passes the checks, with layers that the framework
    accepts.  The attribute [outputs_activation] is not set on the network
    it returns, and every call of [forward] fails with an attribute error,
    before any block is run. *)
Theorem C10_unknown_activation_fails_in_forward (kw : HighResNet_kwargs) :
  kw_outputs_activation kw <> "sigmoid" ->
  kw_outputs_activation kw <> "softmax" ->
  kw_outputs_activation kw <> "none" ->
  (forall name,
     is_ok (HighResNet_init kw) = is_ok (HighResNet_init (with_activation kw name))) /\
  (valid_dimensions (kw_dimensions kw) ->
   checks_pass (kw_batch_norm kw) (kw_instance_norm kw) (kw_padding_mode kw) ->
   0 <= kw_initial_out_channels_power kw ->
   Forall accepted (configured_layers kw) ->
   exists net, HighResNet_init kw = Ok net) /\
  (forall net,
     HighResNet_init kw = Ok net ->
     outputs_activation net = None /\
     forall x, HighResNet_forward net x = (net, Raise AttributeError)).
Proof.
  intros H1 H2 H3. split; [| split].
  - intros name. rewrite HighResNet_init_with_activation.
    destruct (HighResNet_init kw); reflexivity.
  - apply HighResNet_init_built.
  - intros net Hn.
    assert (outputs_activation net = None) as Ha.
    { destruct (HighResNet_init_inv kw net Hn)
        as (_ & _ & first & r & d & classifier & _ & _ & _ & _ & ->).
      simpl. apply select_activation_cases; assumption. }
    split; [exact Ha |].
    intros x. unfold HighResNet_forward. rewrite Ha. reflexivity.
Qed.

End Configured.

(** * The shape framework as an instance *)

Lemma shape_layer_forward_shape (l : Layer) (b : unit) (x : TensorOf unit)
    (b' : unit) (y : TensorOf unit) :
  shape_layer_forward l b x = (b', Ok y) ->
  Layer_rank_ok l (List.length (spatial_dims x)) ->
  batch_size y = batch_size x /\
  spatial_dims y = Layer_out_spatial l (spatial_dims x).
Proof.
  unfold shape_layer_forward. intros H _.
  destruct (shape_layer_accepts l x); [| discriminate].
  injection H as _ <-. split; reflexivity.
Qed.

Lemma shape_activation_shape (x y : TensorOf unit) :
  Ok x = Ok y -> same_space (F := ShapeFramework) x y.
Proof. intros H. injection H as <-. split; reflexivity. Qed.

(** The default three-dimensional network is built. *)
Lemma net3d_built :
  HighRes3DNet_init (F := ShapeFramework) (default_kwargs 1 1) = Ok net3d.
Proof. vm_compute. reflexivity. Qed.

Lemma residual_1_2_built :
  ResidualBlock_init (F := ShapeFramework) 1 2 2 1 (Some 3) true false true
    "pad" "constant" = Ok residual_1_2.
Proof. vm_compute. reflexivity. Qed.

(** [HighRes3DNet(1, 1)] has a receptive field of 87 voxels and 803570
    parameters, and maps a batch of volumes to a batch of the same size. *)
Example net3d_numbers :
  receptive_field net3d = Ok 87 /\
  topology_receptive_field net3d = 87 /\
  num_parameters net3d = 803570 /\
  snd (HighResNet_forward net3d x3d) = Ok x3d.
Proof. vm_compute. repeat split; reflexivity. Qed.

(** C1, the claim as stated fails: with [layers_per_residual_block = -1]
    the network is built with empty residual blocks, its receptive field as
    built is 3, and the property returns -39. *)
Lemma C1_counterexample :
  ~ (forall (kw : HighResNet_kwargs) (net : @HighResNet ShapeFramework),
       HighResNet_init kw = Ok net ->
       receptive_field net
       = Ok (receptive_field_formula (kw_layers_per_residual_block kw)
               (kw_residual_blocks_per_dilation kw) (kw_dilations kw)) /\
       topology_receptive_field net
       = receptive_field_formula (kw_layers_per_residual_block kw)
           (kw_residual_blocks_per_dilation kw) (kw_dilations kw)).
Proof.
  intros H.
  destruct (H kw3d_negative_layers (built kw3d_negative_layers)) as [_ H2].
  - vm_compute. reflexivity.
  - vm_compute in H2. discriminate.
Qed.

Example negative_layers_numbers :
  receptive_field (F := ShapeFramework) (built kw3d_negative_layers) = Ok (-39) /\
  topology_receptive_field (F := ShapeFramework) (built kw3d_negative_layers) = 3.
Proof. vm_compute. split; reflexivity. Qed.

(** C1 at [HighRes3DNet(1, 1)]: 3 + 2*3*(2 + 4 + 8) = 87. *)
Lemma C1_witness :
  receptive_field net3d = Ok 87 /\ topology_receptive_field net3d = 87.
Proof.
  destruct (C1_receptive_field_matches_topology kw3d net3d) as (H1 & H2 & _).
  - vm_compute. reflexivity.
  - vm_compute. discriminate.
  - vm_compute. discriminate.
  - vm_compute. discriminate.
  - vm_compute. repeat split; reflexivity.
  - split; [exact H1 | exact H2].
Defined.

(** C2 at [HighRes3DNet(1, 1)]. *)
Lemma C2_witness : num_parameters net3d = 803570.
Proof.
  destruct (C2_num_parameters_counts_scalars kw3d net3d) as (_ & H).
  - vm_compute. reflexivity.
  - vm_compute. split; [discriminate | reflexivity].
  - exact H.
Defined.

(** C3 at [HighRes3DNet(1, 1)], whose activation is the sigmoid. *)
Lemma C3_witness :
  snd (HighResNet_forward net3d x3d)
  = (y <- snd (Sequential_forward Block_forward (block net3d) x3d) ;; sigmoid y).
Proof.
  destruct (C3_forward_is_activation_of_blocks kw3d net3d x3d) as (_ & H & _).
  - vm_compute. reflexivity.
  - apply H. reflexivity.
Defined.

(** C4, the claim as stated fails: both checks pass for
    [ConvolutionalBlock(1, 1, 1, dimensions=4)], and its construction stops
    on the local [padding_instance], which no branch has bound. *)
Lemma C4_counterexample :
  ~ (forall i o dil dims bn inn pm pre k act,
       checks_pass bn inn pm ->
       exists b,
         ConvolutionalBlock_init (F := ShapeFramework) i o dil dims bn inn pm
           pre k act = Ok b).
Proof.
  intros H.
  destruct (H 1 1 1 (Some 4) true false "constant" true 3 true) as [b Hb].
  - split; [right; right; reflexivity | intros [_ Hf]; discriminate].
  - vm_compute in Hb. discriminate.
Qed.

Example dimensions_4_unbound :
  ConvolutionalBlock_init (F := ShapeFramework) 1 1 1 (Some 4) true false
    "constant" true 3 true = Raise UnboundLocalError.
Proof. reflexivity. Qed.

(** C7, where the code departs from it: the 'pad' branch puts
    [diff_channels // 2] channels of zeros on each side, so for an odd
    difference the copy of the input is one channel short of the output of
    the stack.  From 1 to 2 channels no channel of zeros is added at all
    and the sum broadcasts the single input channel over both channels of
    the output, in any framework; the block [ResidualBlock(1, 2, 2, 1, 3)]
    so returns two channels.  From 3 to 6 channels the copy has 5 channels
    and the sum is refused. *)
Theorem C7_pad_shortcut_odd_difference :
  (forall (F : Framework) (b : Z) (s : list Z) (c o1 o2 : Chan),
     let x := {| batch_size := b; spatial_dims := s; channels := [c] |} in
     let out := {| batch_size := b; spatial_dims := s; channels := [o1; o2] |} in
     pad_shortcut x out = Ok x /\
     (x' <- pad_shortcut x out ;; tensor_add x' out)
     = Ok {| batch_size := b; spatial_dims := s;
             channels := [chan_add c o1; chan_add c o2] |}) /\
  (ResidualBlock_init 1 2 2 1 (Some 3) true false true "pad" "constant"
   = Ok residual_1_2 /\
   pad_shortcut (F := ShapeFramework)
     (shape_tensor 1 1 [4; 4; 4]) (shape_tensor 1 2 [4; 4; 4])
   = Ok (shape_tensor 1 1 [4; 4; 4]) /\
   snd (ResidualBlock_forward residual_1_2 (shape_tensor 1 1 [4; 4; 4]))
   = Ok (shape_tensor 1 2 [4; 4; 4])) /\
  (ResidualBlock_init 3 6 2 1 (Some 3) true false true "pad" "constant"
   = Ok residual_3_6 /\
   pad_shortcut (F := ShapeFramework)
     (shape_tensor 1 3 [4; 4; 4]) (shape_tensor 1 6 [4; 4; 4])
   = Ok (shape_tensor 1 5 [4; 4; 4]) /\
   snd (ResidualBlock_forward residual_3_6 (shape_tensor 1 3 [4; 4; 4]))
   = Raise FrameworkError).
Proof.
  split; [| split; repeat split; vm_compute; reflexivity].
  intros F b s c o1 o2 x out.
  assert (pad_shortcut x out = Ok x) as Hp.
  { unfold pad_shortcut, new_zeros, cat3, same_dims. simpl.
    rewrite Z.eqb_refl.
    destruct (list_eq_dec Z.eq_dec s s); [reflexivity | contradiction]. }
  split; [exact Hp |].
  rewrite Hp. simpl. unfold tensor_add. simpl.
  rewrite broadcast_dim_refl, broadcast_dims_refl. reflexivity.
Qed.

(** C8 at [HighRes3DNet(1, 1)] in the shape framework: a batch of two
    8x9x10 volumes comes out with the same batch size and dimensions. *)
Lemma C8_witness :
  snd (HighResNet_forward net3d x3d) = Ok x3d /\ same_space x3d x3d.
Proof.
  split; [vm_compute; reflexivity |].
  apply (proj2 (C8_spatial_dimensions_preserved (F := ShapeFramework)
                  shape_layer_forward_shape shape_activation_shape
                  shape_activation_shape 3)
           kw3d net3d) with (net' := fst (HighResNet_forward net3d x3d)).
  - vm_compute. reflexivity.
  - right. split; reflexivity.
  - reflexivity.
  - vm_compute. reflexivity.
Defined.

(** C10 at [HighRes3DNet(1, 1, outputs_activation='relu')]. *)
Lemma C10_witness :
  exists net : @HighResNet ShapeFramework,
    HighResNet_init (with_activation kw3d "relu") = Ok net /\
    outputs_activation net = None /\
    forall x, HighResNet_forward net x = (net, Raise AttributeError).
Proof.
  destruct (C10_unknown_activation_fails_in_forward (F := ShapeFramework)
              (with_activation kw3d "relu")) as (_ & Hbuilt & Hfails).
  - discriminate.
  - discriminate.
  - discriminate.
  - destruct Hbuilt as [net Hnet].
    + right. reflexivity.
    + split; [right; right; reflexivity | intros [_ Hf]; discriminate].
    + vm_compute. discriminate.
    + vm_compute. repeat constructor.
    + exists net. split; [exact Hnet | exact (Hfails net Hnet)].
Defined.

(** A negative number of channels is refused by the framework, in the
    network and in the projection of a residual block, which is built
    before the padding mode is checked. *)
Example negative_channels_refused :
  HighRes3DNet_init (F := ShapeFramework) (default_kwargs (-1) 1)
  = Raise FrameworkError /\
  HighRes3DNet_init (F := ShapeFramework) (default_kwargs 1 (-1))
  = Raise FrameworkError /\
  ResidualBlock_init (F := ShapeFramework) (-1) 2 1 1 (Some 3) true false true
    "project" "zeros" = Raise FrameworkError /\
  ResidualBlock_init (F := ShapeFramework) 1 2 1 1 (Some 3) true false true
    "project" "zeros" = Raise AssertionError.
Proof. vm_compute. repeat split; reflexivity. Qed.

(** * The further properties at concrete blocks and networks *)

Lemma first_block_1_16_built :
  ConvolutionalBlock_init (F := ShapeFramework) 1 16 1 (Some 3) true false
    "constant" false 3 true = Ok first_block_1_16.
Proof. vm_compute. reflexivity. Qed.

Lemma residual_1_2_project_built :
  ResidualBlock_init (F := ShapeFramework) 1 2 2 1 (Some 3) true false true
    "project" "constant" = Ok residual_1_2_project.
Proof. vm_compute. reflexivity. Qed.

(** X15 at a residual block from 1 to 2 channels with the 'pad' shortcut. *)
Lemma X15_witness :
  snd (ResidualBlock_forward residual_1_2 x3d)
  = (out <- snd (Sequential_forward ConvolutionalBlock_forward
                   (residual_block residual_1_2) x3d) ;;
     x' <- pad_shortcut x3d out ;; tensor_add x' out).
Proof.
  destruct (X15_ResidualBlock_forward_cases 1 2 2 1 (Some 3) true false true
              "pad" "constant" residual_1_2 x3d) as (_ & _ & _ & H).
  - vm_compute. reflexivity.
  - apply H; [reflexivity | discriminate | reflexivity].
Defined.

(** X2 at the first block of [HighRes3DNet(1, 1)]: padding, convolution
    without bias, batch normalisation of the 16 output channels,
    activation. *)
Lemma X2_witness :
  ConvolutionalBlock_layers first_block_1_16
  = [Pad3d [1; 1; 1; 1; 1; 1] "constant"; Conv D3 1 16 3 1 false;
     Norm BatchNorm D3 16; ReLU].
Proof.
  pose proof (X2_ConvolutionalBlock_layer_order 1 16 1 (Some 3) true false
                "constant" false 3 true first_block_1_16) as H.
  cbv zeta in H. destruct H as (H & _).
  - vm_compute. reflexivity.
  - exact H.
Defined.

(** X3 at the same block: 16 * 1 * 27 scalars of the kernel and 2 * 16 of
    the batch normalisation. *)
Lemma X3_witness :
  sumZ (map numel (ConvolutionalBlock_parameters first_block_1_16)) = 464.
Proof.
  apply (X3_ConvolutionalBlock_parameter_count 1 16 1 (Some 3) true false
           "constant" false 3 true first_block_1_16).
  vm_compute. reflexivity.
Defined.

(** X4 at [HighRes3DNet(1, 1)]: three dilation blocks, the last one from 32
    to 64 channels. *)
Lemma X4_witness :
  List.length (dilation_blocks net3d) = 3%nat /\
  forall b, nth_error (dilation_blocks net3d) 2 = Some b ->
    db_out_channels b = 64 /\ db_in_channels b = 32.
Proof.
  destruct (X4_dilation_block_channels kw3d net3d) as (H1 & H2).
  - vm_compute. reflexivity.
  - split; [exact H1 |]. intros b Hb. exact (H2 2%nat b Hb).
Defined.

(** X5 at [HighRes3DNet(1, 1)]: from 1 input channel to 1 output channel. *)
Lemma X5_witness : links 1 (HighResNet_io net3d) 1.
Proof.
  apply (X5_convolutions_are_chained kw3d net3d).
  - vm_compute. reflexivity.
  - vm_compute. discriminate.
  - vm_compute. discriminate.
  - vm_compute. discriminate.
Defined.

(** X6 at [HighRes3DNet(1, 1)], whose power is 4. *)
Lemma X6_witness :
  Forall (fun b => Z.even (db_out_channels b - db_in_channels b) = true)
    (dilation_blocks net3d).
Proof.
  apply Forall_forall. intros b Hb.
  apply (X6_pad_shortcut_fits_in_network kw3d net3d); [| | exact Hb].
  - vm_compute. reflexivity.
  - vm_compute. discriminate.
Defined.

(** X7 at [HighRes3DNet(1, 1)]: 20 convolutions. *)
Lemma X7_witness : List.length (HighResNet_io net3d) = 20%nat.
Proof.
  apply (X7_number_of_convolutions kw3d net3d).
  vm_compute. reflexivity.
Defined.

(** X8 at [HighRes3DNet(1, 1, dilations=0)]: the first block produces 16
    channels and the classifier takes 8. *)
Lemma X8_witness :
  HighResNet_io (F := ShapeFramework) (built kw3d_no_dilation) = [(1, 16); (8, 1)].
Proof.
  destruct (X8_no_dilation_breaks_the_chain kw3d_no_dilation
              (built kw3d_no_dilation)) as (H & _).
  - vm_compute. reflexivity.
  - vm_compute. discriminate.
  - reflexivity.
  - exact H.
Defined.

(** X9 at [HighRes3DNet(1, 1)]: 87 is odd. *)
Lemma X9_witness : Z.odd 87 = true.
Proof.
  apply (X9_receptive_field_is_odd net3d 87).
  vm_compute. reflexivity.
Defined.

(** X10 at [HighRes3DNet(1, 1)] with a spacing of 2. *)
Lemma X10_witness :
  receptive_field net3d = Ok 87 /\ get_receptive_field_world net3d 2 = Ok 174.
Proof.
  apply (X10_receptive_field_closed_form net3d 2).
  - vm_compute. split; [discriminate | reflexivity].
  - vm_compute. split; [discriminate | reflexivity].
  - vm_compute. split; [discriminate | reflexivity].
  - vm_compute. split; [discriminate | reflexivity].
  - vm_compute. split; [discriminate | reflexivity].
Defined.

(** X11 at a dilation block without residual blocks. *)
Lemma X11_witness :
  exists b : @DilationBlock ShapeFramework,
    DilationBlock_init 16 16 1 (Some 3) 2 0 true false true "constant" = Ok b /\
    DilationBlock_forward b x3d = (b, Ok x3d).
Proof.
  eexists. split; [vm_compute; reflexivity |].
  apply (proj2 (X11_blocks_without_layers (F := ShapeFramework))
           16 16 1 (Some 3) 2 0 true false true "constant").
  - vm_compute. reflexivity.
  - vm_compute. discriminate.
Defined.

(** X12 at the residual blocks from 1 to 2 channels: the projection has
    2 * 1 scalars. *)
Lemma X12_witness :
  sumZ (map numel (ResidualBlock_parameters residual_1_2_project))
  = sumZ (map numel (ResidualBlock_parameters residual_1_2)) + 2.
Proof.
  destruct (X12_shortcut_parameters 1 2 2 1 (Some 3) true false true "constant"
              residual_1_2 residual_1_2_project) as (_ & H).
  - vm_compute. reflexivity.
  - vm_compute. reflexivity.
  - exact H.
Defined.

(** X13 at [HighRes3DNet(1, 1)]. *)
Lemma X13_witness : Forall (Layer_is_nd D3) (HighResNet_layers net3d).
Proof.
  destruct (X13_layers_follow_dimensions kw3d net3d) as (_ & H & _).
  - vm_compute. reflexivity.
  - apply H. reflexivity.
Defined.
